(** * CitationNetworkExplorer: a shallow embedding and its properties

    The development embeds [src/CitationNetworkExplorer.py] (the class
    [CitationNetworkExplorer]).  [src/thesistools.py] holds an earlier
    draft of the same class ([ThesisSession]); that file is not valid
    Python (a positional argument after a keyword argument in
    [add_documents], [('documents' = ...)] in [save_checkpoint]), so the
    embedding follows [CitationNetworkExplorer.py] throughout.

    Python objects that are shared and mutated in place are kept in an
    explicit store ([World]): the list objects bound to [self.documents]
    and the dict objects passed as [flags].  Everything else is a value.

    Exceptions are part of a result: the state reached when an exception
    is raised is kept, and the result says which exception, if any, left
    the call.  The exceptions followed are the ones the class can meet
    on the data it handles: a retrieval that raises, a field that is
    [None] where a string is used, and a [target_depth] that is not a
    number. *)

From Stdlib Require Import ZArith String List Bool Lia.
From stdpp Require Import base list strings gmap.

Local Open Scope string_scope.
Local Open Scope list_scope.
Local Open Scope Z_scope.

(** ** Python values and dicts *)

(** The scalar values that occur in node attributes and in [flags]. *)
Inductive pyval : Type :=
  | VStr (s : string)
  | VBool (b : bool)
  | VInt (z : Z).

(** Python's [==] on these values; [True == 1] and [False == 0] hold. *)
Definition pyval_eqb (a b : pyval) : bool :=
  match a, b with
  | VStr s, VStr t => String.eqb s t
  | VBool x, VBool y => Bool.eqb x y
  | VInt x, VInt y => Z.eqb x y
  | VBool x, VInt y | VInt y, VBool x => Z.eqb (if x then 1 else 0) y
  | _, _ => false
  end.

(** A dict with string keys, in insertion order. *)
Definition pydict (V : Type) : Type := list (string * V).

Fixpoint dict_get {V} (k : string) (d : pydict V) : option V :=
  match d with
  | [] => None
  | (k', v) :: d' => if String.eqb k' k then Some v else dict_get k d'
  end.

Definition dict_has {V} (k : string) (d : pydict V) : bool :=
  match dict_get k d with Some _ => true | None => false end.

(** [d[k] = v]: an existing key keeps its position. *)
Fixpoint dict_set {V} (k : string) (v : V) (d : pydict V) : pydict V :=
  match d with
  | [] => [(k, v)]
  | (k', v') :: d' =>
      if String.eqb k' k then (k', v) :: d' else (k', v') :: dict_set k v d'
  end.

(** [d.update(src)] *)
Definition dict_update {V} (src d : pydict V) : pydict V :=
  fold_left (fun acc kv => dict_set (fst kv) (snd kv) acc) src d.

(** ** networkx.DiGraph *)

(** A node attribute is a scalar or a reference to a dict object of the
    store (the [flags] dict handed to [add_node(..., attr=flags)]). *)
Inductive attrval : Type :=
  | AVal (v : pyval)
  | ARef (l : nat).

(** [nodes] is networkx's [_node] dict (node -> attribute dict);
    [edges] lists the pairs [(u, v)] with [v] in [_succ[u]]. *)
Record DiGraph : Type := mkDiGraph {
  nodes : pydict (pydict attrval);
  edges : list (string * string)
}.

Definition empty_graph : DiGraph := mkDiGraph [] [].

Definition has_node (g : DiGraph) (n : string) : bool := dict_has n (nodes g).

Definition edge_eqb (e f : string * string) : bool :=
  String.eqb (fst e) (fst f) && String.eqb (snd e) (snd f).

Definition has_edge (g : DiGraph) (u v : string) : bool :=
  existsb (edge_eqb (u, v)) (edges g).

(** [G.add_node(n, **attr)]: a new node gets [attr]; an existing node's
    dict is updated with [attr]. *)
Definition add_node (n : string) (attr : pydict attrval) (g : DiGraph) : DiGraph :=
  match dict_get n (nodes g) with
  | Some d => mkDiGraph (dict_set n (dict_update attr d) (nodes g)) (edges g)
  | None => mkDiGraph (nodes g ++ [(n, dict_update attr [])]) (edges g)
  end.

(** [G.add_edge(u, v)]: missing endpoints become nodes with an empty
    attribute dict; existing nodes keep their attributes. *)
Definition add_edge (u v : string) (g : DiGraph) : DiGraph :=
  let g1 := if has_node g u then g else mkDiGraph (nodes g ++ [(u, [])]) (edges g) in
  let g2 := if has_node g1 v then g1 else mkDiGraph (nodes g1 ++ [(v, [])]) (edges g1) in
  if has_edge g2 u v then g2 else mkDiGraph (nodes g2) (edges g2 ++ [(u, v)]).

(** [G.in_degree(v)]: the number of predecessors of [v]. *)
Definition in_degree (g : DiGraph) (v : string) : Z :=
  Z.of_nat (length (filter (fun e => String.eqb (snd e) v) (edges g))).

(** ** Records of the retrieval service (pybliometrics) *)

(** A field that the service may leave out is an [option]; [None] is
    Python's [None]. *)
Record Reference : Type := mkReference { ref_id : option string }.

Record Author : Type := mkAuthor { auid : option string; indexed_name : string }.

(** The record of a retrieval carries the eid Scopus gave it, a
    string; the other fields may be missing. *)
Record Abstract : Type := mkAbstract {
  eid : string;
  coverDate : option string;
  references : option (list Reference);
  authors : option (list Author);
  key_remaining_quota : option string;
  key_reset_time : option string
}.

(** [AbstractRetrieval(eid, view='FULL')]: raises, or yields an object
    (the source also guards against [None]). *)
Inductive FetchResult : Type :=
  | FetchRaise
  | FetchNone
  | FetchOk (abstract : Abstract).

(** [AuthorRetrieval(auid, view='LIGHT')] followed by
    [get_document_eids()]: one of the two raises, the object is [None],
    or the list of eids (possibly [None]) is returned. *)
Inductive AuthorResult : Type :=
  | AuthorRaise
  | AuthorNone
  | AuthorOk (newdocs : option (list string)).

(** ** The store of shared objects, and sessions *)

(** What [pickle.load] finds in a checkpoint file.  A dict is kept as
    its entries under the three keys the class reads, each possibly
    missing, together with the dict objects the pickled graphs refer to
    ([ARef l] inside a bundle points into [b_dicts]). *)
Record Bundle : Type := mkBundle {
  b_documents : option (list Abstract);   (* content['documents'] *)
  b_authorship : option DiGraph;          (* content['authorship'] *)
  b_citations : option DiGraph;           (* content['citations'] *)
  b_dicts : list (pydict pyval)
}.

Inductive Pickle : Type :=
  | PCorrupt                (* pickle.load raises *)
  | PNotDict                (* an object that cannot be subscripted by a string *)
  | PDict (b : Bundle).

(** [doc_lists]: the list objects bound to [self.documents];
    [dicts]: the dict objects passed around as [flags];
    [files]: the checkpoint directory, by file name;
    [requests]: how many retrievals were sent so far;
    [now]: the clock read by [datetime.now()]. *)
Record World : Type := mkWorld {
  doc_lists : list (list Abstract);
  dicts : list (pydict pyval);
  files : gmap string Pickle;
  requests : nat;
  now : Z
}.

(** Default arguments are evaluated once, when the class body runs:
    one list object for [__init__(documents=[])] and one dict object
    for each [flags={}]. *)
Definition default_documents : nat := 0%nat.
Definition default_flags_pull_abstract : nat := 0%nat.
Definition default_flags_add_document : nat := 1%nat.
Definition default_flags_add_documents : nat := 2%nat.
Definition default_flags_pull_author : nat := 3%nat.
Definition default_flags_pull_authors : nat := 4%nat.

(** The store right after the module is imported. *)
Definition fresh_world (fs : gmap string Pickle) (t : Z) : World :=
  mkWorld [[]] [[]; []; []; []; []] fs 0 t.

(** What [self.target_depth] can hold: an integer, or a dict object
    ([pull_author] hands its [flags] to [add_documents] in the place of
    [target_depth]). *)
Inductive depthval : Type :=
  | DInt (z : Z)
  | DDict (l : nat).

Record Session : Type := mkSession {
  documents : nat;                 (* reference into [doc_lists] *)
  fails : list string;
  authorship_graph : DiGraph;
  citation_graph : DiGraph;
  target_depth : depthval;
  last_quota : option string;      (* [None] is Python's None *)
  reset_time : option string
}.

(** [CitationNetworkExplorer(documents)]; [None] stands for a call that
    leaves the argument out. *)
Definition init (documents_arg : option nat) : Session :=
  mkSession (default default_documents documents_arg)
            [] empty_graph empty_graph (DInt 0) (Some "") (Some "").

(** A list display evaluated by a caller, or a list built by
    [pickle.load]: a new list object holding [d]. *)
Definition new_list (d : list Abstract) (w : World) : World * nat :=
  (mkWorld (doc_lists w ++ [d]) (dicts w) (files w) (requests w) (now w),
   length (doc_lists w)).

(** [flags = {...}] evaluated by a caller: a new dict object. *)
Definition new_dict (d : pydict pyval) (w : World) : World * nat :=
  (mkWorld (doc_lists w) (dicts w ++ [d]) (files w) (requests w) (now w),
   length (dicts w)).

(** The contents of [self.documents]. *)
Definition docs (w : World) (s : Session) : list Abstract :=
  default [] (doc_lists w !! documents s).

Definition dict_at (w : World) (l : nat) : pydict pyval :=
  default [] (dicts w !! l).

(** [self.documents.append(a)] *)
Definition append_document (a : Abstract) (w : World) (s : Session) : World :=
  mkWorld (<[documents s := docs w s ++ [a]]> (doc_lists w))
          (dicts w) (files w) (requests w) (now w).

(** [flags.update(year = y)] on the dict object [l]. *)
Definition flags_update_year (l : nat) (y : string) (w : World) : World :=
  mkWorld (doc_lists w)
          (<[l := dict_set "year" (VStr y) (dict_at w l)]> (dicts w))
          (files w) (requests w) (now w).

Definition count_request (w : World) : World :=
  mkWorld (doc_lists w) (dicts w) (files w) (S (requests w)) (now w).

Definition set_citation_graph (g : DiGraph) (s : Session) : Session :=
  mkSession (documents s) (fails s) (authorship_graph s) g
            (target_depth s) (last_quota s) (reset_time s).

Definition set_authorship_graph (g : DiGraph) (s : Session) : Session :=
  mkSession (documents s) (fails s) g (citation_graph s)
            (target_depth s) (last_quota s) (reset_time s).

Definition set_fails (f : list string) (s : Session) : Session :=
  mkSession (documents s) f (authorship_graph s) (citation_graph s)
            (target_depth s) (last_quota s) (reset_time s).

Definition set_target_depth (d : depthval) (s : Session) : Session :=
  mkSession (documents s) (fails s) (authorship_graph s) (citation_graph s)
            d (last_quota s) (reset_time s).

Definition set_quota (q r : option string) (s : Session) : Session :=
  mkSession (documents s) (fails s) (authorship_graph s) (citation_graph s)
            (target_depth s) q r.

(** ** What a run prints and whom it calls *)

Inductive Event : Type :=
  | EvRetrieve (x : string)          (* AbstractRetrieval(x, view='FULL') *)
  | EvCall (x : string) (depth : Z)  (* self.pull_abstract(x, depth) from pull_references *)
  | EvPrint (text : string)
  | EvPrintAbstract (a : Abstract)
  | EvTraceback
  | EvProgress (place total : nat)
  | EvRetrieveAuthor (a : string)    (* AuthorRetrieval(a, view='LIGHT') *)
  | EvUncaught (exn : string).       (* an exception that reached the caller *)

(** ** The expansion engine *)

(** State, output, and the exception that left the call, if any. *)
Definition Outcome : Type := World * Session * list Event * option string.

(** [_eid_from_id], for an id that is a string. *)
Definition _eid_from_id (thisid : string) : string :=
  let eid_prefix := "2-s2.0-" in
  String.append eid_prefix thisid.

(** [is_repeat]: the loop runs over the whole list, so the last match
    is the one returned. *)
Definition is_repeat (documents_ : list Abstract) (x : string) : bool * option Abstract :=
  fold_left
    (fun (acc : bool * option Abstract) doc =>
       if String.eqb (eid doc) x then (true, Some doc) else acc)
    documents_ (false, None).

Definition min_indegree_to_pull : Z := 3.

(** The body of the [for reference in abstract.references] loop of
    [pull_references]; [rec] is [self.pull_abstract].  Concatenating the
    prefix with [None] is a [TypeError], and so is comparing [depth]
    with a dict; an exception of the nested call passes through. *)
Definition pull_reference
    (rec : World -> Session -> string -> Z -> bool -> nat -> option Outcome)
    (abstract : Abstract) (depth : Z)
    (reference : Reference) (w : World) (s : Session) : option Outcome :=
  match ref_id reference with
  | None => Some (w, s, [], Some "TypeError")
  | Some thisid =>
      let reference_eid := _eid_from_id thisid in
      let s1 := set_citation_graph
                  (add_edge (eid abstract) reference_eid (citation_graph s)) s in
      match target_depth s1 with
      | DDict _ => Some (w, s1, [], Some "TypeError")
      | DInt target =>
          if depth <? target then
            if min_indegree_to_pull <=? in_degree (citation_graph s1) reference_eid then
              match rec w s1 reference_eid (depth + 1) false default_flags_pull_abstract with
              | Some (w', s', out, exn) =>
                  Some (w', s', EvCall reference_eid (depth + 1) :: out, exn)
              | None => None
              end
            else Some (w, s1, [], None)
          else Some (w, s1, [], None)
      end
  end.

(** The loop itself: an exception ends it. *)
Fixpoint for_references
    (rec : World -> Session -> string -> Z -> bool -> nat -> option Outcome)
    (abstract : Abstract) (depth : Z)
    (refs : list Reference) (w : World) (s : Session) : option Outcome :=
  match refs with
  | [] => Some (w, s, [], None)
  | reference :: rest =>
      match pull_reference rec abstract depth reference w s with
      | Some (w1, s1, out1, None) =>
          match for_references rec abstract depth rest w1 s1 with
          | Some (w2, s2, out2, exn) => Some (w2, s2, out1 ++ out2, exn)
          | None => None
          end
      | Some (w1, s1, out1, Some e) => Some (w1, s1, out1, Some e)
      | None => None
      end
  end.

(** [pull_references(abstract)], the closure of [pull_abstract]. *)
Definition pull_references
    (rec : World -> Session -> string -> Z -> bool -> nat -> option Outcome)
    (depth : Z) (abstract : Abstract) (w : World) (s : Session) : option Outcome :=
  match references abstract with
  | Some refs => for_references rec abstract depth refs w s
  | None => Some (w, s, [], None)
  end.

(** The [for author in abstract.authors] loop; networkx refuses [None]
    as a node with a [ValueError]. *)
Fixpoint author_loop (e : string) (l : list Author) (g : DiGraph)
    : DiGraph * option string :=
  match l with
  | [] => (g, None)
  | author :: rest =>
      match auid author with
      | None => (g, Some "ValueError")
      | Some a =>
          author_loop e rest
            (add_edge e a
               (add_node a
                  [("bipartite", AVal (VInt 1));
                   ("name", AVal (VStr (indexed_name author)))]
                  g))
      end
  end.

(** The authorship part of a successful pull. *)
Definition add_authors (abstract : Abstract) (g : DiGraph) : DiGraph * option string :=
  match authors abstract with
  | Some l =>
      author_loop (eid abstract) l
        (add_node (eid abstract) [("bipartite", AVal (VInt 0))] g)
  | None => (g, None)
  end.

(** What the [try] block does between the retrieval and the call of
    [pull_references], for a retrieval that yielded [abstract]: the
    quota fields, the append, then the year (slicing [None] is a
    [TypeError]), the node, the printout and the authors.  The last
    component is the exception that interrupted it, if any. *)
Definition record_pull (abstract : Abstract) (report : bool) (flags : nat)
    (w : World) (s : Session) : World * Session * list Event * option string :=
  let s1 := set_quota (key_remaining_quota abstract) (key_reset_time abstract) s in
  let w1 := append_document abstract w s1 in
  match coverDate abstract with
  | None => (w1, s1, [], Some "TypeError")
  | Some date =>
      let w2 := flags_update_year flags (String.substring 0 4 date) w1 in
      let s2 := set_citation_graph
                  (add_node (eid abstract) [("attr", ARef flags)] (citation_graph s1)) s1 in
      let shown := if report then [EvPrintAbstract abstract] else [] in
      let '(g, exn) := add_authors abstract (authorship_graph s2) in
      (w2, set_authorship_graph g s2, shown, exn)
  end.

(** The [except Exception] branch of [pull_abstract]. *)
Definition failed_to_pull (x : string) (w : World) (s : Session) (out : list Event)
    : Outcome :=
  (w, set_fails (fails s ++ [x]) s,
   out ++ [EvPrint (String.append x " failed to pull"); EvTraceback], None).

(** Truth value of what is passed as [target_depth]: 0 and the empty
    dict are falsy. *)
Definition truthy (w : World) (d : depthval) : bool :=
  match d with
  | DInt z => negb (z =? 0)
  | DDict l => negb (length (dict_at w l) =? 0)%nat
  end.

(** How many nested calls can still follow at [depth]. *)
Definition depth_left (d : depthval) (depth : Z) : nat :=
  match d with
  | DInt target => Z.to_nat (target - depth)
  | DDict _ => 0%nat
  end.

(** The graph after the edges to all of [refs] have been added, for
    references whose ids are strings. *)
Definition with_reference_edges (u : string) (refs : list Reference) (g : DiGraph)
    : DiGraph :=
  fold_left
    (fun g r => match ref_id r with
                | Some thisid => add_edge u (_eid_from_id thisid) g
                | None => g
                end) refs g.

(** No nested call can follow at [depth]: the target depth is a number
    that [depth] has reached, or it is no number at all. *)
Definition depth_reached (s : Session) (depth : Z) : Prop :=
  forall target, target_depth s = DInt target -> target <= depth.

Section Engine.

(** The retrieval service: the answer to the [n]-th request, for an id. *)
Variable remote : nat -> string -> FetchResult.
(** The same for the publications of an author. *)
Variable remote_author : nat -> string -> AuthorResult.

(** [pull_abstract(eid, depth, report, flags)].  The recursion is the
    source's; [fuel] bounds its depth and running out yields [None].
    Whatever is raised inside the [try] ends in the [except] branch;
    on the other branch [pull_references] runs outside any [try]. *)
Fixpoint pull_abstract_fuel (fuel : nat) (w : World) (s : Session)
    (x : string) (depth : Z) (report : bool) (flags : nat) : option Outcome :=
  match fuel with
  | O => None
  | S fuel' =>
      match is_repeat (docs w s) x with
      | (false, _) =>
          match remote (requests w) x with
          | FetchOk abstract =>
              match record_pull abstract report flags (count_request w) s with
              | (w1, s1, shown, Some e) =>
                  Some (failed_to_pull x w1 s1 (EvRetrieve x :: shown))
              | (w1, s1, shown, None) =>
                  match pull_references (pull_abstract_fuel fuel') depth abstract w1 s1 with
                  | Some (w2, s2, out, Some e) =>
                      Some (failed_to_pull x w2 s2 (EvRetrieve x :: shown ++ out))
                  | Some (w2, s2, out, None) =>
                      Some (w2, s2, EvRetrieve x :: shown ++ out, None)
                  | None => None
                  end
              end
          | FetchNone => Some (count_request w, s, [EvRetrieve x], None)
          | FetchRaise => Some (failed_to_pull x (count_request w) s [EvRetrieve x])
          end
      | (true, Some match_) =>
          pull_references (pull_abstract_fuel fuel') depth match_ w s
      | (true, None) => Some (w, s, [], None)   (* [is_repeat] never answers this *)
      end
  end.

(** Each nested call has a depth one larger and is made only below an
    integer [target_depth], so this much fuel is enough. *)
Definition pull_abstract (w : World) (s : Session)
    (x : string) (depth : Z) (report : bool) (flags : nat) : option Outcome :=
  pull_abstract_fuel (S (depth_left (target_depth s) depth)) w s x depth report flags.

(** [add_document(eid, report, flags)] *)
Definition add_document (w : World) (s : Session)
    (x : string) (report : bool) (flags : nat) : option Outcome :=
  pull_abstract w s x 0 report flags.

(** The loop of [add_documents]; [place] counts from 1.  An exception
    of [add_document] ends the loop before the progress line. *)
Fixpoint add_documents_loop (total : nat) (place : nat) (eidlist : list string)
    (flags : nat) (w : World) (s : Session) : option Outcome :=
  match eidlist with
  | [] => Some (w, s, [], None)
  | x :: rest =>
      match add_document w s x false flags with
      | Some (w1, s1, out1, None) =>
          match add_documents_loop total (S place) rest flags w1 s1 with
          | Some (w2, s2, out2, exn) =>
              Some (w2, s2, out1 ++ EvProgress place total :: out2, exn)
          | None => None
          end
      | Some (w1, s1, out1, Some e) => Some (w1, s1, out1, Some e)
      | None => None
      end
  end.

(** [add_documents(eidlist, target_depth, flags)]: [inl x] is a bare
    string, [inr l] a list; [None] is the default [False].  A falsy
    argument keeps the depth the session has. *)
Definition add_documents (w : World) (s : Session)
    (eidlist : string + list string) (target_depth_arg : option depthval)
    (flags : nat) : option Outcome :=
  let eidlist := match eidlist with inl x => [x] | inr l => l end in
  let s1 := set_target_depth
              (match target_depth_arg with
               | Some d => if truthy w d then d else target_depth s
               | None => target_depth s
               end) s in
  add_documents_loop (length eidlist) 1 eidlist flags w s1.

(** [pull_author(auid, flags)].  The call [self.add_documents(newdocs,
    flags)] binds [flags] to the parameter [target_depth]; the documents
    are pulled with the default [flags] of [add_documents]. *)
Definition pull_author (w : World) (s : Session) (a : string) (flags : nat)
    : option Outcome :=
  let failed (w' : World) (s' : Session) (out : list Event) : Outcome :=
    (w', s', out ++ [EvPrint (String.append a " failed to pull"); EvTraceback], None) in
  match remote_author (requests w) a with
  | AuthorRaise => Some (failed (count_request w) s [EvRetrieveAuthor a])
  | AuthorNone => Some (count_request w, s, [EvRetrieveAuthor a], None)
  | AuthorOk None => Some (count_request w, s, [EvRetrieveAuthor a], None)
  | AuthorOk (Some newdocs) =>
      match add_documents (count_request w) s (inr newdocs) (Some (DDict flags))
              default_flags_add_documents with
      | Some (w1, s1, out, Some e) => Some (failed w1 s1 (EvRetrieveAuthor a :: out))
      | Some (w1, s1, out, None) => Some (w1, s1, EvRetrieveAuthor a :: out, None)
      | None => None
      end
  end.

(** The loop of [pull_authors]; [pull_author] lets no exception out. *)
Fixpoint pull_authors_loop (total : nat) (place : nat) (auidlist : list string)
    (flags : nat) (w : World) (s : Session) : option Outcome :=
  match auidlist with
  | [] => Some (w, s, [], None)
  | a :: rest =>
      match pull_author w s a flags with
      | Some (w1, s1, out1, None) =>
          match pull_authors_loop total (S place) rest flags w1 s1 with
          | Some (w2, s2, out2, exn) =>
              Some (w2, s2, out1 ++ EvProgress place total :: out2, exn)
          | None => None
          end
      | Some (w1, s1, out1, Some e) => Some (w1, s1, out1, Some e)
      | None => None
      end
  end.

(** [pull_authors(auidlist, flags)] *)
Definition pull_authors (w : World) (s : Session)
    (auidlist : string + list string) (flags : nat) : option Outcome :=
  let auidlist := match auidlist with inl a => [a] | inr l => l end in
  pull_authors_loop (length auidlist) 1 auidlist flags w s.

(** *** The engine as a sequence of elementary steps *)

(** The ways in which the engine changes store and session: an edge to
    a reference, the recording of a retrieved document (as far as it
    gets), a request that is counted, an id appended to [fails]. *)
Inductive engine_step : World * Session -> World * Session -> Prop :=
  | step_edge w s u v :
      engine_step (w, s)
        (w, set_citation_graph (add_edge u v (citation_graph s)) s)
  | step_record w s x abstract report fl w1 s1 shown exn :
      ~ In x (map eid (docs w s)) ->
      remote (requests w) x = FetchOk abstract ->
      record_pull abstract report fl (count_request w) s = (w1, s1, shown, exn) ->
      engine_step (w, s) (w1, s1)
  | step_request w s :
      engine_step (w, s) (count_request w, s)
  | step_fail w s x :
      engine_step (w, s) (w, set_fails (fails s ++ [x]) s).

Definition steps : World * Session -> World * Session -> Prop := rtc engine_step.

Definition Rec : Type :=
  World -> Session -> string -> Z -> bool -> nat -> option Outcome.

(** A callee whose every result is reached by elementary steps. *)
Definition rec_steps (rec : Rec) : Prop :=
  forall w s x d r fl w' s' out exn,
    rec w s x d r fl = Some (w', s', out, exn) -> steps (w, s) (w', s').

(** [pull_abstract(x, depth, report, flags)], called in [(w, s)], gets
    to [pull_references(abstract)]: either [abstract] is the stored
    match, or it was retrieved and recorded without an exception.
    [(w0, s0)] is the state in which [pull_references] starts and [pre]
    the output up to there. *)
Definition record_in_hand (w : World) (s : Session) (x : string)
    (report : bool) (flags : nat)
    (abstract : Abstract) (w0 : World) (s0 : Session) (pre : list Event) : Prop :=
  (is_repeat (docs w s) x = (true, Some abstract)
   /\ w0 = w /\ s0 = s /\ pre = [])
  \/ (fst (is_repeat (docs w s) x) = false
      /\ remote (requests w) x = FetchOk abstract
      /\ exists shown,
           record_pull abstract report flags (count_request w) s
           = (w0, s0, shown, None)
           /\ pre = EvRetrieve x :: shown).

(** [rec'] answers whatever [rec] answers. *)
Definition rec_below (rec rec' : Rec) : Prop :=
  forall w s x d r fl o, rec w s x d r fl = Some o -> rec' w s x d r fl = Some o.

(** Ids already in the store are not requested again. *)
Definition rec_fresh (rec : Rec) : Prop :=
  forall w s y d r fl w' s' out exn x,
    In x (map eid (docs w s)) ->
    rec w s y d r fl = Some (w', s', out, exn) ->
    ~ In (EvRetrieve x) out.

(** The service answers a request for an id with the record of that
    id (the contract of [fetch_document(canonical_id)]). *)
Definition remote_faithful : Prop :=
  forall n x a, remote n x = FetchOk a -> eid a = x.

(** *** Sequences of calls made on one session *)

Inductive Call : Type :=
  | CallPullAbstract (x : string) (depth : Z) (report : bool) (flags : nat)
  | CallAddDocument (x : string) (report : bool) (flags : nat)
  | CallAddDocuments (eidlist : string + list string)
                     (target_depth_arg : option depthval) (flags : nat)
  | CallPullAuthor (a : string) (flags : nat)
  | CallPullAuthors (auidlist : string + list string) (flags : nat).

Definition run_call (w : World) (s : Session) (c : Call) : option Outcome :=
  match c with
  | CallPullAbstract x depth report flags => pull_abstract w s x depth report flags
  | CallAddDocument x report flags => add_document w s x report flags
  | CallAddDocuments eidlist td flags => add_documents w s eidlist td flags
  | CallPullAuthor a flags => pull_author w s a flags
  | CallPullAuthors auidlist flags => pull_authors w s auidlist flags
  end.

(** The calls are made one after the other, as at a prompt: a call that
    raises leaves its mark in the output and the next call is made on
    the state it left. *)
Fixpoint run_calls (cs : list Call) (w : World) (s : Session)
    : option (World * Session * list Event) :=
  match cs with
  | [] => Some (w, s, [])
  | c :: rest =>
      match run_call w s c with
      | Some (w1, s1, out1, exn) =>
          match run_calls rest w1 s1 with
          | Some (w2, s2, out2) =>
              Some (w2, s2,
                    out1 ++ match exn with Some e => [EvUncaught e] | None => [] end ++ out2)
          | None => None
          end
      | None => None
      end
  end.

End Engine.
(** ** Checkpoints *)

Definition CHECKPOINT_FILENAME_BASE : string := "CiteNetXCheckpoints".

(** The name of the file inside [CHECKPOINT_DIR]. *)
Definition checkpoint_filename (key : string) : string :=
  String.append CHECKPOINT_FILENAME_BASE (String.append key ".pickle").

Definition shift_attr (k : nat) (a : attrval) : attrval :=
  match a with
  | AVal v => AVal v
  | ARef l => ARef (k + l)
  end.

(** A graph whose dict references are moved up by [k]. *)
Definition shift_graph (k : nat) (g : DiGraph) : DiGraph :=
  mkDiGraph
    (map (fun nd => (fst nd, map (fun kv => (fst kv, shift_attr k (snd kv))) (snd nd)))
         (nodes g))
    (edges g).

Section Checkpoint.

(** [datetime.now().strftime("%Y%m%d.%H%M")] as a function of the clock. *)
Variable strftime : Z -> string.
(** Whether the file system lets [open(filepath, 'wb')] create a file of
    this name in the checkpoint directory.  (A name with a path
    separator, for one, points into a directory that is not there.) *)
Variable openable : string -> bool.

(** [save_checkpoint(key)]: [pickle.dump] writes the list behind
    [self.documents], the two graphs and every dict they can reach.
    When [open] raises, nothing is written and the [OSError] leaves the
    call. *)
Definition save_checkpoint (w : World) (s : Session) (key : option string)
    : World * option string :=
  let currentdatetime := strftime (now w) in
  let key := match key with Some k => k | None => currentdatetime end in
  let save_content :=
    mkBundle (Some (docs w s)) (Some (authorship_graph s))
             (Some (citation_graph s)) (dicts w) in
  let filename := checkpoint_filename key in
  if openable filename then
    (mkWorld (doc_lists w) (dicts w)
             (<[filename := PDict save_content]> (files w))
             (requests w) (now w), None)
  else (w, Some "OSError").

(** [pickle.load] of a dict builds new objects: the dicts of the
    bundle are placed after the ones the store has. *)
Definition unpickle_dicts (b : Bundle) (w : World) : World :=
  mkWorld (doc_lists w) (dicts w ++ b_dicts b) (files w) (requests w) (now w).

Definition load_failed (key : string) : list Event :=
  [EvPrint (String.append "Failed to load checkpoint with key " key); EvTraceback].

(** [load_checkpoint(key)].  The three assignments are made one after
    the other inside the [try]; a missing entry raises [KeyError] at
    its own line. *)
Definition load_checkpoint (w : World) (s : Session) (key : option string)
    : World * Session * list Event :=
  match key with
  | None => (w, s, [EvPrint "key is needed to load checkpoint!"])
  | Some key =>
      let filename := checkpoint_filename key in
      match files w !! filename with
      | None => (w, s, load_failed key)            (* open raises *)
      | Some PCorrupt => (w, s, load_failed key)   (* pickle.load raises *)
      | Some PNotDict => (w, s, load_failed key)   (* content['documents'] raises *)
      | Some (PDict content) =>
          let k := length (dicts w) in
          let w0 := unpickle_dicts content w in
          match b_documents content with
          | None => (w0, s, load_failed key)
          | Some d =>
              let '(w2, l) := new_list d w0 in
              let s1 := mkSession l (fails s) (authorship_graph s) (citation_graph s)
                                  (target_depth s) (last_quota s) (reset_time s) in
              match b_authorship content with
              | None => (w2, s1, load_failed key)
              | Some ga =>
                  let s2 := set_authorship_graph (shift_graph k ga) s1 in
                  match b_citations content with
                  | None => (w2, s2, load_failed key)
                  | Some gc =>
                      (w2, set_citation_graph (shift_graph k gc) s2, [])
                  end
              end
          end
      end
  end.

End Checkpoint.

(** A graph with every dict reference replaced by what it points to;
    this is what two sessions are compared by. *)
Inductive attrview : Type :=
  | WVal (v : pyval)
  | WDict (d : pydict pyval).

Definition view_attr (w : World) (a : attrval) : attrview :=
  match a with
  | AVal v => WVal v
  | ARef l => WDict (dict_at w l)
  end.

Definition view_nodes (w : World) (g : DiGraph) : pydict (pydict attrview) :=
  map (fun nd => (fst nd, map (fun kv => (fst kv, view_attr w (snd kv))) (snd nd)))
      (nodes g).

(** ** Python results that may be exceptions *)

Inductive result (A : Type) : Type :=
  | Returns (a : A)
  | Raises (exn : string).
Arguments Returns {A} a.
Arguments Raises {A} exn.

(** ** The quota summary *)

Section Quotas.

(** [datetime.fromisoformat]: [None] is a [ValueError]; otherwise the
    point in time and whether the text carried a UTC offset (an
    offset-aware datetime). *)
Variable fromisoformat : string -> option (Z * bool).
(** [str] of a [timedelta]. *)
Variable timedelta_str : Z -> string.

(** [quotas()]; [print(a, '\n', b)] separates its arguments by blanks.
    [datetime.now()] is naive, and subtracting it from an offset-aware
    datetime is a [TypeError]. *)
Definition quotas (w : World) (s : Session) : result (list Event) :=
  let reset_string := "Reset Time Unknown" in
  let quota_string := "Pulls Remaining Unknown" in
  let after_reset (reset_string : string) :=
    let quota_string :=
      match last_quota s with
      | Some q => String.append "remaining pulls this key: " (String.append q ".")
      | None => quota_string
      end in
    Returns [EvPrint (String.append quota_string
                        (String.append " " (String.append (String (Ascii.ascii_of_nat 10) "")
                           (String.append " " reset_string))))] in
  match reset_time s with
  | Some r =>
      let start := now w in
      match fromisoformat r with
      | Some (end_, false) =>
          let diff := end_ - start in
          after_reset
            (String.append "key resets on "
               (String.append r (String.append " (" (String.append (timedelta_str diff) ")"))))
      | Some (end_, true) => Raises "TypeError"
      | None => Raises "ValueError"
      end
  | None => after_reset reset_string
  end.

End Quotas.

(** ** Graph queries *)

(** [get_nodes_with_attribute(graph, attribute, value)], for a scalar
    [value]; a dict stored under [attribute] never equals a scalar. *)
Definition get_nodes_with_attribute (graph : DiGraph) (attribute : string)
    (value : pyval) : list string :=
  fold_left
    (fun selected nd =>
       match dict_get attribute (snd nd) with
       | Some (AVal v) => if pyval_eqb v value then selected ++ [fst nd] else selected
       | Some (ARef _) => selected
       | None => selected
       end)
    (nodes graph) [].

Definition mem_str (x : string) (l : list string) : bool :=
  existsb (String.eqb x) l.

Fixpoint dedup_str (l : list string) : list string :=
  match l with
  | [] => []
  | x :: r => if mem_str x r then dedup_str r else x :: dedup_str r
  end.

(** Neighbours in [G.to_undirected(as_view=True)]. *)
Definition neighbors (g : DiGraph) (u : string) : list string :=
  filter (fun v => has_edge g u v || has_edge g v u) (map fst (nodes g)).

(** Breadth-first levels: every node of [frontier] is at distance [d]. *)
Fixpoint bfs_levels (fuel : nat) (g : DiGraph) (visited frontier : list string)
    (d : nat) : pydict nat :=
  match fuel with
  | O => []
  | S fuel' =>
      match frontier with
      | [] => []
      | _ =>
          let next :=
            dedup_str (filter (fun v => negb (mem_str v visited))
                              (flat_map (neighbors g) frontier)) in
          map (fun v => (v, d)) frontier
            ++ bfs_levels fuel' g (visited ++ next) next (S d)
      end
  end.

(** [nx.single_source_shortest_path_length(G, source)] on the
    undirected view: the distance of every node reachable from [source]. *)
Definition single_source_shortest_path_length (g : DiGraph) (source : string)
    : pydict nat :=
  bfs_levels (S (length (nodes g))) g [source] [source] 0.

(** [nx.shortest_path_length(G, source, target)] on the undirected view. *)
Definition shortest_path_length (g : DiGraph) (source target : string) : result nat :=
  if negb (has_node g source) then Raises "NodeNotFound"
  else if negb (has_node g target) then Raises "NodeNotFound"
  else match dict_get target (single_source_shortest_path_length g source) with
       | Some d => Returns d
       | None => Raises "NetworkXNoPath"
       end.

Definition list_max (l : list nat) : nat := fold_right Nat.max 0%nat l.

(** [nx.eccentricity(G)[n]] on the undirected view: it raises when some
    node is out of reach of [n]. *)
Definition eccentricity (g : DiGraph) (n : string) : result nat :=
  let lengths := single_source_shortest_path_length g n in
  if negb (length lengths =? length (nodes g))%nat then Raises "NetworkXError"
  else Returns (list_max (map snd lengths)).

Fixpoint eccentricities (g : DiGraph) (ns : list string) : result (list nat) :=
  match ns with
  | [] => Returns []
  | n :: rest =>
      match eccentricity g n with
      | Returns e =>
          match eccentricities g rest with
          | Returns es => Returns (e :: es)
          | Raises x => Raises x
          end
      | Raises x => Raises x
      end
  end.

(** [nx.diameter(G)] on the undirected view; [max] of no value is a
    [ValueError]. *)
Definition diameter (g : DiGraph) : result nat :=
  match eccentricities g (map fst (nodes g)) with
  | Returns [] => Raises "ValueError"
  | Returns es => Returns (list_max es)
  | Raises x => Raises x
  end.

(** The [for initial_node_id in initial_node_ids] loop. *)
Fixpoint min_over_initial (g : DiGraph) (node_id : string)
    (initial_node_ids : list string) (distance : nat) : result nat :=
  match initial_node_ids with
  | [] => Returns distance
  | initial_node_id :: rest =>
      match shortest_path_length g initial_node_id node_id with
      | Returns this_distance =>
          min_over_initial g node_id rest (Nat.min distance this_distance)
      | Raises x => Raises x
      end
  end.

(** [distance_from_initial_sample(node_id)] *)
Definition distance_from_initial_sample (s : Session) (node_id : string) : result nat :=
  let initial_node_ids :=
    get_nodes_with_attribute (citation_graph s) "initial" (VBool true) in
  match diameter (citation_graph s) with
  | Returns distance =>
      min_over_initial (citation_graph s) node_id initial_node_ids distance
  | Raises x => Raises x
  end.

(** What networkx keeps of any graph: every node and every edge is
    held once, and the endpoints of an edge are nodes. *)
Definition graph_wf (g : DiGraph) : Prop :=
  List.NoDup (map fst (nodes g))
  /\ List.NoDup (edges g)
  /\ forall u v, In (u, v) (edges g) -> has_node g u = true /\ has_node g v = true.

(** ** Small accessors *)

(** [has_documents()]: the answer and what is printed. *)
Definition has_documents (w : World) (s : Session) : bool * list Event :=
  if (length (docs w s) =? 0)%nat
  then (false, [EvPrint "Do documents added."])
  else (true, []).

(** The quota fields as a pair. *)
Definition quota_fields (s : Session) : option string * option string :=
  (last_quota s, reset_time s).


(** ** Concrete records, services and graphs used in examples *)

Definition ex_abstract_A : Abstract :=
  mkAbstract "2-s2.0-A" (Some "2020-05-01")
    (Some [mkReference (Some "R1"); mkReference (Some "R2")])
    (Some [mkAuthor (Some "7") "Doe J."])
    (Some "100") (Some "2026-01-01 00:00:00").

Definition ex_abstract_B : Abstract :=
  mkAbstract "2-s2.0-B" (Some "1999-11-30")
    (Some [mkReference (Some "R1")])
    None
    (Some "99") (Some "2026-01-01 00:00:00").

(** A record with the id of [ex_abstract_A] and another date. *)
Definition ex_abstract_A' : Abstract :=
  mkAbstract "2-s2.0-A" (Some "2021-01-01") None None None None.

(** A service that knows two documents and fails for every other id. *)
Definition ex_remote (n : nat) (x : string) : FetchResult :=
  if String.eqb x "2-s2.0-A" then FetchOk ex_abstract_A
  else if String.eqb x "2-s2.0-B" then FetchOk ex_abstract_B
  else FetchRaise.

(** The same service, which also finds document A by its DOI. *)
Definition ex_remote_doi (n : nat) (x : string) : FetchResult :=
  if String.eqb x "10.1000/a" then FetchOk ex_abstract_A else ex_remote n x.

(** An author service: author 7 wrote document A. *)
Definition ex_remote_author (n : nat) (a : string) : AuthorResult :=
  if String.eqb a "7" then AuthorOk (Some ["2-s2.0-A"]) else AuthorRaise.

(** A session at target depth 1 whose graph already has two citations
    of [2-s2.0-R1]. *)
Definition ex_session_two_citations : Session :=
  set_target_depth (DInt 1)
    (set_citation_graph
       (add_edge "2-s2.0-Q" "2-s2.0-R1" (add_edge "2-s2.0-P" "2-s2.0-R1" empty_graph))
       (init None)).

(** A checkpoint whose dict has the entry ['documents'] only. *)
Definition ex_documents_only : Pickle :=
  PDict (mkBundle (Some [ex_abstract_A]) None None []).

Definition ex_world_documents_only : World :=
  fresh_world {[ checkpoint_filename "k" := ex_documents_only ]} 0.

(** Two nodes without an edge; [A] carries [initial = True]. *)
Definition ex_graph_two_components : DiGraph :=
  mkDiGraph [("A", [("initial", AVal (VBool true))]); ("B", [])] [].

(** [B] cites [A] and [C]; [A] carries [initial = True]. *)
Definition ex_graph_path : DiGraph :=
  mkDiGraph [("A", [("initial", AVal (VBool true))]); ("B", []); ("C", [])]
            [("B", "A"); ("B", "C")].

(** A parser that rejects the empty string, as [fromisoformat] does,
    and reads a trailing [Z]-less text as a naive datetime. *)
Definition ex_fromisoformat (s : string) : option (Z * bool) :=
  if String.eqb s "" then None else Some (3600, false).

Definition ex_timedelta_str (d : Z) : string := "1:00:00".

Definition ex_strftime (t : Z) : string := "20261103.1200".

(** A directory without subdirectories: a name with a path separator
    cannot be opened. *)
Definition ex_openable (name : string) : bool :=
  match String.index 0 "/" name with
  | Some _ => false
  | None => true
  end.

(** The store and the session after a first session has pulled
    [2-s2.0-A]. *)
Definition ex_after_pull_A : World * Session :=
  match add_document ex_remote (fresh_world ∅ 0) (init None) "2-s2.0-A" false
          default_flags_add_document with
  | Some (w, s, _, _) => (w, s)
  | None => (fresh_world ∅ 0, init None)
  end.

(** A pull that succeeds, one that fails, and a batch at target depth 1
    that meets a stored document again. *)
Definition ex_calls : list Call :=
  [CallAddDocument "2-s2.0-A" false default_flags_add_document;
   CallAddDocument "2-s2.0-Z" false default_flags_add_document;
   CallAddDocuments (inr ["2-s2.0-B"; "2-s2.0-A"]) (Some (DInt 1))
                    default_flags_add_documents].

(** The store, the dict [{'initial': True}] and the session after
    [pull_author('7', flags)] on a new session. *)
Definition ex_after_pull_author : option Outcome :=
  let '(w0, fl) := new_dict [("initial", VBool true)] (fresh_world ∅ 0) in
  pull_author ex_remote ex_remote_author w0 (init None) "7" fl.

(** A record whose second reference has no id, as Scopus hands out for
    references it has not indexed. *)
Definition ex_abstract_C : Abstract :=
  mkAbstract "2-s2.0-C" (Some "2015-03-02")
    (Some [mkReference (Some "R1"); mkReference None; mkReference (Some "R2")])
    None
    (Some "98") (Some "2026-01-01 00:00:00").

(** The service of [ex_remote], which knows document C as well. *)
Definition ex_remote_gap (n : nat) (x : string) : FetchResult :=
  if String.eqb x "2-s2.0-C" then FetchOk ex_abstract_C else ex_remote n x.

(** A parser that reads a text ending in [Z] as an offset-aware
    datetime. *)
Definition ex_fromisoformat_utc (s : string) : option (Z * bool) :=
  if String.eqb s "" then None else Some (3600, true).

(** Splits [record_pull abstract report fl w s = (w1, s1, shown, exn)]
    into the case without a cover date and the case with one. *)
Ltac record_pull_cases H :=
  unfold record_pull in H; cbv zeta in H;
  let date := fresh "date" in
  let g := fresh "g" in
  let e := fresh "e" in
  let Ha := fresh "Hauthors" in
  match type of H with
  | context [coverDate ?a] =>
      destruct (coverDate a) as [date|] eqn:?;
      [ match type of H with
        | context [add_authors ?a' ?g0] =>
            destruct (add_authors a' g0) as [g e] eqn:Ha
        end
      | ];
      inversion H; subst; clear H
  end.

(** * Properties *)

(** ** The record store *)

Lemma is_repeat_snoc (l : list Abstract) (a : Abstract) (x : string) :
  is_repeat (l ++ [a]) x
  = if String.eqb (eid a) x then (true, Some a) else is_repeat l x.
Proof. unfold is_repeat. rewrite fold_left_app. reflexivity. Qed.

(** [is_repeat] answers [False, None] exactly when no record has the id,
    and otherwise hands back a record of the list that has it. *)
Lemma is_repeat_spec (l : list Abstract) (x : string) :
  (is_repeat l x = (false, None) /\ ~ In x (map eid l))
  \/ (exists m, is_repeat l x = (true, Some m) /\ In m l /\ eid m = x).
Proof.
  induction l as [|a l IH] using rev_ind.
  - left. split; [reflexivity | intros []].
  - rewrite is_repeat_snoc. destruct (String.eqb_spec (eid a) x) as [E|N].
    + right. exists a. rewrite in_app_iff. simpl. auto.
    + destruct IH as [[H1 H2] | (m & H1 & H2 & H3)].
      * left. split; [exact H1|]. rewrite map_app, in_app_iff. simpl. tauto.
      * right. exists m. rewrite in_app_iff. auto.
Qed.

Lemma is_repeat_false (l : list Abstract) (x : string) (o : option Abstract) :
  is_repeat l x = (false, o) -> ~ In x (map eid l).
Proof.
  destruct (is_repeat_spec l x) as [[_ H] | (m & H & _)]; [auto | congruence].
Qed.

Lemma is_repeat_true (l : list Abstract) (x : string) (m : Abstract) :
  is_repeat l x = (true, Some m) -> In m l /\ eid m = x.
Proof.
  destruct (is_repeat_spec l x) as [[H _] | (m' & H & H1 & H2)]; [congruence|].
  intros E. rewrite H in E. inversion E; subst. auto.
Qed.

Lemma is_repeat_never_true_none (l : list Abstract) (x : string) :
  is_repeat l x <> (true, None).
Proof.
  destruct (is_repeat_spec l x) as [[H _] | (m' & H & _)]; congruence.
Qed.

Lemma is_repeat_in (l : list Abstract) (x : string) :
  In x (map eid l) -> exists m, is_repeat l x = (true, Some m).
Proof.
  destruct (is_repeat_spec l x) as [[_ H] | (m & H & _)]; [tauto | eauto].
Qed.

(** [append] through a dangling reference cannot happen in Python; the
    store then stays as it is, so both cases are spelled out. *)
Lemma docs_append_document (a : Abstract) (w : World) (s : Session) :
  docs (append_document a w s) s = docs w s ++ [a]
  \/ (docs (append_document a w s) s = [] /\ docs w s = []).
Proof.
  unfold docs, append_document. simpl.
  destruct (decide (documents s < length (doc_lists w))%nat) as [Hlt|Hge].
  - left. rewrite list_lookup_insert_eq by assumption. reflexivity.
  - right. rewrite list_insert_ge by lia.
    rewrite (lookup_ge_None_2 (doc_lists w) (documents s)) by lia. auto.
Qed.

(** ** Dicts and graphs *)

Lemma dict_has_in {V} (n : string) (d : pydict V) :
  In n (map fst d) -> dict_has n d = true.
Proof.
  unfold dict_has. induction d as [|[k v] d IH]; simpl; [intros []|].
  intros [->|H]; [rewrite String.eqb_refl; reflexivity|].
  destruct (String.eqb k n); [reflexivity | exact (IH H)].
Qed.

Lemma dict_get_app {V} (k : string) (d e : pydict V) :
  dict_get k (d ++ e)
  = match dict_get k d with Some v => Some v | None => dict_get k e end.
Proof.
  induction d as [|[k' v] d IH]; simpl; [reflexivity|].
  destruct (String.eqb k' k); [reflexivity | exact IH].
Qed.

Lemma dict_get_set {V} (k k' : string) (v : V) (d : pydict V) :
  dict_get k (dict_set k' v d)
  = if String.eqb k' k then Some v else dict_get k d.
Proof.
  induction d as [|[k0 v0] d IH]; simpl.
  - reflexivity.
  - destruct (String.eqb_spec k0 k') as [E|N]; simpl.
    + subst k0. destruct (String.eqb k' k); reflexivity.
    + rewrite IH. destruct (String.eqb_spec k0 k) as [E0|N0]; [|reflexivity].
      subst k0. destruct (String.eqb_spec k' k); congruence.
Qed.

Lemma has_node_add_edge_mono (g : DiGraph) (u v n : string) :
  has_node g n = true -> has_node (add_edge u v g) n = true.
Proof.
  intros H.
  assert (A : forall g' k, has_node g' n = true ->
                has_node (if has_node g' k then g'
                          else mkDiGraph (nodes g' ++ [(k, [])]) (edges g')) n = true).
  { intros g' k H'. destruct (has_node g' k); [exact H'|].
    unfold has_node, dict_has in *. simpl. rewrite dict_get_app.
    destruct (dict_get n (nodes g')); [reflexivity | discriminate]. }
  unfold add_edge.
  pose proof (A _ v (A g u H)) as H2.
  destruct (has_edge _ u v); exact H2.
Qed.

Lemma has_node_add_edge_target (g : DiGraph) (u v : string) :
  has_node (add_edge u v g) v = true.
Proof.
  unfold add_edge.
  set (g1 := if has_node g u then g else _).
  destruct (has_node g1 v) eqn:Hv.
  - destruct (has_edge g1 u v); exact Hv.
  - assert (H : dict_has v (nodes g1 ++ [(v, [])]) = true).
    { unfold dict_has. rewrite dict_get_app. destruct (dict_get v (nodes g1)); [reflexivity|].
      simpl. rewrite String.eqb_refl. reflexivity. }
    destruct (has_edge _ u v); exact H.
Qed.

Lemma has_node_add_edge_source (g : DiGraph) (u v : string) :
  has_node (add_edge u v g) u = true.
Proof.
  assert (H1 : has_node (if has_node g u then g
                         else mkDiGraph (nodes g ++ [(u, [])]) (edges g)) u = true).
  { destruct (has_node g u) eqn:Hu; [exact Hu|].
    unfold has_node, dict_has. simpl. rewrite dict_get_app.
    destruct (dict_get u (nodes g)); [reflexivity|].
    simpl. rewrite String.eqb_refl. reflexivity. }
  unfold add_edge.
  set (g1 := if has_node g u then g else _) in *.
  assert (H2 : has_node (if has_node g1 v then g1
                         else mkDiGraph (nodes g1 ++ [(v, [])]) (edges g1)) u = true).
  { destruct (has_node g1 v); [exact H1|].
    unfold has_node, dict_has in *. simpl. rewrite dict_get_app.
    destruct (dict_get u (nodes g1)); [reflexivity | discriminate]. }
  set (g2 := if has_node g1 v then g1 else _) in *.
  destruct (has_edge g2 u v); exact H2.
Qed.

Lemma edge_eqb_refl (e : string * string) : edge_eqb e e = true.
Proof. unfold edge_eqb. rewrite !String.eqb_refl. reflexivity. Qed.

Lemma edges_add_edge (g : DiGraph) (u v : string) :
  edges (add_edge u v g)
  = if has_edge g u v then edges g else edges g ++ [(u, v)].
Proof.
  unfold add_edge.
  assert (E : forall g', edges g' = edges g -> has_edge g' u v = has_edge g u v).
  { intros g' H. unfold has_edge. rewrite H. reflexivity. }
  set (g1 := if has_node g u then g else _).
  assert (H1 : edges g1 = edges g) by (subst g1; destruct (has_node g u); reflexivity).
  set (g2 := if has_node g1 v then g1 else _).
  assert (H2 : edges g2 = edges g) by (subst g2; destruct (has_node g1 v); simpl; exact H1).
  rewrite (E g2 H2). destruct (has_edge g u v); simpl; rewrite H2; reflexivity.
Qed.

Lemma has_edge_add_edge (g : DiGraph) (u v : string) :
  has_edge (add_edge u v g) u v = true.
Proof.
  unfold has_edge at 1. rewrite edges_add_edge.
  destruct (has_edge g u v) eqn:H; [exact H|].
  rewrite existsb_app. simpl. rewrite edge_eqb_refl, orb_true_r. reflexivity.
Qed.

Lemma has_edge_add_edge_mono (g : DiGraph) (u v a b : string) :
  has_edge g a b = true -> has_edge (add_edge u v g) a b = true.
Proof.
  intros H. unfold has_edge at 1. rewrite edges_add_edge.
  destruct (has_edge g u v); [exact H|].
  rewrite existsb_app. unfold has_edge in H. rewrite H. reflexivity.
Qed.

Lemma edges_add_node (g : DiGraph) (n : string) (attr : pydict attrval) :
  edges (add_node n attr g) = edges g.
Proof. unfold add_node. destruct (dict_get n (nodes g)); reflexivity. Qed.

Lemma has_node_add_node_mono (g : DiGraph) (n m : string) (attr : pydict attrval) :
  has_node g m = true -> has_node (add_node n attr g) m = true.
Proof.
  unfold add_node, has_node, dict_has.
  destruct (dict_get n (nodes g)); simpl; intros H.
  - rewrite dict_get_set. destruct (String.eqb n m); [reflexivity | exact H].
  - rewrite dict_get_app. destruct (dict_get m (nodes g)); [reflexivity | discriminate].
Qed.

(** ** What a successful retrieval records *)

Lemma record_pull_session a report fl w s w1 s1 shown exn :
  record_pull a report fl w s = (w1, s1, shown, exn) ->
  documents s1 = documents s
  /\ fails s1 = fails s
  /\ target_depth s1 = target_depth s
  /\ last_quota s1 = key_remaining_quota a
  /\ reset_time s1 = key_reset_time a
  /\ requests w1 = requests w
  /\ files w1 = files w.
Proof. intros H. record_pull_cases H; repeat split. Qed.

Lemma record_pull_doc_lists a report fl w s w1 s1 shown exn :
  record_pull a report fl w s = (w1, s1, shown, exn) ->
  doc_lists w1 = <[documents s := docs w s ++ [a]]> (doc_lists w).
Proof. intros H. record_pull_cases H; reflexivity. Qed.

Lemma record_pull_docs a report fl w s w1 s1 shown exn :
  record_pull a report fl w s = (w1, s1, shown, exn) ->
  docs w1 s1 = docs w s ++ [a]
  \/ (docs w1 s1 = [] /\ docs w s = []).
Proof.
  intros H. pose proof (docs_append_document a w s) as D.
  record_pull_cases H; exact D.
Qed.

Lemma record_pull_citation_graph a report fl w s w1 s1 shown exn :
  record_pull a report fl w s = (w1, s1, shown, exn) ->
  citation_graph s1
  = match coverDate a with
    | Some _ => add_node (eid a) [("attr", ARef fl)] (citation_graph s)
    | None => citation_graph s
    end.
Proof.
  intros H. unfold record_pull in H. cbv zeta in H.
  destruct (coverDate a) as [date|].
  - destruct (add_authors a _) as [g e]. inversion H; subst. reflexivity.
  - inversion H; subst. reflexivity.
Qed.

Lemma record_pull_authorship_graph a report fl w s w1 s1 shown exn :
  record_pull a report fl w s = (w1, s1, shown, exn) ->
  authorship_graph s1
  = match coverDate a with
    | Some _ => fst (add_authors a (authorship_graph s))
    | None => authorship_graph s
    end.
Proof.
  intros H. unfold record_pull in H. cbv zeta in H.
  destruct (coverDate a) as [date|].
  - simpl in H. destruct (add_authors a (authorship_graph s)) as [g e].
    inversion H; subst. reflexivity.
  - inversion H; subst. reflexivity.
Qed.

(** The recording is interrupted exactly when the cover date is missing
    or the author loop raises. *)
Lemma record_pull_exn a report fl w s w1 s1 shown exn :
  record_pull a report fl w s = (w1, s1, shown, exn) ->
  exn = match coverDate a with
        | Some _ => snd (add_authors a (authorship_graph s))
        | None => Some "TypeError"
        end.
Proof.
  intros H. unfold record_pull in H. cbv zeta in H.
  destruct (coverDate a) as [date|].
  - simpl in H. destruct (add_authors a (authorship_graph s)) as [g e].
    inversion H; subst. reflexivity.
  - inversion H; subst. reflexivity.
Qed.

(** ** The engine as a sequence of elementary steps *)

Section EngineSteps.

Variable remote : nat -> string -> FetchResult.
Variable remote_author : nat -> string -> AuthorResult.

Local Abbreviation engine_step := (engine_step remote).
Local Abbreviation steps := (steps remote).
Local Abbreviation rec_steps := (rec_steps remote).
Local Abbreviation remote_faithful := (remote_faithful remote).

Lemma steps_fail w s x w0 s0 :
  steps (w0, s0) (w, s) -> steps (w0, s0) (w, set_fails (fails s ++ [x]) s).
Proof. intros H. eapply rtc_r; [exact H | apply step_fail]. Qed.

Lemma pull_reference_steps (rec : Rec) abstract depth reference w s w' s' out exn :
  rec_steps rec ->
  pull_reference rec abstract depth reference w s = Some (w', s', out, exn) ->
  steps (w, s) (w', s').
Proof.
  intros Hrec. unfold pull_reference.
  destruct (ref_id reference) as [thisid|].
  - cbv zeta. set (s1 := set_citation_graph _ s).
    assert (S1 : steps (w, s) (w, s1)) by apply rtc_once, step_edge.
    destruct (target_depth s1) as [target|l].
    + destruct (depth <? target);
        [destruct (min_indegree_to_pull <=? in_degree (citation_graph s1) _)|].
      * destruct (rec w s1 _ _ _ _) as [[[[w2 s2] o2] e2]|] eqn:E; [|discriminate].
        intros H. inversion H; subst. eapply rtc_trans; [exact S1|]. eapply Hrec, E.
      * intros H. inversion H; subst. exact S1.
      * intros H. inversion H; subst. exact S1.
    + intros H. inversion H; subst. exact S1.
  - intros H. inversion H; subst. apply rtc_refl.
Qed.

Lemma for_references_steps (rec : Rec) abstract depth refs :
  rec_steps rec ->
  forall w s w' s' out exn,
    for_references rec abstract depth refs w s = Some (w', s', out, exn) ->
    steps (w, s) (w', s').
Proof.
  intros Hrec. induction refs as [|r refs IH]; simpl; intros w s w' s' out exn H.
  - inversion H; subst. apply rtc_refl.
  - destruct (pull_reference rec abstract depth r w s) as [[[[w1 s1] o1] [e1|]]|] eqn:E1;
      [| |discriminate].
    + inversion H; subst. eapply pull_reference_steps; eassumption.
    + destruct (for_references rec abstract depth refs w1 s1)
        as [[[[w2 s2] o2] e2]|] eqn:E2; [|discriminate].
      inversion H; subst. eapply rtc_trans.
      * eapply pull_reference_steps; eassumption.
      * eapply IH, E2.
Qed.

Lemma pull_references_steps (rec : Rec) depth abstract w s w' s' out exn :
  rec_steps rec ->
  pull_references rec depth abstract w s = Some (w', s', out, exn) ->
  steps (w, s) (w', s').
Proof.
  intros Hrec. unfold pull_references.
  destruct (references abstract) as [refs|].
  - apply for_references_steps, Hrec.
  - intros H. inversion H; subst. apply rtc_refl.
Qed.

(** The defining equation of [pull_abstract_fuel], one level deep. *)
Lemma pull_abstract_fuel_S fuel w s x depth report fl :
  pull_abstract_fuel remote (S fuel) w s x depth report fl
  = match is_repeat (docs w s) x with
    | (false, _) =>
        match remote (requests w) x with
        | FetchOk abstract =>
            match record_pull abstract report fl (count_request w) s with
            | (w1, s1, shown, Some e) =>
                Some (failed_to_pull x w1 s1 (EvRetrieve x :: shown))
            | (w1, s1, shown, None) =>
                match pull_references (pull_abstract_fuel remote fuel) depth abstract w1 s1 with
                | Some (w2, s2, out, Some e) =>
                    Some (failed_to_pull x w2 s2 (EvRetrieve x :: shown ++ out))
                | Some (w2, s2, out, None) =>
                    Some (w2, s2, EvRetrieve x :: shown ++ out, None)
                | None => None
                end
            end
        | FetchNone => Some (count_request w, s, [EvRetrieve x], None)
        | FetchRaise => Some (failed_to_pull x (count_request w) s [EvRetrieve x])
        end
    | (true, Some match_) =>
        pull_references (pull_abstract_fuel remote fuel) depth match_ w s
    | (true, None) => Some (w, s, [], None)
    end.
Proof. reflexivity. Qed.

Lemma pull_abstract_fuel_steps (fuel : nat) : rec_steps (pull_abstract_fuel remote fuel).
Proof.
  induction fuel as [|fuel IH]; intros w s x d r fl w' s' out exn; [discriminate|].
  rewrite pull_abstract_fuel_S.
  destruct (is_repeat (docs w s) x) as [[|] m] eqn:Hrep.
  - destruct m as [m|].
    + apply pull_references_steps, IH.
    + intros H. inversion H; subst. apply rtc_refl.
  - destruct (remote (requests w) x) as [| |abstract] eqn:Hrem.
    + unfold failed_to_pull. intros H. inversion H; subst.
      apply steps_fail, rtc_once, step_request.
    + intros H. inversion H; subst. apply rtc_once, step_request.
    + destruct (record_pull abstract r fl (count_request w) s)
        as [[[w1 s1] shown] e1] eqn:Hrp.
      assert (S1 : steps (w, s) (w1, s1)).
      { apply rtc_once. eapply step_record; [|exact Hrem|exact Hrp].
        eapply is_repeat_false, Hrep. }
      destruct e1 as [e1|].
      * unfold failed_to_pull. intros H. inversion H; subst. apply steps_fail, S1.
      * destruct (pull_references (pull_abstract_fuel remote fuel) d abstract w1 s1)
          as [[[[w2 s2] o2] [e2|]]|] eqn:E; [| |discriminate].
        -- unfold failed_to_pull. intros H. inversion H; subst.
           apply steps_fail. eapply rtc_trans; [exact S1|].
           eapply pull_references_steps; [apply IH | exact E].
        -- intros H. inversion H; subst. eapply rtc_trans; [exact S1|].
           eapply pull_references_steps; [apply IH | exact E].
Qed.

(** *** What every step preserves *)

Lemma steps_preserve (P : World * Session -> Prop) :
  (forall a b, engine_step a b -> P a -> P b) ->
  forall a b, steps a b -> P a -> P b.
Proof.
  intros Hstep a b H. induction H as [|a b c Hab _ IH]; [auto|].
  intros Ha. apply IH. eapply Hstep; eassumption.
Qed.

Lemma engine_step_session a b :
  engine_step a b ->
  target_depth (snd b) = target_depth (snd a)
  /\ documents (snd b) = documents (snd a).
Proof.
  intros H. destruct H as [w s u v | w s x abstract report fl w1 s1 shown exn Hx Hrem Hrp | |];
    try (split; reflexivity).
  destruct (record_pull_session _ _ _ _ _ _ _ _ _ Hrp) as (H1 & _ & H3 & _). auto.
Qed.

Lemma steps_target_depth a b :
  steps a b -> target_depth (snd b) = target_depth (snd a).
Proof.
  intros H.
  apply (steps_preserve (fun c => target_depth (snd c) = target_depth (snd a)))
    with (a := a); [|exact H|reflexivity].
  intros c d Hcd Hc. rewrite <- Hc. apply engine_step_session, Hcd.
Qed.

Lemma steps_documents a b :
  steps a b -> documents (snd b) = documents (snd a).
Proof.
  intros H.
  apply (steps_preserve (fun c => documents (snd c) = documents (snd a)))
    with (a := a); [|exact H|reflexivity].
  intros c d Hcd Hc. rewrite <- Hc. apply engine_step_session, Hcd.
Qed.

Lemma steps_has_edge a b u v :
  steps a b ->
  has_edge (citation_graph (snd a)) u v = true ->
  has_edge (citation_graph (snd b)) u v = true.
Proof.
  apply (steps_preserve (fun c => has_edge (citation_graph (snd c)) u v = true)).
  intros c d Hcd Hc.
  destruct Hcd as [w s u0 v0 | w s x abstract report fl w1 s1 shown exn Hx Hrem Hrp | |];
    simpl in *; try exact Hc.
  - apply has_edge_add_edge_mono, Hc.
  - rewrite (record_pull_citation_graph _ _ _ _ _ _ _ _ _ Hrp).
    destruct (coverDate abstract); [|exact Hc].
    unfold has_edge. rewrite edges_add_node. exact Hc.
Qed.

Lemma steps_has_node a b n :
  steps a b ->
  has_node (citation_graph (snd a)) n = true ->
  has_node (citation_graph (snd b)) n = true.
Proof.
  apply (steps_preserve (fun c => has_node (citation_graph (snd c)) n = true)).
  intros c d Hcd Hc.
  destruct Hcd as [w s u0 v0 | w s x abstract report fl w1 s1 shown exn Hx Hrem Hrp | |];
    simpl in *; try exact Hc.
  - apply has_node_add_edge_mono, Hc.
  - rewrite (record_pull_citation_graph _ _ _ _ _ _ _ _ _ Hrp).
    destruct (coverDate abstract); [|exact Hc].
    apply has_node_add_node_mono, Hc.
Qed.

(** What a step does to the documents list. *)
Lemma engine_step_docs a b :
  engine_step a b ->
  docs (fst b) (snd b) = docs (fst a) (snd a)
  \/ exists abstract, docs (fst b) (snd b) = docs (fst a) (snd a) ++ [abstract].
Proof.
  intros H.
  destruct H as [w s u v | w s x abstract report fl w1 s1 shown exn Hx Hrem Hrp | |];
    try (left; reflexivity).
  destruct (record_pull_docs _ _ _ _ _ _ _ _ _ Hrp) as [E|[E E']];
    change (docs (count_request w) s) with (docs w s) in *; cbn [fst snd].
  - right. exists abstract. exact E.
  - left. rewrite E, E'. reflexivity.
Qed.

(** Records are only ever added. *)
Lemma steps_docs_mono a b e :
  steps a b ->
  In e (map eid (docs (fst a) (snd a))) ->
  In e (map eid (docs (fst b) (snd b))).
Proof.
  apply (steps_preserve (fun c => In e (map eid (docs (fst c) (snd c))))).
  intros c d Hcd Hc. destruct (engine_step_docs c d Hcd) as [E|[abstract E]]; rewrite E.
  - exact Hc.
  - rewrite map_app, in_app_iff. left. exact Hc.
Qed.

Lemma NoDup_snoc_fresh (l : list string) (x : string) :
  List.NoDup l -> ~ In x l -> List.NoDup (l ++ [x]).
Proof.
  intros Hl Hx. apply List.NoDup_app; [exact Hl | |].
  - apply List.NoDup_cons; [intros [] | apply List.NoDup_nil].
  - intros y Hy [<-|[]]. exact (Hx Hy).
Qed.

Lemma steps_nodup a b :
  remote_faithful ->
  steps a b ->
  List.NoDup (map eid (docs (fst a) (snd a))) ->
  List.NoDup (map eid (docs (fst b) (snd b))).
Proof.
  intros Hf.
  apply (steps_preserve (fun c => List.NoDup (map eid (docs (fst c) (snd c))))).
  intros c d Hcd Hc.
  destruct Hcd as [w s u v | w s x abstract report fl w1 s1 shown exn Hx Hrem Hrp | |];
    try exact Hc.
  cbn [fst snd] in *.
  destruct (record_pull_docs _ _ _ _ _ _ _ _ _ Hrp) as [E|[E _]];
    change (docs (count_request w) s) with (docs w s) in E; rewrite E.
  - rewrite map_app. simpl. apply NoDup_snoc_fresh; [exact Hc|].
    rewrite (Hf _ _ _ Hrem). exact Hx.
  - apply List.NoDup_nil.
Qed.

(** *** The recursion ends *)

Lemma pull_reference_total (rec : Rec) abstract depth r w s :
  (forall x rp fl target, target_depth s = DInt target -> depth < target ->
     forall g, exists o,
       rec w (set_citation_graph g s) x (depth + 1) rp fl = Some o) ->
  exists o, pull_reference rec abstract depth r w s = Some o.
Proof.
  intros Hrec. unfold pull_reference. destruct (ref_id r) as [thisid|]; [|eauto].
  cbv zeta. set (s1 := set_citation_graph _ s).
  change (target_depth s1) with (target_depth s).
  destruct (target_depth s) as [target|l] eqn:Htd; [|eauto].
  destruct (Z.ltb_spec depth target) as [Hlt|Hge]; [|eauto].
  destruct (min_indegree_to_pull <=? in_degree (citation_graph s1) _); [|eauto].
  destruct (Hrec (_eid_from_id thisid) false default_flags_pull_abstract target
              eq_refl Hlt
              (add_edge (eid abstract) (_eid_from_id thisid) (citation_graph s)))
    as [[[[w2 s2] o2] e2] E].
  fold s1 in E. rewrite E. eauto.
Qed.

Lemma for_references_total (rec : Rec) abstract depth tdv refs :
  rec_steps rec ->
  (forall w s x rp fl target, target_depth s = tdv -> tdv = DInt target ->
     depth < target -> exists o, rec w s x (depth + 1) rp fl = Some o) ->
  forall w s, target_depth s = tdv ->
    exists o, for_references rec abstract depth refs w s = Some o.
Proof.
  intros Hsteps Hrec. induction refs as [|r refs IH]; intros w s Htd; simpl.
  - eauto.
  - destruct (pull_reference_total rec abstract depth r w s) as [[[[w1 s1] o1] e1] E1].
    { intros x rp fl target Ht Hlt g. eapply Hrec; [exact Htd | | exact Hlt].
      rewrite <- Htd. exact Ht. }
    rewrite E1. destruct e1 as [e1|]; [eauto|].
    assert (Htd1 : target_depth s1 = tdv).
    { pose proof (pull_reference_steps _ _ _ _ _ _ _ _ _ _ Hsteps E1) as Hs.
      apply steps_target_depth in Hs. simpl in Hs. congruence. }
    destruct (IH w1 s1 Htd1) as [[[[w2 s2] o2] e2] E2]. rewrite E2. eauto.
Qed.

Lemma pull_references_total (rec : Rec) depth abstract :
  rec_steps rec ->
  forall w s,
    (forall w' s' x rp fl target, target_depth s' = target_depth s ->
       target_depth s = DInt target -> depth < target ->
       exists o, rec w' s' x (depth + 1) rp fl = Some o) ->
    exists o, pull_references rec depth abstract w s = Some o.
Proof.
  intros Hsteps w s Hrec. unfold pull_references.
  destruct (references abstract) as [refs|]; [|eauto].
  eapply for_references_total; [exact Hsteps | exact Hrec | reflexivity].
Qed.

Lemma depth_left_step (d : depthval) (depth target : Z) (fuel : nat) :
  d = DInt target -> depth < target ->
  (depth_left d depth < S fuel)%nat -> (depth_left d (depth + 1) < fuel)%nat.
Proof. intros -> Hlt. simpl. lia. Qed.

Lemma pull_abstract_fuel_total (fuel : nat) :
  forall w s x depth report fl,
    (depth_left (target_depth s) depth < fuel)%nat ->
    exists o, pull_abstract_fuel remote fuel w s x depth report fl = Some o.
Proof.
  induction fuel as [|fuel IH]; intros w s x depth report fl Hfuel; [lia|].
  assert (Hrec : forall s0, target_depth s0 = target_depth s ->
            forall w' s' x' r fl' target, target_depth s' = target_depth s0 ->
              target_depth s0 = DInt target -> depth < target ->
              exists o, pull_abstract_fuel remote fuel w' s' x' (depth + 1) r fl' = Some o).
  { intros s0 H0 w' s' x' r fl' target H' Ht Hlt. apply IH.
    rewrite H'. apply (depth_left_step _ depth target fuel Ht Hlt).
    rewrite H0. exact Hfuel. }
  rewrite pull_abstract_fuel_S.
  destruct (is_repeat (docs w s) x) as [[|] m].
  - destruct m as [m|]; [|eauto].
    apply pull_references_total; [apply pull_abstract_fuel_steps | apply Hrec; reflexivity].
  - destruct (remote (requests w) x) as [| |abstract]; [eauto | eauto |].
    destruct (record_pull abstract report fl (count_request w) s)
      as [[[w1 s1] shown] e1] eqn:Hrp.
    destruct e1 as [e1|]; [eauto|].
    destruct (pull_references_total (pull_abstract_fuel remote fuel) depth abstract
                (pull_abstract_fuel_steps fuel) w1 s1) as [[[[w2 s2] o2] e2] E].
    { apply Hrec. destruct (record_pull_session _ _ _ _ _ _ _ _ _ Hrp) as (_ & _ & H3 & _).
      exact H3. }
    rewrite E. destruct e2; eauto.
Qed.

(** [pull_abstract] always ends, normally or with an exception. *)
Lemma pull_abstract_total w s x depth report fl :
  exists w' s' out exn,
    pull_abstract remote w s x depth report fl = Some (w', s', out, exn).
Proof.
  destruct (pull_abstract_fuel_total (S (depth_left (target_depth s) depth))
              w s x depth report fl) as [[[[w' s'] out] exn] E]; [lia|].
  exists w', s', out, exn. exact E.
Qed.

Lemma pull_abstract_steps : rec_steps (pull_abstract remote).
Proof.
  intros w s x d r fl w' s' out exn. unfold pull_abstract. apply pull_abstract_fuel_steps.
Qed.

(** *** More fuel changes nothing *)

Lemma pull_reference_below (rec rec' : Rec) abstract depth r w s o :
  rec_below rec rec' ->
  pull_reference rec abstract depth r w s = Some o ->
  pull_reference rec' abstract depth r w s = Some o.
Proof.
  intros Hb. unfold pull_reference. destruct (ref_id r) as [thisid|]; [|auto].
  cbv zeta. destruct (target_depth _) as [target|l]; [|auto].
  destruct (depth <? target); [|auto].
  destruct (min_indegree_to_pull <=? _); [|auto].
  destruct (rec w _ _ _ _ _) as [[[[w2 s2] o2] e2]|] eqn:E; [|discriminate].
  rewrite (Hb _ _ _ _ _ _ _ E). auto.
Qed.

Lemma for_references_below (rec rec' : Rec) abstract depth refs :
  rec_below rec rec' ->
  forall w s o,
    for_references rec abstract depth refs w s = Some o ->
    for_references rec' abstract depth refs w s = Some o.
Proof.
  intros Hb. induction refs as [|r refs IH]; simpl; intros w s o H; [exact H|].
  destruct (pull_reference rec abstract depth r w s) as [[[[w1 s1] o1] e1]|] eqn:E1;
    [|discriminate].
  rewrite (pull_reference_below _ _ _ _ _ _ _ _ Hb E1).
  destruct e1 as [e1|]; [exact H|].
  destruct (for_references rec abstract depth refs w1 s1) as [[[[w2 s2] o2] e2]|] eqn:E2;
    [|discriminate].
  rewrite (IH _ _ _ E2). exact H.
Qed.

Lemma pull_references_below (rec rec' : Rec) depth abstract w s o :
  rec_below rec rec' ->
  pull_references rec depth abstract w s = Some o ->
  pull_references rec' depth abstract w s = Some o.
Proof.
  intros Hb. unfold pull_references. destruct (references abstract); [|auto].
  apply for_references_below, Hb.
Qed.

Lemma pull_abstract_fuel_S_below (n m : nat) :
  rec_below (pull_abstract_fuel remote n) (pull_abstract_fuel remote m) ->
  rec_below (pull_abstract_fuel remote (S n)) (pull_abstract_fuel remote (S m)).
Proof.
  intros Hb w s x d r fl o. rewrite !pull_abstract_fuel_S.
  destruct (is_repeat (docs w s) x) as [[|] [mt|]]; try (intros H; exact H).
  - apply pull_references_below, Hb.
  - destruct (remote (requests w) x) as [| |abstract]; try (intros H; exact H).
    destruct (record_pull abstract r fl (count_request w) s) as [[[w1 s1] shown] [e1|]];
      [intros H; exact H|].
    destruct (pull_references (pull_abstract_fuel remote n) d abstract w1 s1)
      as [o2|] eqn:E; [|discriminate].
    rewrite (pull_references_below _ _ _ _ _ _ _ Hb E). intros H; exact H.
  - destruct (remote (requests w) x) as [| |abstract]; try (intros H; exact H).
    destruct (record_pull abstract r fl (count_request w) s) as [[[w1 s1] shown] [e1|]];
      [intros H; exact H|].
    destruct (pull_references (pull_abstract_fuel remote n) d abstract w1 s1)
      as [o2|] eqn:E; [|discriminate].
    rewrite (pull_references_below _ _ _ _ _ _ _ Hb E). intros H; exact H.
Qed.

Lemma pull_abstract_fuel_mono (n : nat) :
  forall m, (n <= m)%nat ->
    rec_below (pull_abstract_fuel remote n) (pull_abstract_fuel remote m).
Proof.
  induction n as [|n IH]; intros m Hle.
  - intros w s x d r fl o H. discriminate.
  - destruct m as [|m]; [lia|]. apply pull_abstract_fuel_S_below, IH. lia.
Qed.

(** With enough fuel the bounded function is [pull_abstract]. *)
Lemma pull_abstract_fuel_enough fuel w s x depth report fl :
  (depth_left (target_depth s) depth < fuel)%nat ->
  pull_abstract_fuel remote fuel w s x depth report fl
  = pull_abstract remote w s x depth report fl.
Proof.
  intros Hfuel.
  destruct (pull_abstract_total w s x depth report fl) as (w' & s' & out & exn & E).
  rewrite E. unfold pull_abstract in E.
  eapply (pull_abstract_fuel_mono _ fuel); [|exact E]. lia.
Qed.

Lemma pull_abstract_fuel_below_pull_abstract fuel :
  rec_below (pull_abstract_fuel remote fuel) (pull_abstract remote).
Proof.
  intros w s x d r fl o H. unfold pull_abstract.
  destruct (Nat.le_ge_cases fuel (S (depth_left (target_depth s) d))) as [Hle|Hge].
  - eapply pull_abstract_fuel_mono; eassumption.
  - destruct (pull_abstract_total w s x d r fl) as (w' & s' & out & exn & E).
    unfold pull_abstract in E.
    pose proof (pull_abstract_fuel_mono _ fuel Hge _ _ _ _ _ _ _ E) as E'.
    rewrite H in E'. rewrite E. symmetry. exact E'.
Qed.

(** [pull_abstract] satisfies the recursion of the source itself: the
    nested calls are calls of [pull_abstract]. *)
Lemma pull_abstract_unfold w s x depth report fl :
  pull_abstract remote w s x depth report fl
  = match is_repeat (docs w s) x with
    | (false, _) =>
        match remote (requests w) x with
        | FetchOk abstract =>
            match record_pull abstract report fl (count_request w) s with
            | (w1, s1, shown, Some e) =>
                Some (failed_to_pull x w1 s1 (EvRetrieve x :: shown))
            | (w1, s1, shown, None) =>
                match pull_references (pull_abstract remote) depth abstract w1 s1 with
                | Some (w2, s2, out, Some e) =>
                    Some (failed_to_pull x w2 s2 (EvRetrieve x :: shown ++ out))
                | Some (w2, s2, out, None) =>
                    Some (w2, s2, EvRetrieve x :: shown ++ out, None)
                | None => None
                end
            end
        | FetchNone => Some (count_request w, s, [EvRetrieve x], None)
        | FetchRaise => Some (failed_to_pull x (count_request w) s [EvRetrieve x])
        end
    | (true, Some match_) => pull_references (pull_abstract remote) depth match_ w s
    | (true, None) => Some (w, s, [], None)
    end.
Proof.
  destruct (pull_abstract_total w s x depth report fl) as (w' & s' & out & exn & E).
  rewrite E. unfold pull_abstract in E. rewrite pull_abstract_fuel_S in E.
  set (k := depth_left (target_depth s) depth) in E.
  pose proof (pull_abstract_fuel_below_pull_abstract k) as Hb.
  destruct (is_repeat (docs w s) x) as [[|] [mt|]]; try (symmetry; exact E).
  - symmetry. eapply pull_references_below; eassumption.
  - destruct (remote (requests w) x) as [| |abstract]; try (symmetry; exact E).
    destruct (record_pull abstract report fl (count_request w) s)
      as [[[w1 s1] shown] [e1|]]; [symmetry; exact E|].
    destruct (pull_references (pull_abstract_fuel remote k) depth abstract w1 s1)
      as [o2|] eqn:E2; [|discriminate].
    rewrite (pull_references_below _ _ _ _ _ _ _ Hb E2). symmetry. exact E.
  - destruct (remote (requests w) x) as [| |abstract]; try (symmetry; exact E).
    destruct (record_pull abstract report fl (count_request w) s)
      as [[[w1 s1] shown] [e1|]]; [symmetry; exact E|].
    destruct (pull_references (pull_abstract_fuel remote k) depth abstract w1 s1)
      as [o2|] eqn:E2; [|discriminate].
    rewrite (pull_references_below _ _ _ _ _ _ _ Hb E2). symmetry. exact E.
Qed.

(** *** The popularity gate *)

Lemma for_references_app (rec : Rec) abstract depth l1 l2 :
  forall w s,
    for_references rec abstract depth (l1 ++ l2) w s
    = match for_references rec abstract depth l1 w s with
      | Some (w1, s1, out1, None) =>
          match for_references rec abstract depth l2 w1 s1 with
          | Some (w2, s2, out2, exn) => Some (w2, s2, out1 ++ out2, exn)
          | None => None
          end
      | Some (w1, s1, out1, Some e) => Some (w1, s1, out1, Some e)
      | None => None
      end.
Proof.
  induction l1 as [|r l1 IH]; intros w s; simpl.
  - destruct (for_references rec abstract depth l2 w s) as [[[[w2 s2] o2] e2]|];
      reflexivity.
  - destruct (pull_reference rec abstract depth r w s) as [[[[w1 s1] o1] [e1|]]|];
      try reflexivity.
    rewrite IH.
    destruct (for_references rec abstract depth l1 w1 s1) as [[[[w2 s2] o2] [e2|]]|];
      try reflexivity.
    destruct (for_references rec abstract depth l2 w2 s2) as [[[[w3 s3] o3] e3]|];
      [|reflexivity].
    rewrite app_assoc. reflexivity.
Qed.

Lemma in_degree_add_edge_same (g : DiGraph) (u v x : string) :
  has_edge g u x = true \/ v <> x ->
  in_degree (add_edge u v g) x = in_degree g x.
Proof.
  intros H. unfold in_degree. rewrite edges_add_edge.
  destruct (has_edge g u v) eqn:E; [reflexivity|].
  rewrite filter_app, filter_cons, filter_nil.
  destruct (decide _) as [Hd|_]; [|rewrite app_nil_r; reflexivity].
  simpl in Hd. destruct (String.eqb_spec v x) as [->|Hne]; [|destruct Hd].
  destruct H as [H|H]; [congruence | contradiction].
Qed.

(** While the gate stays shut for an id, the loop does not begin with a
    nested call for it. *)
Lemma for_references_no_call_first (rec : Rec) abstract depth target x refs :
  rec_steps rec ->
  forall w s w' s' out exn,
    target_depth s = DInt target ->
    has_edge (citation_graph s) (eid abstract) x = true ->
    ~ (depth < target /\ 3 <= in_degree (citation_graph s) x) ->
    for_references rec abstract depth refs w s = Some (w', s', out, exn) ->
    forall rest, out <> EvCall x (depth + 1) :: rest.
Proof.
  intros Hrec. induction refs as [|r refs IH]; simpl;
    intros w s w' s' out exn Htd He Hshut H rest.
  - inversion H; subst. discriminate.
  - unfold pull_reference in H. destruct (ref_id r) as [thisid|].
    + cbv zeta in H. set (s1 := set_citation_graph _ s) in H.
      change (target_depth s1) with (target_depth s) in H. rewrite Htd in H.
      unfold min_indegree_to_pull in H.
      destruct (Z.ltb_spec depth target) as [Hlt|Hge].
      * destruct (Z.leb_spec 3 (in_degree (citation_graph s1) (_eid_from_id thisid)))
          as [Hdeg|Hdeg].
        -- destruct (rec w s1 _ _ _ _) as [[[[w2 s2] o2] e2]|]; [|discriminate].
           assert (Hne : _eid_from_id thisid <> x).
           { intros Heq. subst x. apply Hshut. split; [exact Hlt|].
             pose proof (in_degree_add_edge_same (citation_graph s) (eid abstract)
                           (_eid_from_id thisid) (_eid_from_id thisid)
                           (or_introl He)) as Hsame.
             change (in_degree (citation_graph s1) (_eid_from_id thisid)
                     = in_degree (citation_graph s) (_eid_from_id thisid)) in Hsame.
             rewrite <- Hsame. exact Hdeg. }
           destruct e2 as [e2|].
           ++ inversion H; subst. intros E. inversion E. contradiction.
           ++ destruct (for_references rec abstract depth refs w2 s2)
                as [[[[w3 s3] o3] e3]|]; [|discriminate].
              inversion H; subst. intros E. inversion E. contradiction.
        -- apply (IH w s1 w' s' out exn); try assumption.
           ++ simpl. apply has_edge_add_edge_mono, He.
           ++ simpl. destruct (String.eqb_spec (_eid_from_id thisid) x) as [->|Hne].
              ** rewrite in_degree_add_edge_same by (left; exact He). exact Hshut.
              ** rewrite in_degree_add_edge_same by (right; exact Hne). exact Hshut.
           ++ destruct (for_references rec abstract depth refs w s1)
                as [[[[w3 s3] o3] e3]|]; [|discriminate].
              inversion H; subst. reflexivity.
      * apply (IH w s1 w' s' out exn); try assumption.
        -- simpl. apply has_edge_add_edge_mono, He.
        -- intros [Hlt _]. lia.
        -- destruct (for_references rec abstract depth refs w s1)
             as [[[[w3 s3] o3] e3]|]; [|discriminate].
           inversion H; subst. reflexivity.
    + inversion H; subst. discriminate.
Qed.

Lemma for_references_total_rec (rec : Rec) abstract depth refs :
  (forall w s x d r fl, exists o, rec w s x d r fl = Some o) ->
  forall w s, exists o, for_references rec abstract depth refs w s = Some o.
Proof.
  intros Hrec. induction refs as [|r refs IH]; intros w s; simpl; [eauto|].
  destruct (pull_reference_total rec abstract depth r w s) as [[[[w1 s1] o1] e1] E1].
  { intros x rp fl target _ _ g. apply Hrec. }
  rewrite E1. destruct e1 as [e1|]; [eauto|].
  destruct (IH w1 s1) as [[[[w2 s2] o2] e2] E2]. rewrite E2. eauto.
Qed.

Lemma pull_abstract_total_rec :
  forall w s x d r fl, exists o, pull_abstract remote w s x d r fl = Some o.
Proof.
  intros w s x d r fl.
  destruct (pull_abstract_total w s x d r fl) as (w' & s' & out & exn & E). eauto.
Qed.

(** The loop of [pull_references], seen at one of the references: the
    references before it have been gone through without an exception,
    its id is a string and [target_depth] is a number. *)
Lemma gate_at_reference abstract depth before r after w0 s0 wb sb outb thisid target :
  for_references (pull_abstract remote) abstract depth before w0 s0
    = Some (wb, sb, outb, None) ->
  ref_id r = Some thisid ->
  target_depth sb = DInt target ->
  let reference_eid := _eid_from_id thisid in
  let se := set_citation_graph
              (add_edge (eid abstract) reference_eid (citation_graph sb)) sb in
  let gate := depth < target /\ 3 <= in_degree (citation_graph se) reference_eid in
  exists w2 s2 tail e2,
    for_references (pull_abstract remote) abstract depth (before ++ r :: after) w0 s0
      = Some (w2, s2, outb ++ tail, e2)
    /\ (gate ->
        exists w1 s1 out1 exn1 rest,
          pull_abstract remote wb se reference_eid (depth + 1) false
            default_flags_pull_abstract = Some (w1, s1, out1, exn1)
          /\ tail = EvCall reference_eid (depth + 1) :: out1 ++ rest)
    /\ (~ gate -> forall rest, tail <> EvCall reference_eid (depth + 1) :: rest).
Proof.
  intros Hbefore Hid Htd reference_eid se gate.
  rewrite for_references_app, Hbefore.
  cbn [for_references]. unfold pull_reference. rewrite Hid. cbv zeta.
  fold reference_eid. fold se. change (target_depth se) with (target_depth sb).
  rewrite Htd. unfold min_indegree_to_pull.
  destruct (Z.ltb_spec depth target) as [Hlt|Hge].
  - destruct (Z.leb_spec 3 (in_degree (citation_graph se) reference_eid)) as [Hdeg|Hdeg].
    + destruct (pull_abstract_total wb se reference_eid (depth + 1) false
                  default_flags_pull_abstract) as (w1 & s1 & out1 & exn1 & E1).
      rewrite E1. destruct exn1 as [e1|].
      * exists w1, s1, (EvCall reference_eid (depth + 1) :: out1), (Some e1).
        split; [reflexivity|]. split.
        -- intros _. exists w1, s1, out1, (Some e1), []. rewrite app_nil_r. auto.
        -- intros Hn. exfalso. apply Hn. split; assumption.
      * destruct (for_references_total_rec (pull_abstract remote) abstract depth after
                    pull_abstract_total_rec w1 s1) as [[[[w2 s2] o2] e2] E2].
        rewrite E2.
        exists w2, s2, ((EvCall reference_eid (depth + 1) :: out1) ++ o2), e2.
        split; [reflexivity|]. split.
        -- intros _. exists w1, s1, out1, None, o2. auto.
        -- intros Hn. exfalso. apply Hn. split; assumption.
    + destruct (for_references_total_rec (pull_abstract remote) abstract depth after
                  pull_abstract_total_rec wb se) as [[[[w2 s2] o2] e2] E2].
      rewrite E2. exists w2, s2, o2, e2. split; [reflexivity|]. split.
      * intros [_ H]. lia.
      * intros Hn.
        apply (for_references_no_call_first (pull_abstract remote) abstract depth
                 target reference_eid after pull_abstract_steps wb se w2 s2 o2 e2);
          [exact Htd | simpl; apply has_edge_add_edge | exact Hn | exact E2].
  - destruct (for_references_total_rec (pull_abstract remote) abstract depth after
                pull_abstract_total_rec wb se) as [[[[w2 s2] o2] e2] E2].
    rewrite E2. exists w2, s2, o2, e2. split; [reflexivity|]. split.
    + intros [H _]. lia.
    + intros Hn.
      apply (for_references_no_call_first (pull_abstract remote) abstract depth
               target reference_eid after pull_abstract_steps wb se w2 s2 o2 e2);
        [exact Htd | simpl; apply has_edge_add_edge | exact Hn | exact E2].
Qed.

(** The loop seen at a reference at which no check is made: an earlier
    reference raised, or this one has no id, or [target_depth] is not a
    number.  The loop ends with an exception and with the output of the
    references before. *)
Lemma loop_without_check abstract depth before r after w0 s0 wb sb outb eb :
  for_references (pull_abstract remote) abstract depth before w0 s0
    = Some (wb, sb, outb, eb) ->
  eb <> None \/ ref_id r = None \/ (exists l, target_depth sb = DDict l) ->
  exists w2 s2 e2,
    for_references (pull_abstract remote) abstract depth (before ++ r :: after) w0 s0
    = Some (w2, s2, outb, Some e2).
Proof.
  intros Hbefore Hcase. rewrite for_references_app, Hbefore.
  destruct eb as [e|]; [eauto|].
  destruct Hcase as [Hne | [Hid | [l Hl]]]; [congruence | |].
  - cbn [for_references]. unfold pull_reference. rewrite Hid.
    rewrite app_nil_r. eauto.
  - cbn [for_references]. unfold pull_reference.
    destruct (ref_id r) as [thisid|]; [|rewrite app_nil_r; eauto].
    cbv zeta. change (target_depth (set_citation_graph _ sb)) with (target_depth sb).
    rewrite Hl. rewrite app_nil_r. eauto.
Qed.

(** What [pull_abstract] prints after the loop over the references:
    nothing, or the two lines of its [except] branch. *)
Lemma pull_abstract_after_loop w s x depth report flags abstract w0 s0 pre w2 s2 o e2 :
  record_in_hand remote w s x report flags abstract w0 s0 pre ->
  pull_references (pull_abstract remote) depth abstract w0 s0 = Some (w2, s2, o, e2) ->
  exists w' s' exn handler,
    pull_abstract remote w s x depth report flags
    = Some (w', s', pre ++ o ++ handler, exn)
    /\ (handler = []
        \/ handler = [EvPrint (String.append x " failed to pull"); EvTraceback]).
Proof.
  intros Hhand Eref. rewrite pull_abstract_unfold.
  destruct Hhand as [(Hrep & -> & -> & ->) | (Hmiss & Hrem & shown & Hrp & ->)].
  - rewrite Hrep, Eref. exists w2, s2, e2, []. rewrite app_nil_r.
    split; [reflexivity | left; reflexivity].
  - destruct (is_repeat (docs w s) x) as [b m]. simpl in Hmiss. subst b.
    rewrite Hrem, Hrp, Eref. destruct e2 as [e|]; unfold failed_to_pull.
    + do 3 eexists. exists [EvPrint (String.append x " failed to pull"); EvTraceback].
      split; [|right; reflexivity].
      simpl. rewrite <- !app_assoc. reflexivity.
    + do 3 eexists. exists []. rewrite app_nil_r.
      split; [reflexivity | left; reflexivity].
Qed.

(** C1.  Let [pull_abstract] be called at depth [depth] for a document
    whose record [abstract] is in hand (stored, or just retrieved and
    recorded), let [r] be any entry of the record's reference list, and
    let the loop of [pull_references] have gone through the entries
    before [r], ending in [sb] with the output [outb] and with the
    exception [eb], if one was raised.  Then the call runs to its end,
    and its output continues, right after the output of the entries
    before [r], with the nested call of [pull_abstract] for [r] at
    [depth + 1] if and only if the check for [r] is reached (no
    exception before it), [depth] is below [target_depth] (a number),
    and the in-degree of [r], in the graph to which the edge from the
    document to [r] has just been added, is at least 3; in that case
    the nested call is made in exactly that state.  For an [r] without
    id no nested call is made at that place. *)
Theorem popularity_gate w s x depth report flags abstract w0 s0 pre
    before r after wb sb outb eb :
  record_in_hand remote w s x report flags abstract w0 s0 pre ->
  references abstract = Some (before ++ r :: after) ->
  for_references (pull_abstract remote) abstract depth before w0 s0
    = Some (wb, sb, outb, eb) ->
  exists w' s' out exn,
    pull_abstract remote w s x depth report flags = Some (w', s', out, exn)
    /\ (ref_id r = None ->
        forall y d rest, out <> pre ++ outb ++ EvCall y d :: rest)
    /\ forall thisid, ref_id r = Some thisid ->
         let reference_eid := _eid_from_id thisid in
         let se := set_citation_graph
                     (add_edge (eid abstract) reference_eid (citation_graph sb)) sb in
         let gate :=
           eb = None
           /\ (exists target, target_depth sb = DInt target /\ depth < target)
           /\ 3 <= in_degree (citation_graph se) reference_eid in
         ((exists rest, out = pre ++ outb ++ EvCall reference_eid (depth + 1) :: rest)
          <-> gate)
         /\ (gate ->
             exists w1 s1 out1 exn1 rest,
               pull_abstract remote wb se reference_eid (depth + 1) false
                 default_flags_pull_abstract = Some (w1, s1, out1, exn1)
               /\ out = pre ++ outb ++ EvCall reference_eid (depth + 1) :: out1 ++ rest).
Proof.
  intros Hhand Hrefs Hbefore.
  assert (Hnocall : forall handler y d rest,
             handler = [] \/
             handler = [EvPrint (String.append x " failed to pull"); EvTraceback] ->
             pre ++ outb ++ handler <> pre ++ outb ++ EvCall y d :: rest).
  { intros handler y d rest Hh E. apply app_inv_head in E. apply app_inv_head in E.
    destruct Hh as [-> | ->]; discriminate. }
  (* the cases in which no check is made at [r] *)
  assert (Hunchecked :
            eb <> None \/ ref_id r = None \/ (exists l, target_depth sb = DDict l) ->
            exists w' s' exn handler,
              pull_abstract remote w s x depth report flags
              = Some (w', s', pre ++ outb ++ handler, exn)
              /\ (handler = []
                  \/ handler = [EvPrint (String.append x " failed to pull"); EvTraceback])).
  { intros Hcase.
    destruct (loop_without_check abstract depth before r after w0 s0 wb sb outb eb
                Hbefore Hcase) as (w2 & s2 & e2 & Eloop).
    apply (pull_abstract_after_loop w s x depth report flags abstract w0 s0 pre
             w2 s2 outb (Some e2) Hhand).
    unfold pull_references. rewrite Hrefs. exact Eloop. }
  assert (Hdone : forall w' s' exn handler,
             pull_abstract remote w s x depth report flags
             = Some (w', s', pre ++ outb ++ handler, exn) ->
             (handler = []
              \/ handler = [EvPrint (String.append x " failed to pull"); EvTraceback]) ->
             (forall thisid, ref_id r = Some thisid ->
                ~ (eb = None
                   /\ (exists target, target_depth sb = DInt target /\ depth < target)
                   /\ 3 <= in_degree
                             (add_edge (eid abstract) (_eid_from_id thisid)
                                (citation_graph sb)) (_eid_from_id thisid))) ->
             exists w' s' out exn,
               pull_abstract remote w s x depth report flags = Some (w', s', out, exn)
               /\ (ref_id r = None ->
                   forall y d rest, out <> pre ++ outb ++ EvCall y d :: rest)
               /\ forall thisid, ref_id r = Some thisid ->
                    let reference_eid := _eid_from_id thisid in
                    let se := set_citation_graph
                                (add_edge (eid abstract) reference_eid
                                   (citation_graph sb)) sb in
                    let gate :=
                      eb = None
                      /\ (exists target, target_depth sb = DInt target /\ depth < target)
                      /\ 3 <= in_degree (citation_graph se) reference_eid in
                    ((exists rest,
                         out = pre ++ outb ++ EvCall reference_eid (depth + 1) :: rest)
                     <-> gate)
                    /\ (gate ->
                        exists w1 s1 out1 exn1 rest,
                          pull_abstract remote wb se reference_eid (depth + 1) false
                            default_flags_pull_abstract = Some (w1, s1, out1, exn1)
                          /\ out = pre ++ outb
                                   ++ EvCall reference_eid (depth + 1) :: out1 ++ rest)).
  { intros w' s' exn handler E Hh Hshut.
    exists w', s', (pre ++ outb ++ handler), exn. split; [exact E|]. split.
    - intros _ y d rest. apply Hnocall, Hh.
    - intros thisid Hid reference_eid se gate.
      assert (Hn : ~ gate) by exact (Hshut thisid Hid).
      split; [split|].
      + intros [rest Hrest]. exfalso. exact (Hnocall handler _ _ rest Hh Hrest).
      + intros Hg. contradiction.
      + intros Hg. contradiction. }
  destruct eb as [e|].
  { destruct Hunchecked as (w' & s' & exn & handler & E & Hh); [left; discriminate|].
    apply (Hdone w' s' exn handler E Hh). intros thisid _ [H _]. discriminate. }
  destruct (ref_id r) as [thisid|] eqn:Hid.
  2:{ destruct Hunchecked as (w' & s' & exn & handler & E & Hh); [right; left; reflexivity|].
      apply (Hdone w' s' exn handler E Hh). intros thisid Hid'. discriminate. }
  destruct (target_depth sb) as [target|l] eqn:Htd.
  2:{ destruct Hunchecked as (w' & s' & exn & handler & E & Hh);
        [right; right; eauto|].
      apply (Hdone w' s' exn handler E Hh).
      intros thisid' _ (_ & [target [Ht _]] & _). discriminate. }
  (* the check is made *)
  clear Hunchecked Hdone.
  destruct (gate_at_reference abstract depth before r after w0 s0 wb sb outb
              thisid target Hbefore Hid Htd)
    as (w2 & s2 & tail & e2 & Eloop & Hopen & Hshut).
  destruct (pull_abstract_after_loop w s x depth report flags abstract w0 s0 pre
              w2 s2 (outb ++ tail) e2 Hhand) as (w' & s' & exn & handler & E & Hh).
  { unfold pull_references. rewrite Hrefs. exact Eloop. }
  exists w', s', (pre ++ (outb ++ tail) ++ handler), exn.
  split; [exact E|]. split; [discriminate|].
  intros thisid' Hid'. inversion Hid'; subst thisid'. clear Hid'.
  intros reference_eid se gate.
  fold reference_eid se in Hopen, Hshut.
  set (gate0 := depth < target /\ 3 <= in_degree (citation_graph se) reference_eid)
    in Hopen, Hshut.
  assert (Hiff : gate <-> gate0).
  { unfold gate, gate0. split.
    - intros (_ & [t [Ht Hlt]] & Hdeg). inversion Ht; subst t. split; assumption.
    - intros [Hlt Hdeg]. split; [reflexivity|]. split; [eauto | exact Hdeg]. }
  assert (Hdec : gate0 \/ ~ gate0).
  { unfold gate0. destruct (Z.ltb_spec depth target) as [L1|L1];
      destruct (Z.leb_spec 3 (in_degree (citation_graph se) reference_eid)) as [L2|L2];
      [left; split; assumption | right; intros [_ L3]; lia
       | right; intros [L3 _]; lia | right; intros [L3 _]; lia]. }
  split; [split|].
  - intros [rest Hrest]. apply Hiff. destruct Hdec as [Hg|Hn]; [exact Hg|]. exfalso.
    rewrite <- app_assoc in Hrest.
    apply app_inv_head in Hrest. apply app_inv_head in Hrest.
    destruct tail as [|ev tail].
    + destruct Hh as [-> | ->]; discriminate.
    + simpl in Hrest. inversion Hrest; subst. exact (Hshut Hn tail eq_refl).
  - intros Hg. apply Hiff in Hg.
    destruct (Hopen Hg) as (w1 & s1 & out1 & exn1 & rest & _ & ->).
    exists (out1 ++ rest ++ handler).
    repeat (rewrite <- app_assoc || rewrite <- app_comm_cons). reflexivity.
  - intros Hg. apply Hiff in Hg.
    destruct (Hopen Hg) as (w1 & s1 & out1 & exn1 & rest & E1 & ->).
    exists w1, s1, out1, exn1, (rest ++ handler). split; [exact E1|].
    repeat (rewrite <- app_assoc || rewrite <- app_comm_cons). reflexivity.
Qed.

(** *** Batches, authors and sequences of calls *)

Lemma set_target_depth_same (s : Session) : set_target_depth (target_depth s) s = s.
Proof. destruct s; reflexivity. Qed.

Lemma set_citation_graph_same (s : Session) : set_citation_graph (citation_graph s) s = s.
Proof. destruct s; reflexivity. Qed.

Lemma add_documents_loop_steps total eidlist fl :
  forall place w s w' s' out exn,
    add_documents_loop remote total place eidlist fl w s = Some (w', s', out, exn) ->
    steps (w, s) (w', s').
Proof.
  induction eidlist as [|x rest IH]; simpl; intros place w s w' s' out exn H.
  - inversion H; subst. apply rtc_refl.
  - destruct (add_document remote w s x false fl) as [[[[w1 s1] o1] [e1|]]|] eqn:E1;
      [| |discriminate].
    + inversion H; subst. eapply pull_abstract_steps, E1.
    + destruct (add_documents_loop remote total (S place) rest fl w1 s1)
        as [[[[w2 s2] o2] e2]|] eqn:E2; [|discriminate].
      inversion H; subst. eapply rtc_trans.
      * eapply pull_abstract_steps, E1.
      * eapply IH, E2.
Qed.

Lemma add_documents_loop_total total eidlist fl :
  forall place w s,
    exists o, add_documents_loop remote total place eidlist fl w s = Some o.
Proof.
  induction eidlist as [|x rest IH]; simpl; intros place w s; [eauto|].
  destruct (pull_abstract_total w s x 0 false fl) as (w1 & s1 & o1 & e1 & E1).
  unfold add_document. rewrite E1. destruct e1 as [e1|]; [eauto|].
  destruct (IH (S place) w1 s1) as [[[[w2 s2] o2] e2] E2]. rewrite E2. eauto.
Qed.

Lemma add_documents_total w s eidlist td fl :
  exists o, add_documents remote w s eidlist td fl = Some o.
Proof. unfold add_documents. apply add_documents_loop_total. Qed.

Lemma pull_author_total w s a fl :
  exists o, pull_author remote remote_author w s a fl = Some o.
Proof.
  unfold pull_author. destruct (remote_author (requests w) a) as [| |[newdocs|]]; eauto.
  destruct (add_documents_total (count_request w) s (inr newdocs) (Some (DDict fl))
              default_flags_add_documents) as [[[[w1 s1] o1] [e1|]] E]; rewrite E; eauto.
Qed.

Lemma pull_authors_loop_total total auidlist fl :
  forall place w s,
    exists o, pull_authors_loop remote remote_author total place auidlist fl w s = Some o.
Proof.
  induction auidlist as [|a rest IH]; simpl; intros place w s; [eauto|].
  destruct (pull_author_total w s a fl) as [[[[w1 s1] o1] [e1|]] E1]; rewrite E1; [eauto|].
  destruct (IH (S place) w1 s1) as [[[[w2 s2] o2] e2] E2]. rewrite E2. eauto.
Qed.

Lemma run_call_total w s c : exists o, run_call remote remote_author w s c = Some o.
Proof.
  destruct c as [x d r fl | x r fl | l td fl | a fl | l fl]; simpl.
  - apply pull_abstract_total_rec.
  - apply pull_abstract_total_rec.
  - apply add_documents_total.
  - apply pull_author_total.
  - apply pull_authors_loop_total.
Qed.

Lemma run_calls_total cs :
  forall w s, exists o, run_calls remote remote_author cs w s = Some o.
Proof.
  induction cs as [|c cs IH]; intros w s; simpl; [eauto|].
  destruct (run_call_total w s c) as [[[[w1 s1] o1] e1] E1]. rewrite E1.
  destruct (IH w1 s1) as [[[w2 s2] o2] E2]. rewrite E2. eauto.
Qed.

Section Preserve.

(** A property of store and session that every elementary step keeps
    and that does not depend on the target depth. *)
Variable P : World * Session -> Prop.
Hypothesis P_step : forall a b, engine_step a b -> P a -> P b.
Hypothesis P_depth : forall w s d, P (w, s) -> P (w, set_target_depth d s).

Lemma add_documents_preserve w s eidlist td fl w' s' out exn :
  add_documents remote w s eidlist td fl = Some (w', s', out, exn) ->
  P (w, s) -> P (w', s').
Proof.
  unfold add_documents. intros H HP. apply add_documents_loop_steps in H.
  eapply (steps_preserve P P_step); [exact H|]. apply P_depth, HP.
Qed.

Lemma pull_author_preserve w s a fl w' s' out exn :
  pull_author remote remote_author w s a fl = Some (w', s', out, exn) ->
  P (w, s) -> P (w', s').
Proof.
  unfold pull_author. intros H HP.
  assert (HP1 : P (count_request w, s)) by (eapply P_step; [apply step_request | exact HP]).
  destruct (remote_author (requests w) a) as [| |[newdocs|]].
  - inversion H; subst. exact HP1.
  - inversion H; subst. exact HP1.
  - destruct (add_documents remote (count_request w) s (inr newdocs) (Some (DDict fl))
                default_flags_add_documents) as [[[[w1 s1] o1] [e1|]]|] eqn:E;
      [| |discriminate]; inversion H; subst;
      eapply add_documents_preserve; eassumption.
  - inversion H; subst. exact HP1.
Qed.

Lemma pull_authors_loop_preserve total auidlist fl :
  forall place w s w' s' out exn,
    pull_authors_loop remote remote_author total place auidlist fl w s
      = Some (w', s', out, exn) ->
    P (w, s) -> P (w', s').
Proof.
  induction auidlist as [|a rest IH]; simpl; intros place w s w' s' out exn H HP.
  - inversion H; subst. exact HP.
  - destruct (pull_author remote remote_author w s a fl)
      as [[[[w1 s1] o1] [e1|]]|] eqn:E1; [| |discriminate].
    + inversion H; subst. eapply pull_author_preserve; eassumption.
    + destruct (pull_authors_loop remote remote_author total (S place) rest fl w1 s1)
        as [[[[w2 s2] o2] e2]|] eqn:E2; [|discriminate].
      inversion H; subst. eapply IH; [exact E2|].
      eapply pull_author_preserve; eassumption.
Qed.

Lemma run_call_preserve w s c w' s' out exn :
  run_call remote remote_author w s c = Some (w', s', out, exn) ->
  P (w, s) -> P (w', s').
Proof.
  destruct c as [x d r fl | x r fl | l td fl | a fl | l fl]; simpl; intros H HP.
  - eapply (steps_preserve P P_step); [eapply pull_abstract_steps, H | exact HP].
  - eapply (steps_preserve P P_step); [eapply pull_abstract_steps, H | exact HP].
  - eapply add_documents_preserve; eassumption.
  - eapply pull_author_preserve; eassumption.
  - eapply pull_authors_loop_preserve; eassumption.
Qed.

(** What holds before a sequence of calls holds after it. *)
Lemma run_calls_preserve cs :
  forall w s w' s' out,
    run_calls remote remote_author cs w s = Some (w', s', out) -> P (w, s) -> P (w', s').
Proof.
  induction cs as [|c cs IH]; simpl; intros w s w' s' out H HP.
  - inversion H; subst. exact HP.
  - destruct (run_call remote remote_author w s c) as [[[[w1 s1] o1] e1]|] eqn:E1;
      [|discriminate].
    destruct (run_calls remote remote_author cs w1 s1) as [[[w2 s2] o2]|] eqn:E2;
      [|discriminate].
    inversion H; subst. eapply IH; [exact E2|]. eapply run_call_preserve; eassumption.
Qed.

End Preserve.

(** *** No record twice *)

Lemma pull_reference_fresh (rec : Rec) abstract depth r :
  rec_fresh rec ->
  forall w s w' s' out exn x,
    In x (map eid (docs w s)) ->
    pull_reference rec abstract depth r w s = Some (w', s', out, exn) ->
    ~ In (EvRetrieve x) out.
Proof.
  intros Hfresh w s w' s' out exn x Hx. unfold pull_reference.
  destruct (ref_id r) as [thisid|]; [|intros H; inversion H; subst; intros []].
  cbv zeta. set (sE := set_citation_graph _ s).
  destruct (target_depth sE) as [target|l]; [|intros H; inversion H; subst; intros []].
  destruct (depth <? target);
    [destruct (min_indegree_to_pull <=? in_degree (citation_graph sE) _)|];
    try (intros H; inversion H; subst; intros []).
  destruct (rec w sE _ _ _ _) as [[[[w3 s3] o3] e3]|] eqn:E3; [|discriminate].
  intros H. inversion H; subst. intros [H1|H1]; [discriminate|].
  eapply Hfresh; [|exact E3|exact H1]. exact Hx.
Qed.

Lemma for_references_fresh (rec : Rec) abstract depth refs :
  rec_steps rec -> rec_fresh rec ->
  forall w s w' s' out exn x,
    In x (map eid (docs w s)) ->
    for_references rec abstract depth refs w s = Some (w', s', out, exn) ->
    ~ In (EvRetrieve x) out.
Proof.
  intros Hsteps Hfresh.
  induction refs as [|r0 refs IH]; simpl; intros w s w' s' out exn x Hx H.
  - inversion H; subst. intros [].
  - destruct (pull_reference rec abstract depth r0 w s)
      as [[[[w1 s1] o1] [e1|]]|] eqn:E1; [| |discriminate].
    + inversion H; subst. eapply pull_reference_fresh; eassumption.
    + destruct (for_references rec abstract depth refs w1 s1)
        as [[[[w2 s2] o2] e2]|] eqn:E2; [|discriminate].
      inversion H; subst. rewrite in_app_iff. intros [H1|H2].
      * revert H1. eapply pull_reference_fresh; eassumption.
      * eapply (IH w1 s1); [|exact E2|exact H2].
        apply (steps_docs_mono (w, s) (w1, s1)); [|exact Hx].
        eapply pull_reference_steps; eassumption.
Qed.

Lemma pull_references_fresh (rec : Rec) depth abstract :
  rec_steps rec -> rec_fresh rec ->
  forall w s w' s' out exn x,
    In x (map eid (docs w s)) ->
    pull_references rec depth abstract w s = Some (w', s', out, exn) ->
    ~ In (EvRetrieve x) out.
Proof.
  intros Hsteps Hfresh w s w' s' out exn x Hx. unfold pull_references.
  destruct (references abstract) as [refs|].
  - eapply for_references_fresh; eassumption.
  - intros H. inversion H; subst. intros [].
Qed.

Lemma not_in_shown (report : bool) (a : Abstract) (x : string) :
  ~ In (EvRetrieve x) (if report then [EvPrintAbstract a] else []).
Proof. destruct report; simpl; [intros [H|[]]; discriminate | intros []]. Qed.

Lemma record_pull_shown a report fl w s w1 s1 shown exn :
  record_pull a report fl w s = (w1, s1, shown, exn) ->
  shown = [] \/ shown = [EvPrintAbstract a].
Proof.
  intros H. unfold record_pull in H. cbv zeta in H.
  destruct (coverDate a) as [date|].
  - destruct (add_authors a _) as [g e]. inversion H; subst.
    destruct report; auto.
  - inversion H; subst. auto.
Qed.

Lemma pull_abstract_fuel_fresh (fuel : nat) : rec_fresh (pull_abstract_fuel remote fuel).
Proof.
  induction fuel as [|fuel IH]; intros w s y d r fl w' s' out exn x Hx; [discriminate|].
  rewrite pull_abstract_fuel_S.
  destruct (is_repeat (docs w s) y) as [[|] m] eqn:Hrep.
  - destruct m as [m|].
    + eapply pull_references_fresh; [apply pull_abstract_fuel_steps | exact IH | exact Hx].
    + intros H. inversion H; subst. intros [].
  - assert (Hne : EvRetrieve y <> EvRetrieve x).
    { intros E. inversion E; subst. exact (is_repeat_false _ _ _ Hrep Hx). }
    destruct (remote (requests w) y) as [| |abstract] eqn:Hrem.
    + unfold failed_to_pull. intros H. inversion H; subst. simpl.
      intros [E|[E|[E|[]]]]; congruence.
    + intros H. inversion H; subst. simpl. intros [E|[]]. congruence.
    + destruct (record_pull abstract r fl (count_request w) s)
        as [[[w1 s1] shown] e1] eqn:Hrp.
      assert (Hshown : ~ In (EvRetrieve x) shown).
      { destruct (record_pull_shown _ _ _ _ _ _ _ _ _ Hrp) as [-> | ->];
          simpl; [intros [] | intros [E|[]]; discriminate]. }
      assert (Hx1 : In x (map eid (docs w1 s1))).
      { apply (steps_docs_mono (w, s) (w1, s1)); [|exact Hx].
        apply rtc_once. eapply step_record; [|exact Hrem|exact Hrp].
        eapply is_repeat_false, Hrep. }
      destruct e1 as [e1|].
      * unfold failed_to_pull. intros H. inversion H; subst.
        simpl. rewrite in_app_iff. simpl.
        intros [E|[E|[E|[E|[]]]]]; solve [congruence | exact (Hshown E)].
      * destruct (pull_references (pull_abstract_fuel remote fuel) d abstract w1 s1)
          as [[[[w2 s2] o2] e2]|] eqn:E; [|discriminate].
        assert (Ho2 : ~ In (EvRetrieve x) o2).
        { eapply pull_references_fresh;
            [apply pull_abstract_fuel_steps | exact IH | exact Hx1 | exact E]. }
        destruct e2 as [e2|]; unfold failed_to_pull; intros H; inversion H; subst.
        -- simpl. rewrite !in_app_iff. simpl.
           intros [E0|[[E0|E0]|[E0|[E0|[]]]]]; solve [congruence | tauto].
        -- simpl. rewrite in_app_iff.
           intros [E0|[E0|E0]]; solve [congruence | tauto].
Qed.

(** C3, as amended.  Let the retrieval service answer a request for an
    id with the record of that id.  Then any sequence of calls of
    [pull_abstract], [add_document], [add_documents], [pull_author] and
    [pull_authors] on a session whose documents list is empty runs to
    its end and leaves a documents list in which no two records have
    the same [eid]; and a further [pull_abstract] for an id that is in
    the list sends no retrieval for it and leaves the list without
    duplicates. *)
Theorem record_store_one_record_per_id cs w s :
  remote_faithful ->
  docs w s = [] ->
  exists w' s' out,
    run_calls remote remote_author cs w s = Some (w', s', out)
    /\ List.NoDup (map eid (docs w' s'))
    /\ forall x depth report fl,
         In x (map eid (docs w' s')) ->
         exists w2 s2 out2 exn2,
           pull_abstract remote w' s' x depth report fl = Some (w2, s2, out2, exn2)
           /\ ~ In (EvRetrieve x) out2
           /\ List.NoDup (map eid (docs w2 s2)).
Proof.
  intros Hf Hempty.
  assert (Hstep : forall a b, engine_step a b ->
            List.NoDup (map eid (docs (fst a) (snd a))) ->
            List.NoDup (map eid (docs (fst b) (snd b)))).
  { intros a b Hab. apply (steps_nodup a b Hf), rtc_once, Hab. }
  destruct (run_calls_total cs w s) as [[[w' s'] out] E].
  assert (Hnd : List.NoDup (map eid (docs w' s'))).
  { apply (run_calls_preserve
             (fun c => List.NoDup (map eid (docs (fst c) (snd c)))) Hstep
             (fun w0 s0 d H => H) cs w s w' s' out E).
    simpl. rewrite Hempty. apply List.NoDup_nil. }
  exists w', s', out. split; [exact E|]. split; [exact Hnd|].
  intros x depth report fl Hx.
  destruct (pull_abstract_total w' s' x depth report fl) as (w2 & s2 & out2 & exn2 & E2).
  exists w2, s2, out2, exn2. split; [exact E2|]. split.
  - eapply pull_abstract_fuel_fresh; [exact Hx | exact E2].
  - apply (steps_nodup (w', s') (w2, s2) Hf); [|exact Hnd].
    eapply pull_abstract_steps, E2.
Qed.

(** *** At the target depth *)

Lemma for_references_at_depth_limit (rec : Rec) abstract depth refs :
  forall w s,
    depth_reached s depth ->
    exists s' exn,
      for_references rec abstract depth refs w s = Some (w, s', [], exn).
Proof.
  induction refs as [|r refs IH]; intros w s Hd; simpl; [eauto|].
  unfold pull_reference. destruct (ref_id r) as [thisid|]; [|eauto].
  cbv zeta. set (s1 := set_citation_graph _ s).
  change (target_depth s1) with (target_depth s).
  destruct (target_depth s) as [target|l] eqn:Htd; [|eauto].
  destruct (Z.ltb_spec depth target) as [Hlt|_]; [specialize (Hd target Htd); lia|].
  destruct (IH w s1) as (s' & exn & E).
  { intros t Ht. apply Hd. exact Ht. }
  rewrite E. eauto.
Qed.

Lemma pull_references_at_depth_limit (rec : Rec) depth abstract w s :
  depth_reached s depth ->
  exists s' exn, pull_references rec depth abstract w s = Some (w, s', [], exn).
Proof.
  intros Hd. unfold pull_references. destruct (references abstract) as [refs|].
  - apply for_references_at_depth_limit, Hd.
  - eauto.
Qed.

Lemma not_call_in_shown (shown : list Event) (a : Abstract) :
  shown = [] \/ shown = [EvPrintAbstract a] ->
  (forall y d, ~ In (EvCall y d) shown) /\ (forall y, ~ In (EvRetrieve y) shown).
Proof.
  intros [-> | ->]; split; intros; simpl; try tauto; intros [H|[]]; discriminate.
Qed.

Lemma pull_abstract_at_depth_limit w s x depth report fl :
  depth_reached s depth ->
  exists w' s' out exn,
    pull_abstract remote w s x depth report fl = Some (w', s', out, exn)
    /\ (forall y d, ~ In (EvCall y d) out)
    /\ (forall y, In (EvRetrieve y) out -> y = x)
    /\ (requests w' <= S (requests w))%nat.
Proof.
  intros Hd. rewrite pull_abstract_unfold.
  destruct (is_repeat (docs w s) x) as [[|] m].
  - destruct m as [m|].
    + destruct (pull_references_at_depth_limit (pull_abstract remote) depth m w s Hd)
        as (s' & exn & E).
      rewrite E. exists w, s', [], exn. split; [reflexivity|].
      split; [intros y d []|]. split; [intros y []|]. apply Nat.le_succ_diag_r.
    + exists w, s, [], None. split; [reflexivity|].
      split; [intros y d []|]. split; [intros y []|]. apply Nat.le_succ_diag_r.
  - destruct (remote (requests w) x) as [| |abstract].
    + unfold failed_to_pull. do 4 eexists. split; [reflexivity|]. simpl. split; [|split].
      * intros y d [H|[H|[H|[]]]]; discriminate.
      * intros y [H|[H|[H|[]]]]; congruence.
      * apply Nat.le_refl.
    + do 4 eexists. split; [reflexivity|]. simpl. split; [|split].
      * intros y d [H|[]]; discriminate.
      * intros y [H|[]]; congruence.
      * apply Nat.le_refl.
    + destruct (record_pull abstract report fl (count_request w) s)
        as [[[w1 s1] shown] e1] eqn:Hrp.
      destruct (record_pull_session _ _ _ _ _ _ _ _ _ Hrp) as (_ & _ & Htd1 & _ & _ & Hw1 & _).
      destruct (not_call_in_shown shown abstract (record_pull_shown _ _ _ _ _ _ _ _ _ Hrp))
        as [Hc Hr].
      assert (Hd1 : depth_reached s1 depth).
      { intros t Ht. apply Hd. rewrite <- Htd1. exact Ht. }
      simpl in Hw1.
      destruct e1 as [e1|].
      * unfold failed_to_pull. do 4 eexists. split; [reflexivity|]. split; [|split].
        -- intros y d H. simpl in H. rewrite in_app_iff in H. simpl in H.
           destruct H as [H|[H|[H|[H|[]]]]]; try discriminate. exact (Hc y d H).
        -- intros y H. simpl in H. rewrite in_app_iff in H. simpl in H.
           destruct H as [H|[H|[H|[H|[]]]]]; try discriminate; [congruence|].
           exfalso. exact (Hr y H).
        -- rewrite Hw1. apply Nat.le_refl.
      * destruct (pull_references_at_depth_limit (pull_abstract remote)
                    depth abstract w1 s1 Hd1) as (s' & exn & E).
        rewrite E. destruct exn as [e|]; unfold failed_to_pull;
          do 4 eexists; (split; [reflexivity|]); rewrite app_nil_r; (split; [|split]).
        -- intros y d H. simpl in H. rewrite in_app_iff in H. simpl in H.
           destruct H as [H|[H|[H|[H|[]]]]]; try discriminate. exact (Hc y d H).
        -- intros y H. simpl in H. rewrite in_app_iff in H. simpl in H.
           destruct H as [H|[H|[H|[H|[]]]]]; try discriminate; [congruence|].
           exfalso. exact (Hr y H).
        -- rewrite Hw1. apply Nat.le_refl.
        -- intros y d [H|H]; [discriminate | exact (Hc y d H)].
        -- intros y [H|H]; [congruence | exfalso; exact (Hr y H)].
        -- rewrite Hw1. apply Nat.le_refl.
Qed.

(** X4.  When no nested call can follow at [depth] -- the target depth
    has been reached, or is no number -- a pull sends at most the one
    retrieval for the id it was called with. *)
Theorem pull_abstract_at_target_depth w s x depth report fl :
  depth_reached s depth ->
  exists w' s' out exn,
    pull_abstract remote w s x depth report fl = Some (w', s', out, exn)
    /\ (forall y d, ~ In (EvCall y d) out)
    /\ (forall y, In (EvRetrieve y) out -> y = x)
    /\ (requests w' <= S (requests w))%nat.
Proof. apply pull_abstract_at_depth_limit. Qed.

Lemma add_documents_loop_at_depth_limit total fl :
  forall eidlist place w s,
    depth_reached s 0 ->
    exists w' s' out exn,
      add_documents_loop remote total place eidlist fl w s = Some (w', s', out, exn)
      /\ (forall y d, ~ In (EvCall y d) out)
      /\ (forall y, In (EvRetrieve y) out -> In y eidlist)
      /\ (requests w' <= requests w + length eidlist)%nat.
Proof.
  induction eidlist as [|x rest IH]; intros place w s Hd; simpl.
  - exists w, s, [], None. split; [reflexivity|]. split; [intros y d []|].
    split; [intros y []|]. rewrite Nat.add_0_r. apply Nat.le_refl.
  - destruct (pull_abstract_at_depth_limit w s x 0 false fl Hd)
      as (w1 & s1 & o1 & e1 & E1 & C1 & R1 & Q1).
    unfold add_document. rewrite E1. destruct e1 as [e1|].
    + exists w1, s1, o1, (Some e1). split; [reflexivity|]. split; [exact C1|].
      split; [intros y H; left; symmetry; exact (R1 y H) | lia].
    + assert (Hd1 : depth_reached s1 0).
      { pose proof (pull_abstract_steps _ _ _ _ _ _ _ _ _ _ E1) as S1.
        apply steps_target_depth in S1. simpl in S1.
        intros t Ht. apply Hd. rewrite <- S1. exact Ht. }
      destruct (IH (S place) w1 s1 Hd1) as (w2 & s2 & o2 & e2 & E2 & C2 & R2 & Q2).
      rewrite E2. exists w2, s2, (o1 ++ EvProgress place total :: o2), e2.
      split; [reflexivity|]. split; [|split].
      * intros y d H. apply in_app_iff in H. destruct H as [H|[H|H]].
        -- exact (C1 y d H).
        -- discriminate.
        -- exact (C2 y d H).
      * intros y H. apply in_app_iff in H. destruct H as [H|[H|H]].
        -- left. symmetry. exact (R1 y H).
        -- discriminate.
        -- right. exact (R2 y H).
      * lia.
Qed.

(** X5.  A batch on a session whose target depth, after the call's own
    setting of it, is not a positive number: only listed ids are
    retrieved, no nested call is made, and at most one request per
    listed id is sent. *)
Theorem add_documents_without_depth w s eidlist target_depth_arg fl :
  (forall target,
     match target_depth_arg with
     | Some d => if truthy w d then d else target_depth s
     | None => target_depth s
     end = DInt target -> target <= 0) ->
  exists w' s' out exn,
    add_documents remote w s eidlist target_depth_arg fl = Some (w', s', out, exn)
    /\ (forall y d, ~ In (EvCall y d) out)
    /\ (forall y, In (EvRetrieve y) out ->
          In y (match eidlist with inl x => [x] | inr l => l end))
    /\ (requests w'
        <= requests w + length (match eidlist with inl x => [x] | inr l => l end))%nat.
Proof.
  intros Hd. unfold add_documents. apply add_documents_loop_at_depth_limit. exact Hd.
Qed.

(** X6.  An id whose retrieval raises is tried again by the next call
    and is appended to the fail list each time. *)
Theorem failed_id_is_recorded_each_time w s x depth report fl :
  ~ In x (map eid (docs w s)) ->
  remote (requests w) x = FetchRaise ->
  remote (S (requests w)) x = FetchRaise ->
  exists w1 s1 out1 w2 s2 out2,
    pull_abstract remote w s x depth report fl = Some (w1, s1, out1, None)
    /\ pull_abstract remote w1 s1 x depth report fl = Some (w2, s2, out2, None)
    /\ fails s2 = fails s ++ [x; x]
    /\ docs w2 s2 = docs w s
    /\ requests w2 = S (S (requests w)).
Proof.
  intros Hx H1 H2.
  assert (Hrep : is_repeat (docs w s) x = (false, None)).
  { destruct (is_repeat_spec (docs w s) x) as [[H _] | (m & _ & Hm & He)]; [exact H|].
    exfalso. apply Hx. rewrite <- He. apply in_map, Hm. }
  rewrite pull_abstract_unfold, Hrep, H1. unfold failed_to_pull.
  do 3 eexists. exists (count_request (count_request w)).
  exists (set_fails ((fails s ++ [x]) ++ [x]) s). eexists.
  split; [reflexivity|]. split.
  - rewrite pull_abstract_unfold.
    change (docs (count_request w) (set_fails (fails s ++ [x]) s)) with (docs w s).
    rewrite Hrep. change (requests (count_request w)) with (S (requests w)).
    rewrite H2. reflexivity.
  - simpl. rewrite <- app_assoc. auto.
Qed.

(** *** What holds when nothing is raised after the retrieval *)

(** X25.  A retrieval that raises leaves everything but [fails] and the
    request count as it was. *)
Lemma failed_retrieval_changes_fail_list_only w s x depth report fl :
  fst (is_repeat (docs w s) x) = false ->
  remote (requests w) x = FetchRaise ->
  exists w' s' out,
    pull_abstract remote w s x depth report fl = Some (w', s', out, None)
    /\ doc_lists w' = doc_lists w
    /\ dicts w' = dicts w
    /\ documents s' = documents s
    /\ citation_graph s' = citation_graph s
    /\ authorship_graph s' = authorship_graph s
    /\ fails s' = fails s ++ [x].
Proof.
  intros Hmiss Hrem. rewrite pull_abstract_unfold.
  destruct (is_repeat (docs w s) x) as [b m]. simpl in Hmiss. subst b.
  rewrite Hrem. unfold failed_to_pull. do 3 eexists. split; [reflexivity|].
  simpl. auto 10.
Qed.

(** A loop over the references that ends without an exception has made
    an edge to every one of them. *)
Lemma for_references_edges (rec : Rec) abstract depth refs :
  rec_steps rec ->
  forall w s w' s' out,
    for_references rec abstract depth refs w s = Some (w', s', out, None) ->
    forall r, In r refs ->
      exists thisid,
        ref_id r = Some thisid
        /\ has_edge (citation_graph s') (eid abstract) (_eid_from_id thisid) = true
        /\ has_node (citation_graph s') (_eid_from_id thisid) = true.
Proof.
  intros Hrec. induction refs as [|r0 refs IH]; simpl; intros w s w' s' out H r Hr.
  - destruct Hr.
  - destruct (pull_reference rec abstract depth r0 w s)
      as [[[[w1 s1] o1] [e1|]]|] eqn:E1; [discriminate| |discriminate].
    destruct (for_references rec abstract depth refs w1 s1)
      as [[[[w2 s2] o2] e2]|] eqn:E2; [|discriminate].
    inversion H; subst. destruct Hr as [<-|Hr]; [|eapply IH; eassumption].
    assert (S2 : steps (w1, s1) (w', s')) by (eapply for_references_steps; eassumption).
    revert E1. unfold pull_reference.
    destruct (ref_id r0) as [thisid|]; [|discriminate].
    cbv zeta. set (sE := set_citation_graph _ s).
    assert (HE : has_edge (citation_graph sE) (eid abstract) (_eid_from_id thisid) = true
                 /\ has_node (citation_graph sE) (_eid_from_id thisid) = true).
    { split; [apply has_edge_add_edge | apply has_node_add_edge_target]. }
    intros E1. exists thisid. split; [reflexivity|].
    assert (S1 : steps (w, sE) (w', s')).
    { destruct (target_depth sE) as [target|l]; [|discriminate].
      destruct (depth <? target);
        [destruct (min_indegree_to_pull <=? in_degree (citation_graph sE) _)|].
      - destruct (rec w sE _ _ _ _) as [[[[w3 s3] o3] e3]|] eqn:E3; [|discriminate].
        inversion E1; subst. eapply rtc_trans; [eapply Hrec, E3 | exact S2].
      - inversion E1; subst. exact S2.
      - inversion E1; subst. exact S2. }
    destruct HE as [H1 H2]. split.
    + apply (steps_has_edge _ _ _ _ S1). exact H1.
    + apply (steps_has_node _ _ _ S1). exact H2.
Qed.

(** *** Pulling a stored document again *)

Lemma for_references_at_depth_limit_strings (rec : Rec) abstract depth refs :
  forall w s target,
    target_depth s = DInt target -> target <= depth ->
    Forall (fun r => ref_id r <> None) refs ->
    for_references rec abstract depth refs w s
    = Some (w, set_citation_graph
                 (with_reference_edges (eid abstract) refs (citation_graph s)) s,
            [], None).
Proof.
  induction refs as [|r refs IH]; intros w s target Htd Hd Hids; simpl.
  - rewrite set_citation_graph_same. reflexivity.
  - inversion Hids as [|r' refs' Hr Hrest]; subst.
    unfold pull_reference. destruct (ref_id r) as [thisid|] eqn:Hid; [|congruence].
    cbv zeta. set (s1 := set_citation_graph _ s).
    change (target_depth s1) with (target_depth s). rewrite Htd.
    destruct (Z.ltb_spec depth target) as [Hlt|_]; [lia|].
    rewrite (IH w s1 target Htd Hd Hrest). unfold with_reference_edges. simpl.
    rewrite ?Hid. reflexivity.
Qed.

Lemma with_reference_edges_mono (u : string) (refs : list Reference) :
  forall g,
    (forall a b, has_edge g a b = true ->
       has_edge (with_reference_edges u refs g) a b = true)
    /\ (forall n, has_node g n = true ->
          has_node (with_reference_edges u refs g) n = true).
Proof.
  unfold with_reference_edges.
  induction refs as [|r refs IH]; intros g; simpl; [auto|].
  destruct (ref_id r) as [thisid|]; [|apply IH].
  destruct (IH (add_edge u (_eid_from_id thisid) g)) as [H1 H2]. split.
  - intros a b H. apply H1, has_edge_add_edge_mono, H.
  - intros n H. apply H2, has_node_add_edge_mono, H.
Qed.

Lemma with_reference_edges_all (u : string) (refs : list Reference) :
  forall g r thisid, In r refs -> ref_id r = Some thisid ->
    let g' := with_reference_edges u refs g in
    has_node g' u = true /\ has_node g' (_eid_from_id thisid) = true
    /\ has_edge g' u (_eid_from_id thisid) = true.
Proof.
  induction refs as [|r0 refs IH]; intros g r thisid Hr Hid; [destruct Hr|].
  destruct Hr as [->|Hr].
  - cbv zeta. unfold with_reference_edges. simpl. rewrite Hid.
    destruct (with_reference_edges_mono u refs (add_edge u (_eid_from_id thisid) g))
      as [H1 H2]. unfold with_reference_edges in H1, H2.
    split; [|split].
    + apply H2, has_node_add_edge_source.
    + apply H2, has_node_add_edge_target.
    + apply H1, has_edge_add_edge.
  - cbv zeta. unfold with_reference_edges. simpl.
    destruct (ref_id r0) as [i0|]; apply (IH _ r thisid Hr Hid).
Qed.

Lemma add_edge_present (g : DiGraph) (u v : string) :
  has_node g u = true -> has_node g v = true -> has_edge g u v = true ->
  add_edge u v g = g.
Proof.
  intros Hu Hv He. unfold add_edge. rewrite Hu, Hv, He. reflexivity.
Qed.

Lemma with_reference_edges_present (u : string) (refs : list Reference) :
  forall g,
    (forall r thisid, In r refs -> ref_id r = Some thisid ->
       has_node g u = true /\ has_node g (_eid_from_id thisid) = true
       /\ has_edge g u (_eid_from_id thisid) = true) ->
    with_reference_edges u refs g = g.
Proof.
  unfold with_reference_edges.
  induction refs as [|r refs IH]; intros g H; simpl; [reflexivity|].
  destruct (ref_id r) as [thisid|] eqn:Hid.
  - destruct (H r thisid (or_introl eq_refl) Hid) as (Hu & Hv & He).
    rewrite (add_edge_present g u _ Hu Hv He).
    apply IH. intros r' i' Hr'. apply H. right. exact Hr'.
  - apply IH. intros r' i' Hr'. apply H. right. exact Hr'.
Qed.

(** X7.  Pulling a stored document, whose references all have ids,
    at or beyond a numeric target depth: the call retrieves and prints
    nothing and returns; afterwards the citation graph is the one
    before with the edge from the document to each of its references
    added, and nothing else in store or session has changed.  A second
    such pull changes nothing at all. *)
Theorem cached_pull_is_idempotent w s x depth report fl m target :
  target_depth s = DInt target ->
  target <= depth ->
  is_repeat (docs w s) x = (true, Some m) ->
  Forall (fun r => ref_id r <> None) (default [] (references m)) ->
  let s1 := set_citation_graph
              (with_reference_edges (eid m) (default [] (references m))
                                    (citation_graph s)) s in
  pull_abstract remote w s x depth report fl = Some (w, s1, [], None)
  /\ (forall r thisid,
        In r (default [] (references m)) -> ref_id r = Some thisid ->
        has_edge (citation_graph s1) (eid m) (_eid_from_id thisid) = true)
  /\ (forall a b, has_edge (citation_graph s) a b = true ->
        has_edge (citation_graph s1) a b = true)
  /\ forall report' fl',
       pull_abstract remote w s1 x depth report' fl' = Some (w, s1, [], None).
Proof.
  intros Htd Hd Hrep Hids s1.
  assert (E1 : pull_abstract remote w s x depth report fl = Some (w, s1, [], None)).
  { rewrite pull_abstract_unfold, Hrep. unfold pull_references.
    destruct (references m) as [refs|] eqn:Hrefs.
    - simpl in Hids. apply (for_references_at_depth_limit_strings _ _ _ _ _ _ target);
        assumption.
    - subst s1. simpl. rewrite set_citation_graph_same. reflexivity. }
  split; [exact E1|]. split; [|split].
  - intros r thisid Hr Hid. subst s1. simpl.
    apply (with_reference_edges_all (eid m) _ (citation_graph s) r thisid Hr Hid).
  - intros a b H. subst s1. simpl. apply with_reference_edges_mono, H.
  - intros report' fl'. rewrite pull_abstract_unfold.
    change (docs w s1) with (docs w s). rewrite Hrep. unfold pull_references.
    destruct (references m) as [refs|] eqn:Hrefs; [|reflexivity].
    simpl in Hids.
    rewrite (for_references_at_depth_limit_strings _ _ _ _ w s1 target Htd Hd Hids).
    f_equal. f_equal. f_equal. subst s1. simpl.
    rewrite with_reference_edges_present; [reflexivity|].
    intros r thisid Hr Hid.
    apply (with_reference_edges_all (eid m) refs (citation_graph s) r thisid Hr Hid).
Qed.

(** *** The target depth *)

(** X3.  [add_documents] ends, by returning or by letting an exception
    out, and the session's target depth is then the argument passed if
    that was truthy, and otherwise the value the session had: the pulls
    of the batch never change it. *)
Theorem add_documents_target_depth w s eidlist target_depth_arg fl :
  exists w' s' out exn,
    add_documents remote w s eidlist target_depth_arg fl = Some (w', s', out, exn)
    /\ target_depth s'
       = match target_depth_arg with
         | Some d => if truthy w d then d else target_depth s
         | None => target_depth s
         end.
Proof.
  destruct (add_documents_total w s eidlist target_depth_arg fl)
    as [[[[w' s'] out] exn] E].
  exists w', s', out, exn. split; [exact E|].
  unfold add_documents in E. apply add_documents_loop_steps in E.
  apply steps_target_depth in E. simpl in E. exact E.
Qed.

(** X23.  [pull_author] with a [flags] dict that is not empty, for an
    author whose publications are found: the dict becomes the session's
    target depth, whatever it was, and [pull_author] returns. *)
Theorem pull_author_sets_target_depth w s a fl newdocs :
  remote_author (requests w) a = AuthorOk (Some newdocs) ->
  dict_at w fl <> [] ->
  exists w' s' out,
    pull_author remote remote_author w s a fl = Some (w', s', out, None)
    /\ target_depth s' = DDict fl.
Proof.
  intros Ha Hfl. unfold pull_author. rewrite Ha.
  destruct (add_documents_total (count_request w) s (inr newdocs) (Some (DDict fl))
              default_flags_add_documents) as [[[[w1 s1] o1] e1] E].
  rewrite E.
  assert (Htd : target_depth s1 = DDict fl).
  { unfold add_documents in E. apply add_documents_loop_steps in E.
    apply steps_target_depth in E. simpl in E. rewrite E.
    change (dict_at (count_request w) fl) with (dict_at w fl).
    destruct (dict_at w fl); [congruence | reflexivity]. }
  destruct e1 as [e1|]; do 3 eexists; (split; [reflexivity | exact Htd]).
Qed.

(** X24.  With a dict as target depth, pulling a stored document whose
    first reference has an id raises [TypeError] to the caller: the
    edge to that reference is made, the comparison of [depth] with the
    dict fails, and the other references are not looked at. *)
Theorem pull_of_stored_document_raises w s x depth report fl m r rest thisid l :
  target_depth s = DDict l ->
  is_repeat (docs w s) x = (true, Some m) ->
  references m = Some (r :: rest) ->
  ref_id r = Some thisid ->
  pull_abstract remote w s x depth report fl
  = Some (w,
          set_citation_graph
            (add_edge (eid m) (_eid_from_id thisid) (citation_graph s)) s,
          [], Some "TypeError").
Proof.
  intros Htd Hrep Hrefs Hid. rewrite pull_abstract_unfold, Hrep.
  unfold pull_references. rewrite Hrefs. simpl. unfold pull_reference.
  rewrite Hid. cbv zeta.
  change (target_depth (set_citation_graph _ s)) with (target_depth s).
  rewrite Htd. reflexivity.
Qed.

(** *** Invariants of call sequences *)

(** X8.  The documents list and the fail list only grow at their ends:
    whatever calls are made, what they held before is still there, in
    place, afterwards. *)
Theorem documents_and_fails_append_only cs w s w' s' out :
  run_calls remote remote_author cs w s = Some (w', s', out) ->
  (exists added, docs w' s' = docs w s ++ added)
  /\ (exists failed, fails s' = fails s ++ failed).
Proof.
  intros H.
  apply (run_calls_preserve
           (fun c => (exists added, docs (fst c) (snd c) = docs w s ++ added)
                     /\ (exists failed, fails (snd c) = fails s ++ failed)))
    with (cs := cs) (w := w) (s := s) (out := out); [| |exact H|].
  - intros a b Hab [[added Ha] [failed Hf]]. split.
    + destruct (engine_step_docs a b Hab) as [E|[abstract E]]; rewrite E, Ha.
      * eauto.
      * exists (added ++ [abstract]). rewrite app_assoc. reflexivity.
    + destruct Hab as [w0 s0 u v | w0 s0 x abstract report fl w1 s1 shown exn Hx Hrem Hrp
                       | | w0 s0 x]; simpl in *; eauto.
      * destruct (record_pull_session _ _ _ _ _ _ _ _ _ Hrp) as (_ & H2 & _).
        rewrite H2. eauto.
      * exists (failed ++ [x]). rewrite Hf, app_assoc. reflexivity.
  - intros w0 s0 d HP. exact HP.
  - split; exists []; rewrite app_nil_r; reflexivity.
Qed.

(** *** Nodes of stored records *)

Lemma dict_get_add_edge_existing (g : DiGraph) (u v n : string) (d : pydict attrval) :
  dict_get n (nodes g) = Some d ->
  dict_get n (nodes (add_edge u v g)) = Some d.
Proof.
  intros H.
  assert (A : forall g' k, dict_get n (nodes g') = Some d ->
                dict_get n (nodes (if has_node g' k then g'
                                   else mkDiGraph (nodes g' ++ [(k, [])]) (edges g')))
                = Some d).
  { intros g' k H'. destruct (has_node g' k); [exact H'|].
    simpl. rewrite dict_get_app, H'. reflexivity. }
  unfold add_edge. pose proof (A _ v (A g u H)) as H2.
  destruct (has_edge _ u v); exact H2.
Qed.

Lemma dict_get_add_node (g : DiGraph) (n : string) (attr : pydict attrval) :
  dict_get n (nodes (add_node n attr g))
  = Some (dict_update attr (default [] (dict_get n (nodes g)))).
Proof.
  unfold add_node. destruct (dict_get n (nodes g)) as [d|] eqn:E; simpl.
  - rewrite dict_get_set, String.eqb_refl. reflexivity.
  - rewrite dict_get_app, E. simpl. rewrite String.eqb_refl. reflexivity.
Qed.

Lemma dict_get_add_node_other (g : DiGraph) (m n : string) (attr : pydict attrval) :
  m <> n ->
  dict_get n (nodes (add_node m attr g)) = dict_get n (nodes g).
Proof.
  intros Hne. unfold add_node. destruct (dict_get m (nodes g)); simpl.
  - rewrite dict_get_set. destruct (String.eqb_spec m n); [contradiction | reflexivity].
  - rewrite dict_get_app. destruct (dict_get n (nodes g)); [reflexivity|].
    simpl. destruct (String.eqb_spec m n); [contradiction | reflexivity].
Qed.

(** A pull rewrites no entry of a dict object but [year]. *)
Lemma record_pull_dicts a report fl w s w1 s1 shown exn :
  record_pull a report fl w s = (w1, s1, shown, exn) ->
  forall l k, k <> "year" -> dict_get k (dict_at w1 l) = dict_get k (dict_at w l).
Proof.
  intros H l k Hk. record_pull_cases H; [|reflexivity].
  unfold dict_at, flags_update_year, append_document. simpl.
  destruct (Nat.eq_dec fl l) as [->|Hne].
  - destruct (dicts w !! l) as [d|] eqn:E.
    + rewrite list_lookup_insert_eq by (eapply lookup_lt_Some; exact E).
      simpl. rewrite dict_get_set.
      destruct (String.eqb_spec "year" k); [congruence|].
      unfold dict_at. simpl. rewrite E. reflexivity.
    + rewrite list_insert_ge by (apply lookup_ge_None; exact E).
      rewrite E. reflexivity.
  - rewrite list_lookup_insert_ne by exact Hne. reflexivity.
Qed.

(** X9.  Once a document is in the store, the dict of its node is never
    replaced or extended by a later call (the service answering a
    request for an id with the record of that id): every attribute of
    the node keeps its value, and [attr] stays bound to the same dict
    object.  Of the contents of dict objects, every entry but [year] is
    kept; [year] is what a later pull made with the same object
    rewrites. *)
Theorem stored_node_attributes_are_final cs w s w' s' out n d :
  remote_faithful ->
  In n (map eid (docs w s)) ->
  dict_get n (nodes (citation_graph s)) = Some d ->
  run_calls remote remote_author cs w s = Some (w', s', out) ->
  dict_get n (nodes (citation_graph s')) = Some d
  /\ forall l k, k <> "year" -> dict_get k (dict_at w' l) = dict_get k (dict_at w l).
Proof.
  intros Hf Hin Hd H.
  enough (HP : In n (map eid (docs w' s'))
               /\ dict_get n (nodes (citation_graph s')) = Some d
               /\ forall l k, k <> "year" ->
                    dict_get k (dict_at w' l) = dict_get k (dict_at w l))
    by apply HP.
  apply (run_calls_preserve
           (fun c => In n (map eid (docs (fst c) (snd c)))
                     /\ dict_get n (nodes (citation_graph (snd c))) = Some d
                     /\ forall l k, k <> "year" ->
                          dict_get k (dict_at (fst c) l) = dict_get k (dict_at w l)))
    with (cs := cs) (w := w) (s := s) (out := out); [| |exact H|auto].
  - intros a b Hab (Ha & Hg & Hk). split; [|split].
    + apply (steps_docs_mono a b n); [apply rtc_once, Hab | exact Ha].
    + destruct Hab as [w0 s0 u v | w0 s0 x abstract report fl w1 s1 shown exn Hx Hrem Hrp
                       | |]; try exact Hg.
      * simpl. apply dict_get_add_edge_existing, Hg.
      * cbn [fst snd] in *. rewrite (record_pull_citation_graph _ _ _ _ _ _ _ _ _ Hrp).
        destruct (coverDate abstract); [|exact Hg].
        rewrite dict_get_add_node_other; [exact Hg|].
        rewrite (Hf _ _ _ Hrem). intros ->. exact (Hx Ha).
    + destruct Hab as [w0 s0 u v | w0 s0 x abstract report fl w1 s1 shown exn Hx Hrem Hrp
                       | |]; try exact Hk.
      cbn [fst snd] in *. intros l k Hne.
      rewrite (record_pull_dicts _ _ _ _ _ _ _ _ _ Hrp l k Hne).
      apply (Hk l k Hne).
  - intros w0 s0 d0 HP. exact HP.
Qed.

(** X10.  Starting from an empty documents list, every stored record
    that has a cover date has a node in the citation graph, and that
    node has the attribute [attr] bound to a dict object.  (A record
    without cover date is stored too, but the pull is interrupted before
    its node is made.) *)
Theorem stored_records_have_nodes cs w s w' s' out :
  docs w s = [] ->
  run_calls remote remote_author cs w s = Some (w', s', out) ->
  forall a, In a (docs w' s') -> coverDate a <> None ->
    exists d fl,
      dict_get (eid a) (nodes (citation_graph s')) = Some d
      /\ dict_get "attr" d = Some (ARef fl).
Proof.
  intros Hempty H.
  apply (run_calls_preserve
           (fun c => forall a, In a (docs (fst c) (snd c)) -> coverDate a <> None ->
              exists d fl,
                dict_get (eid a) (nodes (citation_graph (snd c))) = Some d
                /\ dict_get "attr" d = Some (ARef fl)))
    with (cs := cs) (w := w) (s := s) (out := out); [| |exact H|].
  - intros a b Hab HP.
    destruct Hab as [w0 s0 u v | w0 s0 x abstract report fl w1 s1 shown exn Hx Hrem Hrp
                     | |]; try exact HP.
    + intros a Ha Hc. destruct (HP a Ha Hc) as (d & fl & H1 & H2).
      exists d, fl. split; [|exact H2]. simpl. apply dict_get_add_edge_existing, H1.
    + cbn [fst snd] in *. intros a Ha Hc.
      rewrite (record_pull_citation_graph _ _ _ _ _ _ _ _ _ Hrp).
      assert (Hcase : In a (docs w0 s0) \/ a = abstract).
      { destruct (record_pull_docs _ _ _ _ _ _ _ _ _ Hrp) as [E|[E _]];
          change (docs (count_request w0) s0) with (docs w0 s0) in E;
          rewrite E in Ha.
        - apply in_app_iff in Ha. destruct Ha as [Ha|[Ha|[]]]; auto.
        - destruct Ha. }
      destruct (coverDate abstract) as [date|] eqn:Hdate.
      * destruct (String.eqb_spec (eid abstract) (eid a)) as [Heq|Hne].
        -- rewrite <- Heq, dict_get_add_node. eexists _, fl. split; [reflexivity|].
           unfold dict_update. simpl. rewrite dict_get_set, String.eqb_refl. reflexivity.
        -- destruct Hcase as [Hold| ->]; [|congruence].
           rewrite dict_get_add_node_other by exact Hne. apply HP; assumption.
      * destruct Hcase as [Hold| ->]; [|congruence]. apply HP; assumption.
  - intros w0 s0 d0 HP. exact HP.
  - simpl. rewrite Hempty. intros a [].
Qed.

(** *** Authors *)

Lemma has_edge_add_node (g : DiGraph) (n : string) (attr : pydict attrval) (a b : string) :
  has_edge (add_node n attr g) a b = has_edge g a b.
Proof. unfold has_edge. rewrite edges_add_node. reflexivity. Qed.

Lemma author_loop_mono (e : string) (l : list Author) :
  forall g a b,
    has_edge g a b = true -> has_edge (fst (author_loop e l g)) a b = true.
Proof.
  induction l as [|au l IH]; intros g a b H; simpl; [exact H|].
  destruct (auid au) as [i|]; [|exact H].
  apply IH, has_edge_add_edge_mono. rewrite has_edge_add_node. exact H.
Qed.

Lemma add_authors_mono (abstract : Abstract) (g : DiGraph) (a b : string) :
  has_edge g a b = true -> has_edge (fst (add_authors abstract g)) a b = true.
Proof.
  intros H. unfold add_authors. destruct (authors abstract) as [l|]; [|exact H].
  apply author_loop_mono. rewrite has_edge_add_node. exact H.
Qed.

(** The author loop reaches an author when all authors before it have
    an [auid]. *)
Lemma author_loop_edges (e : string) (l : list Author) :
  forall g before author rest i,
    l = before ++ author :: rest ->
    Forall (fun au => auid au <> None) before ->
    auid author = Some i ->
    has_edge (fst (author_loop e l g)) e i = true.
Proof.
  induction l as [|au l IH]; intros g before author rest i Hl Hb Hi.
  - destruct before; discriminate.
  - destruct before as [|b before]; simpl in Hl; inversion Hl; subst; simpl.
    + rewrite Hi. apply author_loop_mono, has_edge_add_edge.
    + inversion Hb as [|? ? Hb1 Hb2]; subst.
      destruct (auid b) as [j|]; [|congruence].
      eapply IH; [reflexivity | exact Hb2 | exact Hi].
Qed.

Lemma add_authors_edges (abstract : Abstract) (g : DiGraph) before author rest i :
  authors abstract = Some (before ++ author :: rest) ->
  Forall (fun au => auid au <> None) before ->
  auid author = Some i ->
  has_edge (fst (add_authors abstract g)) (eid abstract) i = true.
Proof.
  intros Hl Hb Hi. unfold add_authors. rewrite Hl.
  eapply author_loop_edges; [reflexivity | exact Hb | exact Hi].
Qed.

(** X11.  Starting from an empty documents list, the authorship graph
    has an edge from every stored record that has a cover date to each
    author of its author list that has an [auid] and comes after
    authors with an [auid] only.  (The pull of a record without cover
    date is interrupted before its authors are looked at, and an author
    without [auid] interrupts the loop over the authors.) *)
Theorem stored_records_have_author_edges cs w s w' s' out :
  docs w s = [] ->
  run_calls remote remote_author cs w s = Some (w', s', out) ->
  forall a before author rest i,
    In a (docs w' s') ->
    coverDate a <> None ->
    authors a = Some (before ++ author :: rest) ->
    Forall (fun au => auid au <> None) before ->
    auid author = Some i ->
    has_edge (authorship_graph s') (eid a) i = true.
Proof.
  intros Hempty H.
  apply (run_calls_preserve
           (fun c => forall a before author rest i,
              In a (docs (fst c) (snd c)) ->
              coverDate a <> None ->
              authors a = Some (before ++ author :: rest) ->
              Forall (fun au => auid au <> None) before ->
              auid author = Some i ->
              has_edge (authorship_graph (snd c)) (eid a) i = true))
    with (cs := cs) (w := w) (s := s) (out := out); [| |exact H|].
  - intros a b Hab HP.
    destruct Hab as [w0 s0 u v | w0 s0 x abstract report fl w1 s1 shown exn Hx Hrem Hrp
                     | |]; try exact HP.
    cbn [fst snd] in *. intros a before author rest i Ha Hc Hl Hb Hi.
    rewrite (record_pull_authorship_graph _ _ _ _ _ _ _ _ _ Hrp).
    assert (Hcase : In a (docs w0 s0) \/ a = abstract).
    { destruct (record_pull_docs _ _ _ _ _ _ _ _ _ Hrp) as [E|[E _]];
        change (docs (count_request w0) s0) with (docs w0 s0) in E;
        rewrite E in Ha.
      - apply in_app_iff in Ha. destruct Ha as [Ha|[Ha|[]]]; auto.
      - destruct Ha. }
    destruct (coverDate abstract) as [date|] eqn:Hdate.
    + destruct Hcase as [Hold| ->].
      * apply add_authors_mono. eapply HP; eassumption.
      * eapply add_authors_edges; eassumption.
    + destruct Hcase as [Hold| ->]; [|congruence]. eapply HP; eassumption.
  - intros w0 s0 d0 HP. exact HP.
  - simpl. rewrite Hempty. intros a before author rest i [].
Qed.

(** *** Which lists a session touches *)

Lemma run_calls_doc_lists cs w s w' s' out :
  run_calls remote remote_author cs w s = Some (w', s', out) ->
  documents s' = documents s
  /\ length (doc_lists w') = length (doc_lists w)
  /\ forall l, l <> documents s -> doc_lists w' !! l = doc_lists w !! l.
Proof.
  intros H.
  apply (run_calls_preserve
           (fun c => documents (snd c) = documents s
                     /\ length (doc_lists (fst c)) = length (doc_lists w)
                     /\ forall l, l <> documents s ->
                          doc_lists (fst c) !! l = doc_lists w !! l))
    with (cs := cs) (w := w) (s := s) (out := out); [| |exact H|auto].
  - intros a b Hab (H1 & H2 & H3).
    destruct Hab as [w0 s0 u v | w0 s0 x abstract report fl w1 s1 shown exn Hx Hrem Hrp
                     | |];
      try (split; [exact H1 | split; [exact H2 | exact H3]]).
    cbn [fst snd] in *.
    destruct (record_pull_session _ _ _ _ _ _ _ _ _ Hrp) as (Hd & _).
    split; [rewrite Hd; exact H1|].
    rewrite (record_pull_doc_lists _ _ _ _ _ _ _ _ _ Hrp). cbn [doc_lists count_request].
    split.
    + rewrite length_insert. exact H2.
    + intros l Hl. rewrite list_lookup_insert_ne by congruence. apply H3, Hl.
  - intros w0 s0 d0 HP. exact HP.
Qed.

(** X12.  Calls on one session change no documents list but the
    session's own, and create none. *)
Theorem other_document_lists_untouched cs w s w' s' out :
  run_calls remote remote_author cs w s = Some (w', s', out) ->
  length (doc_lists w') = length (doc_lists w)
  /\ forall other : Session,
       documents other <> documents s -> docs w' other = docs w other.
Proof.
  intros H. destruct (run_calls_doc_lists _ _ _ _ _ _ H) as (_ & H2 & H3).
  split; [exact H2|]. intros other Hne. unfold docs. rewrite H3 by exact Hne.
  reflexivity.
Qed.

(** X13.  Two sessions that hold the same documents list -- as any two
    built with the default argument do -- see the same records after any
    calls made on one of them. *)
Theorem sessions_sharing_a_list_agree cs w s w' s' out :
  run_calls remote remote_author cs w s = Some (w', s', out) ->
  forall other : Session,
    documents other = documents s -> docs w' other = docs w' s'.
Proof.
  intros H other Hsame. destruct (run_calls_doc_lists _ _ _ _ _ _ H) as (H1 & _).
  unfold docs. rewrite Hsame, H1. reflexivity.
Qed.

(** *** The quota fields *)

Lemma record_pull_docs_valid a report fl w s w1 s1 shown exn :
  (documents s < length (doc_lists w))%nat ->
  record_pull a report fl w s = (w1, s1, shown, exn) ->
  docs w1 s1 = docs w s ++ [a].
Proof.
  intros Hv H.
  assert (D : docs (append_document a w s) s = docs w s ++ [a]).
  { unfold docs, append_document. simpl.
    rewrite list_lookup_insert_eq by exact Hv. reflexivity. }
  record_pull_cases H; exact D.
Qed.

(** X14.  For a session whose [documents] is a list of the store: after
    any calls, either no record was added and the quota fields are what
    they were, or the quota fields are those reported with the record
    that was added last. *)
Theorem quota_is_that_of_last_record cs w s w' s' out :
  (documents s < length (doc_lists w))%nat ->
  run_calls remote remote_author cs w s = Some (w', s', out) ->
  (docs w' s' = docs w s /\ quota_fields s' = quota_fields s)
  \/ (exists earlier last,
        docs w' s' = docs w s ++ earlier ++ [last]
        /\ quota_fields s' = (key_remaining_quota last, key_reset_time last)).
Proof.
  intros Hv H.
  enough (HP : (documents s' < length (doc_lists w'))%nat
               /\ ((docs w' s' = docs w s /\ quota_fields s' = quota_fields s)
                   \/ (exists earlier last,
                         docs w' s' = docs w s ++ earlier ++ [last]
                         /\ quota_fields s'
                            = (key_remaining_quota last, key_reset_time last))))
    by apply HP.
  apply (run_calls_preserve
           (fun c => (documents (snd c) < length (doc_lists (fst c)))%nat
                     /\ ((docs (fst c) (snd c) = docs w s
                          /\ quota_fields (snd c) = quota_fields s)
                         \/ (exists earlier last,
                               docs (fst c) (snd c) = docs w s ++ earlier ++ [last]
                               /\ quota_fields (snd c)
                                  = (key_remaining_quota last, key_reset_time last)))))
    with (cs := cs) (w := w) (s := s) (out := out); [| |exact H|auto].
  - intros a b Hab [Hva HP].
    destruct Hab as [w0 s0 u v | w0 s0 x abstract report fl w1 s1 shown exn Hx Hrem Hrp
                     | |];
      try (split; [exact Hva | exact HP]).
    cbn [fst snd] in *.
    destruct (record_pull_session _ _ _ _ _ _ _ _ _ Hrp) as (Hd & _ & _ & Hq & Hr & _).
    split.
    + rewrite Hd, (record_pull_doc_lists _ _ _ _ _ _ _ _ _ Hrp), length_insert.
      exact Hva.
    + right.
      pose proof (record_pull_docs_valid abstract report fl (count_request w0) s0
                    w1 s1 shown exn Hva Hrp) as E.
      change (docs (count_request w0) s0) with (docs w0 s0) in E.
      rewrite E. unfold quota_fields. rewrite Hq, Hr.
      destruct HP as [[Hdocs _] | (earlier & last & Hdocs & _)].
      * exists [], abstract. rewrite Hdocs. split; reflexivity.
      * exists (earlier ++ [last]), abstract. rewrite Hdocs.
        rewrite <- !app_assoc. split; reflexivity.
  - intros w0 s0 d0 HP. exact HP.
Qed.

(** *** [has_documents] *)

(** X15.  After a pull of an id that is stored, or whose retrieval
    yields a record, [has_documents] answers [True] and prints nothing
    (for a session whose [documents] is a list of the store). *)
Theorem has_documents_after_pull w s x depth report fl :
  (documents s < length (doc_lists w))%nat ->
  (In x (map eid (docs w s)) \/ exists a, remote (requests w) x = FetchOk a) ->
  exists w' s' out exn,
    pull_abstract remote w s x depth report fl = Some (w', s', out, exn)
    /\ has_documents w' s' = (true, []).
Proof.
  intros Hv Hcase.
  destruct (pull_abstract_total w s x depth report fl) as (w' & s' & out & exn & E).
  exists w', s', out, exn. split; [exact E|].
  assert (Hall : steps (w, s) (w', s')) by (eapply pull_abstract_steps, E).
  assert (Hne : exists y, In y (map eid (docs w' s'))).
  { destruct (is_repeat_spec (docs w s) x) as [[Hrep Hnot] | (m & Hrep & Hm & Hx)].
    - destruct Hcase as [Hin | [a Ha]]; [contradiction|].
      exists (eid a).
      destruct (record_pull a report fl (count_request w) s)
        as [[[w1 s1] shown] e1] eqn:Hrp.
      assert (Hfirst : engine_step (w, s) (w1, s1))
        by (eapply step_record; eassumption).
      assert (Ed : docs w1 s1 = docs w s ++ [a])
        by exact (record_pull_docs_valid a report fl (count_request w) s
                    w1 s1 shown e1 Hv Hrp).
      assert (Hrest : steps (w1, s1) (w', s')).
      { rewrite pull_abstract_unfold, Hrep, Ha, Hrp in E.
        destruct e1 as [e1|].
        - unfold failed_to_pull in E. inversion E; subst. apply steps_fail, rtc_refl.
        - destruct (pull_references (pull_abstract remote) depth a w1 s1)
            as [[[[w2 s2] o2] e2]|] eqn:E2; [|discriminate].
          assert (H2 : steps (w1, s1) (w2, s2))
            by (eapply pull_references_steps; [apply pull_abstract_steps | exact E2]).
          unfold failed_to_pull in E.
          destruct e2 as [e2|]; inversion E; subst; [|exact H2].
          apply steps_fail, H2. }
      apply (steps_docs_mono (w1, s1) (w', s')); [exact Hrest|].
      cbn [fst snd]. rewrite Ed, map_app, in_app_iff. right. left. reflexivity.
    - exists x. apply (steps_docs_mono (w, s) (w', s')); [exact Hall|].
      simpl. rewrite <- Hx. apply in_map, Hm. }
  destruct Hne as [y Hy]. unfold has_documents.
  destruct (docs w' s'); [destruct Hy | reflexivity].
Qed.

(** *** The graphs stay well formed *)

Lemma dict_has_not_in {V} (k : string) (d : pydict V) :
  dict_has k d = false -> ~ In k (map fst d).
Proof.
  intros H Hin. apply dict_has_in in Hin. congruence.
Qed.

Lemma map_fst_dict_set {V} (k : string) (v : V) (d : pydict V) :
  dict_has k d = true -> map fst (dict_set k v d) = map fst d.
Proof.
  unfold dict_has. induction d as [|[k' v'] d IH]; simpl; [discriminate|].
  destruct (String.eqb k' k) eqn:E; simpl; [reflexivity|].
  intros H. rewrite IH by exact H. reflexivity.
Qed.

Lemma has_edge_false_not_in (g : DiGraph) (u v : string) :
  has_edge g u v = false -> ~ In (u, v) (edges g).
Proof.
  unfold has_edge. intros H Hin.
  assert (T : existsb (edge_eqb (u, v)) (edges g) = true).
  { apply existsb_exists. exists (u, v). split; [exact Hin | apply edge_eqb_refl]. }
  congruence.
Qed.

Lemma add_node_wf (n : string) (attr : pydict attrval) (g : DiGraph) :
  graph_wf g -> graph_wf (add_node n attr g).
Proof.
  intros (Hn & He & Hends). split; [|split].
  - unfold add_node. destruct (dict_get n (nodes g)) as [d|] eqn:E; simpl.
    + rewrite map_fst_dict_set; [exact Hn|]. unfold dict_has. rewrite E. reflexivity.
    + rewrite map_app. simpl. apply NoDup_snoc_fresh; [exact Hn|].
      apply dict_has_not_in. unfold dict_has. rewrite E. reflexivity.
  - rewrite edges_add_node. exact He.
  - intros u v H. rewrite edges_add_node in H. destruct (Hends u v H) as [H1 H2].
    split; apply has_node_add_node_mono; assumption.
Qed.

Lemma ensure_node_wf (k : string) (g : DiGraph) :
  graph_wf g ->
  graph_wf (if has_node g k then g else mkDiGraph (nodes g ++ [(k, [])]) (edges g)).
Proof.
  intros Hwf. destruct (has_node g k) eqn:Hk; [exact Hwf|].
  destruct Hwf as (Hn & He & Hends). split; [|split]; simpl.
  - rewrite map_app. simpl. apply NoDup_snoc_fresh; [exact Hn|].
    apply dict_has_not_in, Hk.
  - exact He.
  - intros u v H. destruct (Hends u v H) as [H1 H2].
    unfold has_node, dict_has in *. simpl. rewrite !dict_get_app.
    destruct (dict_get u (nodes g)); [|discriminate].
    destruct (dict_get v (nodes g)); [|discriminate]. auto.
Qed.

Lemma add_edge_wf (u v : string) (g : DiGraph) :
  graph_wf g -> graph_wf (add_edge u v g).
Proof.
  intros Hwf.
  pose proof (has_node_add_edge_source g u v) as Hu.
  pose proof (has_node_add_edge_target g u v) as Hv.
  revert Hu Hv. unfold add_edge.
  pose proof (ensure_node_wf v _ (ensure_node_wf u g Hwf)) as H2.
  set (g2 := if has_node (if has_node g u then g else _) v then _ else _) in *.
  destruct (has_edge g2 u v) eqn:E; [intros _ _; exact H2|].
  intros Hu Hv. destruct H2 as (Hn & He & Hends). split; [|split]; simpl.
  - exact Hn.
  - apply List.NoDup_app; [exact He | | ].
    + apply List.NoDup_cons; [intros [] | apply List.NoDup_nil].
    + intros e He' [<-|[]]. exact (has_edge_false_not_in g2 u v E He').
  - intros a b H. apply in_app_iff in H. destruct H as [H|[H|[]]].
    + exact (Hends a b H).
    + inversion H; subst. split; [exact Hu | exact Hv].
Qed.

Lemma author_loop_wf (e : string) (l : list Author) :
  forall g, graph_wf g -> graph_wf (fst (author_loop e l g)).
Proof.
  induction l as [|au l IH]; intros g H; simpl; [exact H|].
  destruct (auid au) as [i|]; [|exact H].
  apply IH, add_edge_wf, add_node_wf, H.
Qed.

Lemma add_authors_wf (abstract : Abstract) (g : DiGraph) :
  graph_wf g -> graph_wf (fst (add_authors abstract g)).
Proof.
  intros Hwf. unfold add_authors. destruct (authors abstract) as [l|]; [|exact Hwf].
  apply author_loop_wf, add_node_wf, Hwf.
Qed.

Lemma engine_step_wf a b :
  engine_step a b ->
  graph_wf (citation_graph (snd a)) /\ graph_wf (authorship_graph (snd a)) ->
  graph_wf (citation_graph (snd b)) /\ graph_wf (authorship_graph (snd b)).
Proof.
  intros Hab [H1 H2].
  destruct Hab as [w0 s0 u v | w0 s0 x abstract report fl w1 s1 shown exn Hx Hrem Hrp
                   | |]; try (split; assumption).
  - split; [apply add_edge_wf, H1 | exact H2].
  - cbn [fst snd] in *. split.
    + rewrite (record_pull_citation_graph _ _ _ _ _ _ _ _ _ Hrp).
      destruct (coverDate abstract); [apply add_node_wf, H1 | exact H1].
    + rewrite (record_pull_authorship_graph _ _ _ _ _ _ _ _ _ Hrp).
      destruct (coverDate abstract); [apply add_authors_wf, H2 | exact H2].
Qed.

(** X16.  Whatever calls are made, both graphs keep every node and
    every edge once, with the endpoints of every edge among the nodes;
    so the in-degree the gate reads never counts one citation twice. *)
Theorem graphs_stay_well_formed cs w s w' s' out :
  graph_wf (citation_graph s) ->
  graph_wf (authorship_graph s) ->
  run_calls remote remote_author cs w s = Some (w', s', out) ->
  graph_wf (citation_graph s') /\ graph_wf (authorship_graph s').
Proof.
  intros Hc Ha H.
  apply (run_calls_preserve
           (fun c => graph_wf (citation_graph (snd c))
                     /\ graph_wf (authorship_graph (snd c))))
    with (cs := cs) (w := w) (s := s) (w' := w') (s' := s') (out := out);
    [| |exact H|auto].
  - apply engine_step_wf.
  - intros w0 s0 d0 HP. exact HP.
Qed.

(** *** Pulling a document that already has a node *)

Lemma add_node_grows (n : string) (attr : pydict attrval) (g : DiGraph) :
  (exists more, map fst (nodes (add_node n attr g)) = map fst (nodes g) ++ more)
  /\ edges (add_node n attr g) = edges g.
Proof.
  split; [|apply edges_add_node].
  unfold add_node. destruct (dict_get n (nodes g)) as [d|] eqn:E; simpl.
  - exists []. rewrite app_nil_r. apply map_fst_dict_set.
    unfold dict_has. rewrite E. reflexivity.
  - exists [n]. rewrite map_app. reflexivity.
Qed.

Lemma add_edge_grows (u v : string) (g : DiGraph) :
  (exists more, map fst (nodes (add_edge u v g)) = map fst (nodes g) ++ more)
  /\ (exists more, edges (add_edge u v g) = edges g ++ more).
Proof.
  assert (A : forall g' k,
             (exists more,
                 map fst (nodes (if has_node g' k then g'
                                 else mkDiGraph (nodes g' ++ [(k, [])]) (edges g')))
                 = map fst (nodes g') ++ more)
             /\ edges (if has_node g' k then g'
                       else mkDiGraph (nodes g' ++ [(k, [])]) (edges g'))
                = edges g').
  { intros g' k. destruct (has_node g' k); simpl.
    - split; [exists []; rewrite app_nil_r|]; reflexivity.
    - split; [exists [k]; rewrite map_app|]; reflexivity. }
  unfold add_edge.
  destruct (A g u) as [[m1 N1] E1].
  destruct (A (if has_node g u then g else mkDiGraph (nodes g ++ [(u, [])]) (edges g)) v)
    as [[m2 N2] E2].
  set (g2 := if has_node (if has_node g u then g else _) v then _ else _) in *.
  destruct (has_edge g2 u v); simpl.
  - split.
    + exists (m1 ++ m2). rewrite N2, N1, app_assoc. reflexivity.
    + exists []. rewrite app_nil_r, E2, E1. reflexivity.
  - split.
    + exists (m1 ++ m2). rewrite N2, N1, app_assoc. reflexivity.
    + exists [(u, v)]. rewrite E2, E1. reflexivity.
Qed.

(** Node keys and edges of the citation graph are only appended to, and
    a node that has [attr] bound to a dict object keeps such a binding. *)
Lemma steps_citation_graph_grows a b x :
  steps a b ->
  (exists more, map fst (nodes (citation_graph (snd b)))
                = map fst (nodes (citation_graph (snd a))) ++ more)
  /\ (exists more, edges (citation_graph (snd b))
                   = edges (citation_graph (snd a)) ++ more)
  /\ ((exists d l, dict_get x (nodes (citation_graph (snd a))) = Some d
                   /\ dict_get "attr" d = Some (ARef l)) ->
      exists d l, dict_get x (nodes (citation_graph (snd b))) = Some d
                  /\ dict_get "attr" d = Some (ARef l)).
Proof.
  intros H.
  apply (steps_preserve
           (fun c =>
              (exists more, map fst (nodes (citation_graph (snd c)))
                            = map fst (nodes (citation_graph (snd a))) ++ more)
              /\ (exists more, edges (citation_graph (snd c))
                               = edges (citation_graph (snd a)) ++ more)
              /\ ((exists d l, dict_get x (nodes (citation_graph (snd a))) = Some d
                               /\ dict_get "attr" d = Some (ARef l)) ->
                  exists d l, dict_get x (nodes (citation_graph (snd c))) = Some d
                              /\ dict_get "attr" d = Some (ARef l))))
    with (a := a); [|exact H|].
  - intros c c' Hstep ([mn Hn] & [me He] & Hattr).
    destruct Hstep as [w0 s0 u v | w0 s0 y abstract report fl w1 s1 shown exn Hy Hrem Hrp
                       | |]; cbn [fst snd] in *;
      try (split; [exists mn; exact Hn | split; [exists me; exact He | exact Hattr]]).
    + destruct (add_edge_grows u v (citation_graph s0)) as [[m1 N1] [m2 E2]].
      simpl. split; [|split].
      * exists (mn ++ m1). rewrite N1, Hn, app_assoc. reflexivity.
      * exists (me ++ m2). rewrite E2, He, app_assoc. reflexivity.
      * intros Hx. destruct (Hattr Hx) as (d & l & H1 & H2).
        exists d, l. split; [apply dict_get_add_edge_existing, H1 | exact H2].
    + rewrite (record_pull_citation_graph _ _ _ _ _ _ _ _ _ Hrp).
      destruct (coverDate abstract) as [date|];
        [|split; [exists mn; exact Hn | split; [exists me; exact He | exact Hattr]]].
      destruct (add_node_grows (eid abstract) [("attr", ARef fl)] (citation_graph s0))
        as [[m1 N1] E1].
      split; [|split].
      * exists (mn ++ m1). rewrite N1, Hn, app_assoc. reflexivity.
      * exists me. rewrite E1. exact He.
      * intros Hx. destruct (String.eqb_spec (eid abstract) x) as [Heq|Hne].
        -- rewrite <- Heq, dict_get_add_node. eexists _, fl. split; [reflexivity|].
           unfold dict_update. simpl. rewrite dict_get_set, String.eqb_refl. reflexivity.
        -- rewrite dict_get_add_node_other by exact Hne. apply Hattr, Hx.
  - split; [exists []; rewrite app_nil_r; reflexivity|].
    split; [exists []; rewrite app_nil_r; reflexivity|]. auto.
Qed.

Lemma steps_citation_wf a b :
  steps a b ->
  graph_wf (citation_graph (snd a)) -> graph_wf (citation_graph (snd b)).
Proof.
  apply (steps_preserve (fun c => graph_wf (citation_graph (snd c)))).
  intros c c' Hstep Hc.
  destruct Hstep as [w0 s0 u v | w0 s0 y abstract report fl w1 s1 shown exn Hy Hrem Hrp
                     | |]; cbn [fst snd] in *; try exact Hc.
  - apply add_edge_wf, Hc.
  - rewrite (record_pull_citation_graph _ _ _ _ _ _ _ _ _ Hrp).
    destruct (coverDate abstract); [apply add_node_wf, Hc | exact Hc].
Qed.

(** What follows the recording within a pull. *)
Lemma pull_abstract_after_record w s x depth report fl o a w1 s1 shown e1 w' s' out exn :
  is_repeat (docs w s) x = (false, o) ->
  remote (requests w) x = FetchOk a ->
  record_pull a report fl (count_request w) s = (w1, s1, shown, e1) ->
  pull_abstract remote w s x depth report fl = Some (w', s', out, exn) ->
  steps (w1, s1) (w', s').
Proof.
  intros Hrep Ha Hrp E.
  rewrite pull_abstract_unfold, Hrep, Ha, Hrp in E.
  destruct e1 as [e1|].
  - unfold failed_to_pull in E. inversion E; subst. apply steps_fail, rtc_refl.
  - destruct (pull_references (pull_abstract remote) depth a w1 s1)
      as [[[[w2 s2] o2] e2]|] eqn:E2; [|discriminate].
    assert (H2 : steps (w1, s1) (w2, s2))
      by (eapply pull_references_steps; [apply pull_abstract_steps | exact E2]).
    unfold failed_to_pull in E.
    destruct e2 as [e2|]; inversion E; subst; [|exact H2].
    apply steps_fail, H2.
Qed.

(** X17.  When a document that already has a node (for instance because
    it was seen as a reference) is retrieved with a cover date, then at
    the end of the whole pull the node keys of before are still the
    first node keys and no key occurs twice, so no second node was made;
    the edges of before are still the first edges (the loop over the
    references may have added others behind them); and the node has the
    attribute [attr] bound to a dict object. *)
Theorem pulled_stub_keeps_its_node w s x depth report fl abstract date :
  graph_wf (citation_graph s) ->
  has_node (citation_graph s) x = true ->
  ~ In x (map eid (docs w s)) ->
  remote (requests w) x = FetchOk abstract ->
  eid abstract = x ->
  coverDate abstract = Some date ->
  exists w' s' out exn,
    pull_abstract remote w s x depth report fl = Some (w', s', out, exn)
    /\ (exists more, map fst (nodes (citation_graph s'))
                     = map fst (nodes (citation_graph s)) ++ more)
    /\ List.NoDup (map fst (nodes (citation_graph s')))
    /\ (exists more, edges (citation_graph s') = edges (citation_graph s) ++ more)
    /\ exists d l, dict_get x (nodes (citation_graph s')) = Some d
                   /\ dict_get "attr" d = Some (ARef l).
Proof.
  intros Hwf Hnode Hfresh Hrem Heid Hdate.
  destruct (pull_abstract_total w s x depth report fl) as (w' & s' & out & exn & E).
  exists w', s', out, exn. split; [exact E|].
  assert (Hall : steps (w, s) (w', s')) by (eapply pull_abstract_steps, E).
  destruct (steps_citation_graph_grows _ _ x Hall) as (Hn & He & _).
  cbn [fst snd] in *.
  split; [exact Hn|]. split; [|split; [exact He|]].
  - apply (steps_citation_wf _ _ Hall Hwf).
  - assert (Hrep : is_repeat (docs w s) x = (false, None)).
    { destruct (is_repeat_spec (docs w s) x) as [[Hrep _] | (m & _ & Hm & Hx)];
        [exact Hrep|].
      exfalso. apply Hfresh. rewrite <- Hx. apply in_map, Hm. }
    destruct (record_pull abstract report fl (count_request w) s)
      as [[[w1 s1] shown] e1] eqn:Hrp.
    pose proof (pull_abstract_after_record _ _ _ _ _ _ _ _ _ _ _ _ _ _ _ _
                  Hrep Hrem Hrp E) as Hrest.
    destruct (steps_citation_graph_grows _ _ x Hrest) as (_ & _ & Hattr).
    cbn [fst snd] in Hattr. apply Hattr.
    rewrite (record_pull_citation_graph _ _ _ _ _ _ _ _ _ Hrp), Hdate.
    rewrite Heid, dict_get_add_node. eexists _, fl. split; [reflexivity|].
    unfold dict_update. simpl. rewrite dict_get_set, String.eqb_refl. reflexivity.
Qed.

End EngineSteps.

(** ** Checkpoints *)

Lemma view_attr_shift (w w' : World) (a : attrval) :
  view_attr (unpickle_dicts (mkBundle None None None (dicts w)) w')
            (shift_attr (length (dicts w')) a)
  = view_attr w a.
Proof.
  destruct a as [v|l]; simpl; [reflexivity|].
  unfold dict_at. simpl. rewrite lookup_app_r by apply Nat.le_add_r.
  rewrite Nat.add_comm, Nat.add_sub. reflexivity.
Qed.

Lemma view_nodes_shift (w w' : World) (dl : list (list Abstract)) (g : DiGraph) :
  view_nodes (mkWorld dl (dicts w' ++ dicts w) (files w') (requests w') (now w'))
             (shift_graph (length (dicts w')) g)
  = view_nodes w g.
Proof.
  unfold view_nodes, shift_graph. simpl. rewrite map_map.
  apply map_ext. intros [n d]. simpl. f_equal. rewrite map_map.
  apply map_ext. intros [k a]. simpl. f_equal.
  pose proof (view_attr_shift w w' a) as H.
  destruct a as [v|l]; [reflexivity|]. exact H.
Qed.

(** C6, as amended.  Let [save_checkpoint] return normally, that is,
    let the file system open the file for the key (or, without a key,
    for the time stamp).  Then a load under the key that was used -- by
    any session, in any store that holds the file that was written --
    reports no failure and reproduces the session: the documents list
    has the same records, and both graphs have the same nodes in the
    same order with the same attributes (dict attributes compared by
    what they hold) and the same edges. *)
Theorem checkpoint_roundtrip (strftime : Z -> string) (openable : string -> bool)
    w s key w1 w2 s2 :
  save_checkpoint strftime openable w s key = (w1, None) ->
  let used := match key with Some k => k | None => strftime (now w) end in
  files w2 !! checkpoint_filename used = files w1 !! checkpoint_filename used ->
  exists w3 s3,
    load_checkpoint w2 s2 (Some used) = (w3, s3, [])
    /\ docs w3 s3 = docs w s
    /\ edges (citation_graph s3) = edges (citation_graph s)
    /\ view_nodes w3 (citation_graph s3) = view_nodes w (citation_graph s)
    /\ edges (authorship_graph s3) = edges (authorship_graph s)
    /\ view_nodes w3 (authorship_graph s3) = view_nodes w (authorship_graph s).
Proof.
  intros Hsave used Hfile. unfold save_checkpoint in Hsave. cbv zeta in Hsave.
  fold used in Hsave.
  destruct (openable (checkpoint_filename used)); [|discriminate].
  inversion Hsave; subst w1; clear Hsave. simpl in Hfile.
  rewrite lookup_insert_eq in Hfile.
  unfold load_checkpoint. rewrite Hfile. simpl.
  do 2 eexists. split; [reflexivity|]. simpl.
  split; [|split; [reflexivity|split; [|split; [reflexivity|]]]].
  - unfold docs at 1. simpl. rewrite lookup_app_r by apply Nat.le_refl.
    rewrite Nat.sub_diag. reflexivity.
  - apply view_nodes_shift.
  - apply view_nodes_shift.
Qed.

(** C6, the claim as it stands fails.  A session that holds document A
    is saved under the key [a/b]: [open] raises, nothing is written, and
    a new session that loads the key is told of the failure and stays
    empty.  Saved without a key, the session is written under the time
    stamp, and a load without a key reads nothing. *)
Lemma checkpoint_roundtrip_fails_without_file :
  let w := fst ex_after_pull_A in
  let s := snd ex_after_pull_A in
  docs w s = [ex_abstract_A]
  /\ save_checkpoint ex_strftime ex_openable w s (Some "a/b") = (w, Some "OSError")
  /\ (let '(w1, l) := new_list [] w in
      let '(w3, s3, out) := load_checkpoint w1 (init (Some l)) (Some "a/b") in
      out = load_failed "a/b" /\ docs w3 s3 = []
      /\ citation_graph s3 = empty_graph)
  /\ snd (save_checkpoint ex_strftime ex_openable w s None) = None
  /\ (let '(w1, l) := new_list [] (fst (save_checkpoint ex_strftime ex_openable w s None)) in
      let '(w3, s3, out) := load_checkpoint w1 (init (Some l)) None in
      out = [EvPrint "key is needed to load checkpoint!"] /\ docs w3 s3 = []
      /\ citation_graph s3 = empty_graph).
Proof. vm_compute. repeat split. Qed.

(** A checkpoint that is missing, that [pickle.load] rejects, or that
    does not hold a dict, leaves store and session as they were. *)
Lemma load_checkpoint_unreadable w s key :
  files w !! checkpoint_filename key = None
  \/ files w !! checkpoint_filename key = Some PCorrupt
  \/ files w !! checkpoint_filename key = Some PNotDict ->
  load_checkpoint w s (Some key) = (w, s, load_failed key).
Proof.
  unfold load_checkpoint. intros [H|[H|H]]; rewrite H; reflexivity.
Qed.

(** Without a key nothing is read. *)
Lemma load_checkpoint_no_key w s :
  load_checkpoint w s None = (w, s, [EvPrint "key is needed to load checkpoint!"]).
Proof. reflexivity. Qed.

(** C7.  A checkpoint whose dict holds ['documents'] but not
    ['authorship']: the load reports the failure, yet [self.documents]
    has already been replaced by the list read from the file. *)
Theorem load_checkpoint_partial_overwrite :
  let s := init None in
  let '(w', s', out) := load_checkpoint ex_world_documents_only s (Some "k") in
  out = load_failed "k"
  /\ docs ex_world_documents_only s = []
  /\ docs w' s' = [ex_abstract_A]
  /\ authorship_graph s' = authorship_graph s
  /\ citation_graph s' = citation_graph s.
Proof. vm_compute. repeat split. Qed.

(** ** Node attributes written by a pull *)

(** Whatever the node had before, a pull of a record with a cover date
    stores the [flags] dict as one attribute named [attr]; the keys of
    [flags] do not become attributes of the node. *)
Lemma record_pull_nests_flags a report fl w s w1 s1 shown exn date :
  coverDate a = Some date ->
  record_pull a report fl w s = (w1, s1, shown, exn) ->
  exists d,
    dict_get (eid a) (nodes (citation_graph s1)) = Some d
    /\ dict_get "attr" d = Some (ARef fl)
    /\ forall k, k <> "attr" ->
         dict_get k d
         = dict_get k (default [] (dict_get (eid a) (nodes (citation_graph s)))).
Proof.
  intros Hdate H.
  rewrite (record_pull_citation_graph _ _ _ _ _ _ _ _ _ H), Hdate, dict_get_add_node.
  eexists. split; [reflexivity|].
  unfold dict_update. simpl. split.
  - rewrite dict_get_set, String.eqb_refl. reflexivity.
  - intros k Hk. rewrite dict_get_set.
    destruct (String.eqb_spec "attr" k); [congruence | reflexivity].
Qed.

(** C5.  A document pulled with [flags = {'initial': True}]: the dict
    ends up holding [initial] and [year], but the node's attribute dict
    is [{'attr': flags}], so neither [year] nor [initial] selects the
    node in [get_nodes_with_attribute]. *)
Theorem fetched_node_has_flags_under_attr :
  let '(w0, fl) := new_dict [("initial", VBool true)] (fresh_world ∅ 0) in
  match add_document ex_remote w0 (init None) "2-s2.0-A" false fl with
  | Some (w', s', _, _) =>
      dict_get "2-s2.0-A" (nodes (citation_graph s')) = Some [("attr", ARef fl)]
      /\ dict_at w' fl = [("initial", VBool true); ("year", VStr "2020")]
      /\ get_nodes_with_attribute (citation_graph s') "year" (VStr "2020") = []
      /\ get_nodes_with_attribute (citation_graph s') "initial" (VBool true) = []
  | None => False
  end.
Proof. vm_compute. repeat split. Qed.

(** The [flags] dict of [add_documents] is one object for the whole
    batch: both nodes point at it and its [year] is the one written
    last. *)
Example batch_shares_flags :
  let '(w0, fl) := new_dict [("initial", VBool true)] (fresh_world ∅ 0) in
  match add_documents ex_remote w0 (init None)
          (inr ["2-s2.0-A"; "2-s2.0-B"]) None fl with
  | Some (w', s', _, _) =>
      dict_get "2-s2.0-A" (nodes (citation_graph s')) = Some [("attr", ARef fl)]
      /\ dict_get "2-s2.0-B" (nodes (citation_graph s')) = Some [("attr", ARef fl)]
      /\ dict_at w' fl = [("initial", VBool true); ("year", VStr "1999")]
  | None => False
  end.
Proof. vm_compute. repeat split. Qed.

(** ** Distances *)

Lemma min_over_initial_le g node_id ids :
  forall distance d,
    min_over_initial g node_id ids distance = Returns d -> (d <= distance)%nat.
Proof.
  induction ids as [|i ids IH]; simpl; intros distance d H.
  - inversion H. lia.
  - destruct (shortest_path_length g i node_id) as [t|]; [|discriminate].
    apply IH in H. lia.
Qed.

Lemma shortest_path_length_self g n :
  has_node g n = true -> shortest_path_length g n n = Returns 0%nat.
Proof.
  intros H. unfold shortest_path_length. rewrite H. simpl.
  rewrite String.eqb_refl. reflexivity.
Qed.

Lemma min_over_initial_seed g node_id ids :
  has_node g node_id = true ->
  In node_id ids ->
  forall distance d,
    min_over_initial g node_id ids distance = Returns d -> d = 0%nat.
Proof.
  intros Hn. induction ids as [|i ids IH]; simpl; intros Hin distance d H; [destruct Hin|].
  destruct Hin as [->|Hin].
  - rewrite (shortest_path_length_self g node_id Hn) in H.
    apply min_over_initial_le in H. lia.
  - destruct (shortest_path_length g i node_id) as [t|]; [|discriminate].
    eapply IH; eassumption.
Qed.

Lemma get_nodes_with_attribute_are_nodes graph attribute value n :
  In n (get_nodes_with_attribute graph attribute value) ->
  has_node graph n = true.
Proof.
  intros H. apply dict_has_in. revert H. unfold get_nodes_with_attribute.
  assert (G : forall l acc,
             In n (fold_left
                     (fun selected nd =>
                        match dict_get attribute (snd nd) with
                        | Some (AVal v) =>
                            if pyval_eqb v value then selected ++ [fst nd] else selected
                        | Some (ARef _) => selected
                        | None => selected
                        end) l acc) ->
             In n acc \/ In n (map fst l)).
  { induction l as [|nd l IH]; simpl; intros acc H; [auto|].
    apply IH in H. destruct H as [H|H]; [|auto].
    destruct (dict_get attribute (snd nd)) as [[v|r]|]; [|auto|auto].
    destruct (pyval_eqb v value); [|auto].
    apply in_app_iff in H. destruct H as [H|[H|[]]]; auto. }
  intros H. apply G in H. destruct H as [[]|H]. exact H.
Qed.

(** X22.  Whenever [distance_from_initial_sample] returns, its value is
    within the diameter, and it is 0 for a node flagged [initial]. *)
Lemma distance_when_it_returns (s : Session) (node_id : string) (d : nat) :
  distance_from_initial_sample s node_id = Returns d ->
  (exists D, diameter (citation_graph s) = Returns D /\ (d <= D)%nat)
  /\ (In node_id (get_nodes_with_attribute (citation_graph s) "initial" (VBool true))
      -> d = 0%nat).
Proof.
  unfold distance_from_initial_sample.
  destruct (diameter (citation_graph s)) as [D|]; [|discriminate].
  intros H. split.
  - exists D. split; [reflexivity|]. eapply min_over_initial_le, H.
  - intros Hin. eapply min_over_initial_seed; [|exact Hin|exact H].
    eapply get_nodes_with_attribute_are_nodes, Hin.
Qed.

(** C8.  Two nodes without an edge, [A] flagged [initial]: the distance
    of [A] from the initial sample is not 0, the call raises (in
    [nx.diameter], before any seed is looked at). *)
Theorem distance_of_seed_raises_when_disconnected :
  let s := set_citation_graph ex_graph_two_components (init None) in
  get_nodes_with_attribute (citation_graph s) "initial" (VBool true) = ["A"]
  /\ distance_from_initial_sample s "A" = Raises "NetworkXError".
Proof. vm_compute. split; reflexivity. Qed.

(** On a connected graph the seed is at distance 0 and the others
    within the diameter. *)
Example distance_on_connected_graph :
  let s := set_citation_graph ex_graph_path (init None) in
  diameter (citation_graph s) = Returns 2%nat
  /\ distance_from_initial_sample s "A" = Returns 0%nat
  /\ distance_from_initial_sample s "B" = Returns 1%nat
  /\ distance_from_initial_sample s "C" = Returns 2%nat.
Proof. vm_compute. repeat split. Qed.

(** A document pulled with [flags = {'initial': True}] is not found as
    a seed (see C5): its distance is the diameter of the graph. *)
Example distance_of_pulled_seed :
  let '(w0, fl) := new_dict [("initial", VBool true)] (fresh_world ∅ 0) in
  match add_document ex_remote w0 (init None) "2-s2.0-A" false fl with
  | Some (w', s', _, _) => distance_from_initial_sample s' "2-s2.0-A" = Returns 2%nat
  | None => False
  end.
Proof. vm_compute. reflexivity. Qed.

(** ** The quota summary *)

(** C9.  On a session on which no pull has succeeded yet, [quotas]
    raises: [reset_time] is the empty string, not [None], and
    [fromisoformat] rejects it. *)
Theorem quotas_raises_on_fresh_session
    (fromisoformat : string -> option (Z * bool)) (timedelta_str : Z -> string)
    (w : World) (documents_arg : option nat) :
  fromisoformat "" = None ->
  quotas fromisoformat timedelta_str w (init documents_arg) = Raises "ValueError".
Proof. intros H. unfold quotas. simpl. rewrite H. reflexivity. Qed.

(** With both fields [None] the two sentinel texts are printed. *)
Lemma quotas_unknown fromisoformat timedelta_str w s :
  reset_time s = None -> last_quota s = None ->
  exists text,
    quotas fromisoformat timedelta_str w s = Returns [EvPrint text]
    /\ String.prefix "Pulls Remaining Unknown" text = true.
Proof.
  intros H1 H2. unfold quotas. rewrite H1, H2. eexists. split; reflexivity.
Qed.

(** X20.  [quotas] raises exactly when [reset_time] is a text that
    [fromisoformat] rejects ([ValueError]) or reads as an offset-aware
    datetime, from which the naive [datetime.now()] cannot be
    subtracted ([TypeError]); [last_quota] plays no part in that, and a
    [reset_time] of [None] never raises. *)
Theorem quotas_raises_iff (fromisoformat : string -> option (Z * bool))
    (timedelta_str : Z -> string) w s :
  ((exists e, quotas fromisoformat timedelta_str w s = Raises e)
   <-> (exists r, reset_time s = Some r
                  /\ (fromisoformat r = None
                      \/ exists t, fromisoformat r = Some (t, true))))
  /\ (quotas fromisoformat timedelta_str w s = Raises "ValueError"
      <-> exists r, reset_time s = Some r /\ fromisoformat r = None)
  /\ (quotas fromisoformat timedelta_str w s = Raises "TypeError"
      <-> exists r t, reset_time s = Some r /\ fromisoformat r = Some (t, true)).
Proof.
  unfold quotas. destruct (reset_time s) as [r|].
  - destruct (fromisoformat r) as [[t [|]]|] eqn:E.
    + split; [|split].
      * split; [intros _; exists r; eauto | intros _; eauto].
      * split; [discriminate | intros (r' & H & H'); congruence].
      * split; [intros _; exists r, t; auto | reflexivity].
    + split; [|split].
      * split; [intros [e H]; discriminate|].
        intros (r' & H & [H'|[t' H']]); congruence.
      * split; [discriminate | intros (r' & H & H'); congruence].
      * split; [discriminate | intros (r' & t' & H & H'); congruence].
    + split; [|split].
      * split; [intros _; exists r; auto | intros _; eauto].
      * split; [intros _; exists r; auto | reflexivity].
      * split; [discriminate | intros (r' & t' & H & H'); congruence].
  - split; [|split].
    + split; [intros [e H]; discriminate | intros (r' & H & _); discriminate].
    + split; [discriminate | intros (r' & H & _); discriminate].
    + split; [discriminate | intros (r' & t' & H & _); discriminate].
Qed.

(** ** New sessions *)

(** A session built on a list of its own starts empty. *)
Lemma init_with_new_list_is_empty w :
  let '(w1, l) := new_list [] w in
  let s := init (Some l) in
  docs w1 s = [] /\ fails s = [] /\ citation_graph s = empty_graph
  /\ authorship_graph s = empty_graph /\ target_depth s = DInt 0.
Proof.
  simpl. unfold docs. simpl. rewrite lookup_app_r by apply Nat.le_refl.
  rewrite Nat.sub_diag. auto.
Qed.

(** C10.  A first session built with the default argument pulls one
    document; a second session built with the default argument
    afterwards finds that document in its [documents]. *)
Theorem second_default_session_is_not_empty :
  let s1 := init None in
  match add_document ex_remote (fresh_world ∅ 0) s1 "2-s2.0-A" false
          default_flags_add_document with
  | Some (w', _, _, _) =>
      let s2 := init None in
      docs w' s2 = [ex_abstract_A]
      /\ fails s2 = [] /\ citation_graph s2 = empty_graph
      /\ authorship_graph s2 = empty_graph /\ target_depth s2 = DInt 0
  | None => False
  end.
Proof. vm_compute. repeat split. Qed.

(** * Further properties of the code *)

(** ** Identifiers and lookup *)

(** X1.  [_eid_from_id] never maps two ids to one eid, makes the text
    seven characters longer, and therefore changes an eid it is applied
    to again. *)
Theorem eid_from_id_collision_free :
  (forall a b, _eid_from_id a = _eid_from_id b <-> a = b)
  /\ (forall a, String.length (_eid_from_id a) = (7 + String.length a)%nat)
  /\ (forall a, _eid_from_id (_eid_from_id a) <> _eid_from_id a).
Proof.
  assert (L : forall a, String.length (_eid_from_id a) = (7 + String.length a)%nat)
    by (intros a; reflexivity).
  split; [|split; [exact L|]].
  - intros a b. split; [|intros ->; reflexivity].
    unfold _eid_from_id. simpl. intros H. inversion H as [H1]. exact H1.
  - intros a H. apply (f_equal String.length) in H. rewrite !L in H. lia.
Qed.

(** X2.  When several records carry the id asked for, [is_repeat] hands
    back the one that comes last in [documents]. *)
Theorem is_repeat_last_match (l1 l2 : list Abstract) (m : Abstract) (x : string) :
  eid m = x ->
  ~ In x (map eid l2) ->
  is_repeat (l1 ++ m :: l2) x = (true, Some m).
Proof.
  intros Hm. induction l2 as [|a l2 IH] using rev_ind; intros Hl2.
  - rewrite is_repeat_snoc.
    rewrite Hm, String.eqb_refl. reflexivity.
  - rewrite map_app, in_app_iff in Hl2. simpl in Hl2.
    replace (l1 ++ m :: l2 ++ [a]) with ((l1 ++ m :: l2) ++ [a])
      by (rewrite <- app_assoc; reflexivity).
    rewrite is_repeat_snoc.
    destruct (String.eqb_spec (eid a) x) as [E|_]; [tauto|].
    apply IH. tauto.
Qed.

(** ** Pulls that are interrupted *)

(** C2.  Document C has the references R1, one without id, and R2.  Its
    pull is interrupted at the second reference (the prefix cannot be
    put before [None]): the record is stored, the call returns, and the
    edge from C to R2 is not there.  And [pull_author('7', flags)] with
    [flags = {'initial': True}] hands the dict to [add_documents] as
    target depth: document A, with the references R1 and R2, is
    retrieved and stored, the comparison of the depth with the dict
    raises after the first edge, [pull_author] returns, and the edge
    from A to R2 is not there. *)
Theorem edges_missing_after_interrupted_loop :
  match add_document ex_remote_gap (fresh_world ∅ 0) (init None) "2-s2.0-C" false
          default_flags_add_document with
  | Some (w', s', _, exn) =>
      exn = None
      /\ docs w' s' = [ex_abstract_C]
      /\ has_edge (citation_graph s') "2-s2.0-C" "2-s2.0-R1" = true
      /\ has_edge (citation_graph s') "2-s2.0-C" "2-s2.0-R2" = false
      /\ has_node (citation_graph s') "2-s2.0-R2" = false
  | None => False
  end
  /\ match ex_after_pull_author with
     | Some (w', s', _, exn) =>
         exn = None
         /\ docs w' s' = [ex_abstract_A]
         /\ target_depth s' = DDict 5
         /\ has_edge (citation_graph s') "2-s2.0-A" "2-s2.0-R1" = true
         /\ has_edge (citation_graph s') "2-s2.0-A" "2-s2.0-R2" = false
         /\ has_node (citation_graph s') "2-s2.0-R2" = false
     | None => False
     end.
Proof. vm_compute. repeat split. Qed.

(** C4.  The pull of document C raises after the record has been
    appended and the node has been given its attributes: the id is put
    on the fail list and the call returns, but the record stays in
    [documents] and the node keeps [attr].  A second pull of C finds the
    record in [documents], goes to [pull_references] outside the [try],
    and the [TypeError] reaches the caller; the fail list is not
    appended to. *)
Theorem failed_pull_keeps_record_and_node :
  match add_document ex_remote_gap (fresh_world ∅ 0) (init None) "2-s2.0-C" false
          default_flags_add_document with
  | Some (w', s', _, exn) =>
      exn = None
      /\ fails s' = ["2-s2.0-C"]
      /\ docs w' s' = [ex_abstract_C]
      /\ dict_get "2-s2.0-C" (nodes (citation_graph s'))
         = Some [("attr", ARef default_flags_add_document)]
      /\ dict_at w' default_flags_add_document = [("year", VStr "2015")]
      /\ match add_document ex_remote_gap w' s' "2-s2.0-C" false
                 default_flags_add_document with
         | Some (w2, s2, out2, exn2) =>
             exn2 = Some "TypeError" /\ fails s2 = ["2-s2.0-C"] /\ out2 = []
         | None => False
         end
  | None => False
  end.
Proof. vm_compute. repeat split. Qed.

(** C3, the claim as it stands fails.  The service finds document A by
    its DOI as well; [add_document] is called twice with the DOI.  No
    record has the DOI as its [eid], so the second call retrieves
    again, and [documents] holds two records with the eid of A. *)
Lemma record_store_two_records_for_one_id :
  match run_calls ex_remote_doi ex_remote_author
          [CallAddDocument "10.1000/a" false default_flags_add_document;
           CallAddDocument "10.1000/a" false default_flags_add_document]
          (fresh_world ∅ 0) (init None) with
  | Some (w', s', out) =>
      map eid (docs w' s') = ["2-s2.0-A"; "2-s2.0-A"]
      /\ requests w' = 2%nat
      /\ fails s' = []
  | None => False
  end.
Proof. vm_compute. repeat split. Qed.

(** X26.  When nothing is raised -- the record is in hand and the loop
    over its references runs to its end -- the pull returns in the
    state in which the loop ended, and the citation graph then has an
    edge from the document to every one of its references, each of
    which has an id and a node. *)
Theorem edges_to_all_references (remote : nat -> string -> FetchResult)
    w s x depth report flags abstract w0 s0 pre refs w2 s2 o2 :
  record_in_hand remote w s x report flags abstract w0 s0 pre ->
  references abstract = Some refs ->
  for_references (pull_abstract remote) abstract depth refs w0 s0
    = Some (w2, s2, o2, None) ->
  pull_abstract remote w s x depth report flags = Some (w2, s2, pre ++ o2, None)
  /\ forall r, In r refs ->
       exists thisid,
         ref_id r = Some thisid
         /\ has_edge (citation_graph s2) (eid abstract) (_eid_from_id thisid) = true
         /\ has_node (citation_graph s2) (_eid_from_id thisid) = true.
Proof.
  intros Hhand Hrefs Hloop. split.
  - rewrite pull_abstract_unfold.
    destruct Hhand as [(Hrep & -> & -> & ->) | (Hmiss & Hrem & shown & Hrp & ->)].
    + rewrite Hrep. unfold pull_references. rewrite Hrefs. exact Hloop.
    + destruct (is_repeat (docs w s) x) as [b m]. simpl in Hmiss. subst b.
      rewrite Hrem, Hrp. unfold pull_references. rewrite Hrefs, Hloop. reflexivity.
  - eapply for_references_edges; [apply pull_abstract_steps | exact Hloop].
Qed.

(** ** More on checkpoints *)

Lemma string_append_length (a b : string) :
  String.length (String.append a b) = (String.length a + String.length b)%nat.
Proof. induction a as [|c a IH]; simpl; [reflexivity | rewrite IH; reflexivity]. Qed.

Lemma string_append_cancel_r (a b t : string) :
  String.append a t = String.append b t -> a = b.
Proof.
  revert b. induction a as [|c a IH]; intros [|c' b] H; simpl in H.
  - reflexivity.
  - apply (f_equal String.length) in H.
    rewrite ?string_append_length in H. simpl in H.
    rewrite ?string_append_length in H. lia.
  - apply (f_equal String.length) in H.
    rewrite ?string_append_length in H. simpl in H.
    rewrite ?string_append_length in H. lia.
  - inversion H. f_equal. apply IH. assumption.
Qed.

Lemma checkpoint_filename_injective (k k' : string) :
  checkpoint_filename k = checkpoint_filename k' -> k = k'.
Proof.
  unfold checkpoint_filename, CHECKPOINT_FILENAME_BASE. simpl. intros H.
  inversion H as [H1]. eapply string_append_cancel_r, H1.
Qed.

(** X18.  Saving under one key leaves the checkpoint of every other
    key, and every list and dict of the store, as they were, whether
    the file could be opened or not. *)
Theorem save_checkpoint_keeps_other_keys (strftime : Z -> string)
    (openable : string -> bool) w s key other :
  other <> key ->
  let w' := fst (save_checkpoint strftime openable w s (Some key)) in
  files w' !! checkpoint_filename other = files w !! checkpoint_filename other
  /\ doc_lists w' = doc_lists w
  /\ dicts w' = dicts w.
Proof.
  intros Hne. unfold save_checkpoint. cbv zeta.
  destruct (openable (checkpoint_filename key)); simpl; [|auto].
  split; [|split; reflexivity].
  apply lookup_insert_ne. intros E. apply Hne. symmetry.
  apply checkpoint_filename_injective, E.
Qed.

(** X19.  Whatever the file holds, [load_checkpoint] leaves the fail
    list, the target depth and the quota fields of the session alone,
    writes no file, and changes no list that existed before: the
    records of every other session, also of one that shared the old
    list, stay. *)
Theorem load_checkpoint_frame w s key w' s' out :
  load_checkpoint w s key = (w', s', out) ->
  fails s' = fails s
  /\ target_depth s' = target_depth s
  /\ quota_fields s' = quota_fields s
  /\ files w' = files w
  /\ forall other : Session,
       (documents other < length (doc_lists w))%nat ->
       docs w' other = docs w other.
Proof.
  unfold load_checkpoint. destruct key as [key|].
  - destruct (files w !! checkpoint_filename key) as [[| |content]|].
    + intros H. inversion H; subst. auto 6.
    + intros H. inversion H; subst. auto 6.
    + destruct (b_documents content) as [d|].
      * assert (Hdocs : forall other : Session,
                  (documents other < length (doc_lists w))%nat ->
                  default [] ((doc_lists w ++ [d]) !! documents other)
                  = docs w other).
        { intros other Hv. rewrite lookup_app_l by exact Hv. reflexivity. }
        simpl. destruct (b_authorship content) as [ga|];
          [destruct (b_citations content) as [gc|]|];
          intros H; inversion H; subst; repeat split; apply Hdocs.
      * intros H. inversion H; subst. repeat split.
    + intros H. inversion H; subst. auto 6.
  - intros H. inversion H; subst. auto 6.
Qed.

(** ** More on graph queries *)

Lemma get_nodes_fold_spec (attribute : string) (value : pyval) (n : string) :
  forall (l : pydict (pydict attrval)) (acc : list string),
    In n (fold_left
            (fun selected nd =>
               match dict_get attribute (snd nd) with
               | Some (AVal v) =>
                   if pyval_eqb v value then selected ++ [fst nd] else selected
               | Some (ARef _) => selected
               | None => selected
               end) l acc)
    <-> In n acc
        \/ exists d v, In (n, d) l /\ dict_get attribute d = Some (AVal v)
                       /\ pyval_eqb v value = true.
Proof.
  induction l as [|[k d] l IH]; intros acc; simpl.
  - split; [auto | intros [H|(d & v & [] & _)]; exact H].
  - rewrite IH. split.
    + intros [H|(d' & v & H1 & H2 & H3)].
      * destruct (dict_get attribute d) as [[v|r]|] eqn:E; auto.
        destruct (pyval_eqb v value) eqn:Ev; auto.
        apply in_app_iff in H. destruct H as [H|[<-|[]]]; [auto|].
        right. exists d, v. auto.
      * right. exists d', v. auto.
    + intros [H|(d' & v & [H1|H1] & H2 & H3)].
      * left. destruct (dict_get attribute d) as [[v|r]|]; auto.
        destruct (pyval_eqb v value); auto. apply in_app_iff. auto.
      * inversion H1; subst. left. rewrite H2, H3. apply in_app_iff. right. left.
        reflexivity.
      * right. exists d', v. auto.
Qed.

(** X21.  [get_nodes_with_attribute] selects exactly the nodes whose
    own attribute dict has the key with a scalar equal to the value; a
    key inside a dict stored under another key does not count. *)
Theorem get_nodes_with_attribute_spec graph attribute value n :
  In n (get_nodes_with_attribute graph attribute value)
  <-> exists d v, In (n, d) (nodes graph)
                  /\ dict_get attribute d = Some (AVal v)
                  /\ pyval_eqb v value = true.
Proof.
  unfold get_nodes_with_attribute. rewrite get_nodes_fold_spec.
  split; [intros [[]|H]; exact H | auto].
Qed.

(** * The theorems at concrete inputs *)

Lemma ex_remote_faithful : remote_faithful ex_remote.
Proof.
  intros n x a. unfold ex_remote.
  destruct (String.eqb_spec x "2-s2.0-A") as [->|_].
  - intros H. inversion H. reflexivity.
  - destruct (String.eqb_spec x "2-s2.0-B") as [->|_]; [|discriminate].
    intros H. inversion H. reflexivity.
Qed.

Lemma graph_wf_empty : graph_wf empty_graph.
Proof.
  split; [apply List.NoDup_nil | split; [apply List.NoDup_nil | intros u v []]].
Qed.

(** Document A is retrieved at depth 0 in a session at target depth 1
    whose graph has two citations of [2-s2.0-R1]: the edge from A is
    the third, and the nested call for R1 is the first thing that
    follows the retrieval. *)
Lemma popularity_gate_witness :
  exists w' s' out exn rest,
    pull_abstract ex_remote (fresh_world ∅ 0) ex_session_two_citations "2-s2.0-A" 0
      false default_flags_add_document = Some (w', s', out, exn)
    /\ out = [EvRetrieve "2-s2.0-A"] ++ [] ++ EvCall "2-s2.0-R1" (0 + 1) :: rest.
Proof.
  pose (rp := record_pull ex_abstract_A false default_flags_add_document
                (count_request (fresh_world ∅ 0)) ex_session_two_citations).
  destruct (popularity_gate ex_remote (fresh_world ∅ 0) ex_session_two_citations
              "2-s2.0-A" 0 false default_flags_add_document ex_abstract_A
              (fst (fst (fst rp))) (snd (fst (fst rp))) [EvRetrieve "2-s2.0-A"]
              [] (mkReference (Some "R1")) [mkReference (Some "R2")]
              (fst (fst (fst rp))) (snd (fst (fst rp))) [] None)
    as (w' & s' & out & exn & E & _ & H).
  - right. split; [reflexivity|]. split; [reflexivity|].
    exists []. split; reflexivity.
  - reflexivity.
  - reflexivity.
  - destruct (H "R1" eq_refl) as [[_ Hcall] _].
    destruct Hcall as [rest Hrest].
    + split; [reflexivity|]. split.
      * exists 1. split; [reflexivity | lia].
      * vm_compute. discriminate.
    + exists w', s', out, exn, rest. split; [exact E | exact Hrest].
Defined.

Lemma record_store_one_record_per_id_witness :
  exists w' s' out,
    run_calls ex_remote ex_remote_author
      [CallAddDocument "2-s2.0-A" false default_flags_add_document;
       CallAddDocument "2-s2.0-A" true default_flags_add_document;
       CallPullAuthor "7" default_flags_pull_author;
       CallAddDocuments (inr ["2-s2.0-B"; "2-s2.0-A"]) (Some (DInt 1))
                        default_flags_add_documents]
      (fresh_world ∅ 0) (init None)
    = Some (w', s', out)
    /\ List.NoDup (map eid (docs w' s')).
Proof.
  destruct (record_store_one_record_per_id ex_remote ex_remote_author
              [CallAddDocument "2-s2.0-A" false default_flags_add_document;
               CallAddDocument "2-s2.0-A" true default_flags_add_document;
               CallPullAuthor "7" default_flags_pull_author;
               CallAddDocuments (inr ["2-s2.0-B"; "2-s2.0-A"]) (Some (DInt 1))
                                default_flags_add_documents]
              (fresh_world ∅ 0) (init None) ex_remote_faithful)
    as (w' & s' & out & E & H & _).
  - reflexivity.
  - exists w', s', out. split; assumption.
Defined.

Lemma checkpoint_roundtrip_witness :
  let w := fresh_world ∅ 0 in
  let s := ex_session_two_citations in
  let w1 := fst (save_checkpoint ex_strftime ex_openable w s (Some "k")) in
  exists w3 s3,
    load_checkpoint w1 (init None) (Some "k") = (w3, s3, [])
    /\ edges (citation_graph s3) = edges (citation_graph s)
    /\ view_nodes w3 (citation_graph s3) = view_nodes w (citation_graph s).
Proof.
  intros w s w1.
  destruct (checkpoint_roundtrip ex_strftime ex_openable w s (Some "k") w1 w1 (init None))
    as (w3 & s3 & E & _ & H1 & H2 & _).
  - reflexivity.
  - reflexivity.
  - exists w3, s3. repeat split; assumption.
Defined.

Lemma quotas_raises_on_fresh_session_witness :
  quotas ex_fromisoformat ex_timedelta_str (fresh_world ∅ 0) (init None)
  = Raises "ValueError".
Proof.
  apply (quotas_raises_on_fresh_session ex_fromisoformat ex_timedelta_str
           (fresh_world ∅ 0) None).
  reflexivity.
Defined.

Lemma is_repeat_last_match_witness :
  is_repeat ([ex_abstract_A] ++ ex_abstract_A' :: [ex_abstract_B]) "2-s2.0-A"
  = (true, Some ex_abstract_A').
Proof.
  apply (is_repeat_last_match [ex_abstract_A] [ex_abstract_B] ex_abstract_A' "2-s2.0-A").
  - reflexivity.
  - simpl. intros [H|[]]. discriminate.
Defined.

Lemma pull_abstract_at_target_depth_witness :
  exists w' s' out exn,
    pull_abstract ex_remote (fresh_world ∅ 0) (init None) "2-s2.0-A" 0 true
      default_flags_add_document = Some (w', s', out, exn)
    /\ (forall y d, ~ In (EvCall y d) out)
    /\ (requests w' <= 1)%nat.
Proof.
  destruct (pull_abstract_at_target_depth ex_remote (fresh_world ∅ 0) (init None)
              "2-s2.0-A" 0 true default_flags_add_document)
    as (w' & s' & out & exn & E & H1 & _ & H3).
  - intros target Ht. inversion Ht. lia.
  - exists w', s', out, exn. repeat split; assumption.
Defined.

Lemma add_documents_without_depth_witness :
  exists w' s' out exn,
    add_documents ex_remote (fresh_world ∅ 0) (init None)
      (inr ["2-s2.0-A"; "2-s2.0-B"; "2-s2.0-Z"]) None default_flags_add_documents
    = Some (w', s', out, exn)
    /\ (forall y d, ~ In (EvCall y d) out)
    /\ (requests w' <= 3)%nat.
Proof.
  destruct (add_documents_without_depth ex_remote (fresh_world ∅ 0) (init None)
              (inr ["2-s2.0-A"; "2-s2.0-B"; "2-s2.0-Z"]) None
              default_flags_add_documents)
    as (w' & s' & out & exn & E & H1 & _ & H3).
  - intros target Ht. inversion Ht. lia.
  - exists w', s', out, exn. repeat split; assumption.
Defined.

Lemma failed_id_is_recorded_each_time_witness :
  exists w1 s1 out1 w2 s2 out2,
    pull_abstract ex_remote (fresh_world ∅ 0) (init None) "2-s2.0-Z" 0 false
      default_flags_add_document = Some (w1, s1, out1, None)
    /\ pull_abstract ex_remote w1 s1 "2-s2.0-Z" 0 false
         default_flags_add_document = Some (w2, s2, out2, None)
    /\ fails s2 = ["2-s2.0-Z"; "2-s2.0-Z"].
Proof.
  destruct (failed_id_is_recorded_each_time ex_remote (fresh_world ∅ 0) (init None)
              "2-s2.0-Z" 0 false default_flags_add_document)
    as (w1 & s1 & o1 & w2 & s2 & o2 & E1 & E2 & H & _).
  - intros [].
  - reflexivity.
  - reflexivity.
  - exists w1, s1, o1, w2, s2, o2. repeat split; assumption.
Defined.

Lemma cached_pull_is_idempotent_witness :
  let w := fst ex_after_pull_A in
  let s := snd ex_after_pull_A in
  pull_abstract ex_remote w s "2-s2.0-A" 0 false default_flags_add_document
  = Some (w, s, [], None)
  /\ has_edge (citation_graph s) "2-s2.0-A" "2-s2.0-R2" = true.
Proof.
  intros w s.
  destruct (cached_pull_is_idempotent ex_remote w s "2-s2.0-A" 0 false
              default_flags_add_document ex_abstract_A 0)
    as (E1 & H & _).
  - reflexivity.
  - lia.
  - reflexivity.
  - repeat constructor; discriminate.
  - split; [exact E1|].
    apply (H (mkReference (Some "R2")) "R2"); [right; left; reflexivity | reflexivity].
Defined.

Lemma documents_and_fails_append_only_witness :
  match run_calls ex_remote ex_remote_author ex_calls
          (fst ex_after_pull_A) (snd ex_after_pull_A) with
  | Some (w', s', _) =>
      (exists added, docs w' s' = [ex_abstract_A] ++ added)
      /\ (exists failed, fails s' = [] ++ failed)
  | None => False
  end.
Proof.
  destruct (run_calls ex_remote ex_remote_author ex_calls
              (fst ex_after_pull_A) (snd ex_after_pull_A))
    as [[[w' s'] out]|] eqn:E.
  - exact (documents_and_fails_append_only ex_remote ex_remote_author ex_calls
             _ _ w' s' out E).
  - vm_compute in E. discriminate.
Defined.

Lemma stored_node_attributes_are_final_witness :
  match run_calls ex_remote ex_remote_author ex_calls
          (fst ex_after_pull_A) (snd ex_after_pull_A) with
  | Some (w', s', _) =>
      dict_get "2-s2.0-A" (nodes (citation_graph s'))
      = Some [("attr", ARef default_flags_add_document)]
  | None => False
  end.
Proof.
  destruct (run_calls ex_remote ex_remote_author ex_calls
              (fst ex_after_pull_A) (snd ex_after_pull_A))
    as [[[w' s'] out]|] eqn:E.
  - apply (stored_node_attributes_are_final ex_remote ex_remote_author ex_calls
             (fst ex_after_pull_A) (snd ex_after_pull_A) w' s' out
             "2-s2.0-A" [("attr", ARef default_flags_add_document)]
             ex_remote_faithful).
    + left. reflexivity.
    + reflexivity.
    + exact E.
  - vm_compute in E. discriminate.
Defined.

Lemma stored_records_have_nodes_witness :
  match run_calls ex_remote ex_remote_author ex_calls (fresh_world ∅ 0) (init None) with
  | Some (w', s', _) =>
      forall a, In a (docs w' s') -> coverDate a <> None ->
        exists d fl,
          dict_get (eid a) (nodes (citation_graph s')) = Some d
          /\ dict_get "attr" d = Some (ARef fl)
  | None => False
  end.
Proof.
  destruct (run_calls ex_remote ex_remote_author ex_calls (fresh_world ∅ 0) (init None))
    as [[[w' s'] out]|] eqn:E.
  - exact (stored_records_have_nodes ex_remote ex_remote_author ex_calls
             (fresh_world ∅ 0) (init None) w' s' out eq_refl E).
  - vm_compute in E. discriminate.
Defined.

Lemma stored_records_have_author_edges_witness :
  match run_calls ex_remote ex_remote_author ex_calls (fresh_world ∅ 0) (init None) with
  | Some (w', s', _) =>
      In ex_abstract_A (docs w' s') ->
      has_edge (authorship_graph s') "2-s2.0-A" "7" = true
  | None => False
  end.
Proof.
  destruct (run_calls ex_remote ex_remote_author ex_calls (fresh_world ∅ 0) (init None))
    as [[[w' s'] out]|] eqn:E.
  - intros Hin.
    apply (stored_records_have_author_edges ex_remote ex_remote_author ex_calls
             (fresh_world ∅ 0) (init None) w' s' out eq_refl E
             ex_abstract_A [] (mkAuthor (Some "7") "Doe J.") [] "7" Hin).
    + discriminate.
    + reflexivity.
    + constructor.
    + reflexivity.
  - vm_compute in E. discriminate.
Defined.

Lemma other_document_lists_untouched_witness :
  match run_calls ex_remote ex_remote_author ex_calls
          (fresh_world ∅ 0) (init (Some 1%nat)) with
  | Some (w', s', _) =>
      length (doc_lists w') = 1%nat
      /\ forall other : Session,
           documents other <> 1%nat -> docs w' other = docs (fresh_world ∅ 0) other
  | None => False
  end.
Proof.
  destruct (run_calls ex_remote ex_remote_author ex_calls
              (fresh_world ∅ 0) (init (Some 1%nat)))
    as [[[w' s'] out]|] eqn:E.
  - exact (other_document_lists_untouched ex_remote ex_remote_author ex_calls
             _ _ w' s' out E).
  - vm_compute in E. discriminate.
Defined.

Lemma sessions_sharing_a_list_agree_witness :
  match run_calls ex_remote ex_remote_author ex_calls (fresh_world ∅ 0) (init None) with
  | Some (w', s', _) => docs w' (init None) = docs w' s'
  | None => False
  end.
Proof.
  destruct (run_calls ex_remote ex_remote_author ex_calls (fresh_world ∅ 0) (init None))
    as [[[w' s'] out]|] eqn:E.
  - exact (sessions_sharing_a_list_agree ex_remote ex_remote_author ex_calls
             _ _ w' s' out E (init None) eq_refl).
  - vm_compute in E. discriminate.
Defined.

Lemma quota_is_that_of_last_record_witness :
  match run_calls ex_remote ex_remote_author ex_calls (fresh_world ∅ 0) (init None) with
  | Some (w', s', _) =>
      (docs w' s' = [] /\ quota_fields s' = (Some "", Some ""))
      \/ (exists earlier last,
            docs w' s' = [] ++ earlier ++ [last]
            /\ quota_fields s' = (key_remaining_quota last, key_reset_time last))
  | None => False
  end.
Proof.
  destruct (run_calls ex_remote ex_remote_author ex_calls (fresh_world ∅ 0) (init None))
    as [[[w' s'] out]|] eqn:E.
  - apply (quota_is_that_of_last_record ex_remote ex_remote_author ex_calls
             (fresh_world ∅ 0) (init None) w' s' out); [|exact E].
    vm_compute. lia.
  - vm_compute in E. discriminate.
Defined.

Lemma has_documents_after_pull_witness :
  exists w' s' out exn,
    pull_abstract ex_remote (fresh_world ∅ 0) (init None) "2-s2.0-B" 0 false
      default_flags_add_document = Some (w', s', out, exn)
    /\ has_documents w' s' = (true, []).
Proof.
  apply (has_documents_after_pull ex_remote (fresh_world ∅ 0) (init None)
           "2-s2.0-B" 0 false default_flags_add_document).
  - vm_compute. lia.
  - right. exists ex_abstract_B. reflexivity.
Defined.

Lemma graphs_stay_well_formed_witness :
  match run_calls ex_remote ex_remote_author ex_calls (fresh_world ∅ 0) (init None) with
  | Some (w', s', _) => graph_wf (citation_graph s') /\ graph_wf (authorship_graph s')
  | None => False
  end.
Proof.
  destruct (run_calls ex_remote ex_remote_author ex_calls (fresh_world ∅ 0) (init None))
    as [[[w' s'] out]|] eqn:E.
  - exact (graphs_stay_well_formed ex_remote ex_remote_author ex_calls
             (fresh_world ∅ 0) (init None) w' s' out graph_wf_empty graph_wf_empty E).
  - vm_compute in E. discriminate.
Defined.

Lemma pulled_stub_keeps_its_node_witness :
  let s := set_citation_graph (add_edge "2-s2.0-P" "2-s2.0-A" empty_graph) (init None) in
  exists w' s' out exn more,
    pull_abstract ex_remote (fresh_world ∅ 0) s "2-s2.0-A" 0 false
      default_flags_add_document = Some (w', s', out, exn)
    /\ map fst (nodes (citation_graph s')) = ["2-s2.0-P"; "2-s2.0-A"] ++ more
    /\ List.NoDup (map fst (nodes (citation_graph s'))).
Proof.
  intros s.
  destruct (pulled_stub_keeps_its_node ex_remote (fresh_world ∅ 0) s "2-s2.0-A" 0 false
              default_flags_add_document ex_abstract_A "2020-05-01")
    as (w' & s' & out & exn & E & [more Hn] & Hnd & _).
  - apply add_edge_wf, graph_wf_empty.
  - reflexivity.
  - intros [].
  - reflexivity.
  - reflexivity.
  - reflexivity.
  - exists w', s', out, exn, more. repeat split; assumption.
Defined.

Lemma save_checkpoint_keeps_other_keys_witness :
  files (fst (save_checkpoint ex_strftime ex_openable ex_world_documents_only
                (init None) (Some "j")))
    !! checkpoint_filename "k"
  = Some ex_documents_only.
Proof.
  destruct (save_checkpoint_keeps_other_keys ex_strftime ex_openable
              ex_world_documents_only (init None) "j" "k") as [H _].
  - discriminate.
  - rewrite H. reflexivity.
Defined.

Lemma load_checkpoint_frame_witness :
  let '(w', s', _) :=
    load_checkpoint ex_world_documents_only (snd ex_after_pull_A) (Some "k") in
  fails s' = [] /\ target_depth s' = DInt 0 /\ documents s' = 1%nat
  /\ docs w' (init None) = docs ex_world_documents_only (init None).
Proof.
  destruct (load_checkpoint ex_world_documents_only (snd ex_after_pull_A) (Some "k"))
    as [[w' s'] out] eqn:E.
  destruct (load_checkpoint_frame _ _ _ _ _ _ E) as (H1 & H2 & _ & _ & H5).
  split; [exact H1|]. split; [exact H2|]. split.
  - vm_compute in E. inversion E. reflexivity.
  - apply H5. vm_compute. lia.
Defined.

Lemma distance_when_it_returns_witness :
  (exists D,
     diameter ex_graph_path = Returns D /\ (2 <= D)%nat)
  /\ distance_from_initial_sample (set_citation_graph ex_graph_path (init None)) "C"
     = Returns 2%nat.
Proof.
  assert (E : distance_from_initial_sample
                (set_citation_graph ex_graph_path (init None)) "C" = Returns 2%nat)
    by reflexivity.
  destruct (distance_when_it_returns _ _ _ E) as [H _].
  split; [exact H | exact E].
Defined.

Lemma pull_author_sets_target_depth_witness :
  let nd := new_dict [("initial", VBool true)] (fresh_world ∅ 0) in
  exists w' s' out,
    pull_author ex_remote ex_remote_author (fst nd) (init None) "7" (snd nd)
    = Some (w', s', out, None)
    /\ target_depth s' = DDict 5.
Proof.
  intros nd.
  apply (pull_author_sets_target_depth ex_remote ex_remote_author (fst nd) (init None)
           "7" (snd nd) ["2-s2.0-A"]).
  - reflexivity.
  - vm_compute. discriminate.
Defined.

Lemma pull_of_stored_document_raises_witness :
  let w := fst ex_after_pull_A in
  let s := set_target_depth (DDict default_flags_add_documents) (snd ex_after_pull_A) in
  pull_abstract ex_remote w s "2-s2.0-A" 0 false default_flags_add_document
  = Some (w, s, [], Some "TypeError").
Proof.
  intros w s.
  rewrite <- (set_citation_graph_same s) at 2.
  assert (G : citation_graph s
              = add_edge (eid ex_abstract_A) (_eid_from_id "R1") (citation_graph s))
    by reflexivity.
  rewrite G at 1.
  apply (pull_of_stored_document_raises ex_remote w s "2-s2.0-A" 0 false
           default_flags_add_document ex_abstract_A (mkReference (Some "R1"))
           [mkReference (Some "R2")] "R1" default_flags_add_documents);
    reflexivity.
Defined.

Lemma failed_retrieval_changes_fail_list_only_witness :
  exists w' s' out,
    pull_abstract ex_remote (fresh_world ∅ 0) (init None) "2-s2.0-Z" 0 false
      default_flags_add_document = Some (w', s', out, None)
    /\ doc_lists w' = [[]]
    /\ citation_graph s' = empty_graph
    /\ fails s' = ["2-s2.0-Z"].
Proof.
  destruct (failed_retrieval_changes_fail_list_only ex_remote (fresh_world ∅ 0)
              (init None) "2-s2.0-Z" 0 false default_flags_add_document)
    as (w' & s' & out & E & H1 & _ & _ & H2 & _ & H3).
  - reflexivity.
  - reflexivity.
  - exists w', s', out. repeat split; assumption.
Defined.

Lemma edges_to_all_references_witness :
  exists w2 s2 out,
    pull_abstract ex_remote (fresh_world ∅ 0) (init None) "2-s2.0-A" 0 false
      default_flags_add_document = Some (w2, s2, out, None)
    /\ has_edge (citation_graph s2) "2-s2.0-A" "2-s2.0-R2" = true.
Proof.
  pose (rp := record_pull ex_abstract_A false default_flags_add_document
                (count_request (fresh_world ∅ 0)) (init None)).
  assert (L : exists w2 s2 o2,
             for_references (pull_abstract ex_remote) ex_abstract_A 0
               [mkReference (Some "R1"); mkReference (Some "R2")]
               (fst (fst (fst rp))) (snd (fst (fst rp)))
             = Some (w2, s2, o2, None))
    by (vm_compute; do 3 eexists; reflexivity).
  destruct L as (w2 & s2 & o2 & L).
  destruct (edges_to_all_references ex_remote (fresh_world ∅ 0) (init None)
              "2-s2.0-A" 0 false default_flags_add_document ex_abstract_A
              (fst (fst (fst rp))) (snd (fst (fst rp))) [EvRetrieve "2-s2.0-A"]
              [mkReference (Some "R1"); mkReference (Some "R2")] w2 s2 o2)
    as [E H].
  - right. split; [reflexivity|]. split; [reflexivity|].
    exists []. split; reflexivity.
  - reflexivity.
  - exact L.
  - exists w2, s2, ([EvRetrieve "2-s2.0-A"] ++ o2). split; [exact E|].
    destruct (H (mkReference (Some "R2"))) as (thisid & Hid & He & _).
    + right. left. reflexivity.
    + inversion Hid; subst thisid. exact He.
Defined.
